(** * symphra-cache: backend engines, the distributed lock and their callers

    A shallow embedding of [symphra_cache/backends/{base,memory,file}.py],
    [symphra_cache/locks.py] and, of their callers, the manager's
    [get_or_set], [increment], [decrement] and [ttl], the wrapper of the
    [cache] decorator and the invalidator's [invalidate_keys],
    [invalidate_pattern] and [invalidate_all].

    Conventions of the embedding.
    - A reading of [time.time()] is a rational number of seconds.  Every
      call of a backend method observes one reading [now]; the engines
      hold their lock for the whole call.  A caller that makes several
      backend calls has one reading for each.
    - Floating point: the sum [time.time() + ttl] and the difference
      [expires_at - time.time()] are rounded to the 53-bit significand of
      binary64 (nearest, ties to even), and an [int] too large for a float
      raises [OverflowError]; comparisons of floats are exact.  Infinities
      are not part of the model: a sum of a clock reading and a converted
      [ttl] overflows only for a reading beyond 2^970 seconds.
    - A [str] is the string of its UTF-8 bytes.
    - Python's [None] is the constructor [PyNone] of [CacheValue]; a
      method of type [CacheValue | None] returns a [CacheValue].
    - An exception is the [Raise] outcome of the small error monad below.
    - The codec of the file engine is taken to round-trip: the BLOB column
      holds the value itself.  Failures of the store or of the codec are
      outside the model.
    - The Redis engine hands every operation to the server; its behaviour
      is that of the server and is not embedded here. *)

From Stdlib Require Import String Ascii List ZArith QArith Qround Bool Lia Lqa.
From Stdlib Require Import Permutation DecimalString.
Import ListNotations.

Local Open Scope Z_scope.

(** ** Exceptions *)

Inductive Exception : Type :=
| KeyError
| OverflowError
| TypeError
| CacheBackendError.

Inductive outcome (A : Type) : Type :=
| Return (a : A)
| Raise (e : Exception).

Arguments Return {A} a.
Arguments Raise {A} e.

Definition bind {A B : Type} (c : outcome A) (k : A -> outcome B) : outcome B :=
  match c with
  | Return a => k a
  | Raise e => Raise e
  end.

Notation "x <- c ;; k" := (bind c (fun x => k))
  (at level 61, c at next level, right associativity).

(** ** Keys and values *)

(** [CacheKey = str | int | bytes] ([types.py]); a [bytes] object is the
    string of its bytes. *)
Inductive CacheKey : Type :=
| KStr (s : string)
| KInt (z : Z)
| KBytes (b : string).

Bind Scope string_scope with CacheKey.
Coercion KStr : string >-> CacheKey.

Module Key.

(** [a == b], the equality of dictionary keys: a [str], an [int] and a
    [bytes] object are never equal to one another. *)
Definition eqb (a b : CacheKey) : bool :=
  match a, b with
  | KStr x, KStr y => String.eqb x y
  | KInt x, KInt y => Z.eqb x y
  | KBytes x, KBytes y => String.eqb x y
  | _, _ => false
  end.

Definition eq_dec (a b : CacheKey) : {a = b} + {a <> b}.
Proof. decide equality; [apply string_dec | apply Z.eq_dec | apply string_dec]. Defined.

Definition eqb_spec (a b : CacheKey) : reflect (a = b) (eqb a b).
Proof.
  destruct a as [x | x | x], b as [y | y | y]; simpl;
    try (constructor; discriminate).
  - destruct (String.eqb_spec x y); constructor; congruence.
  - destruct (Z.eqb_spec x y); constructor; congruence.
  - destruct (String.eqb_spec x y); constructor; congruence.
Defined.

(** [isinstance(k, str)] *)
Definition is_str (k : CacheKey) : bool :=
  match k with KStr _ => true | _ => false end.

End Key.

Inductive CacheValue : Type :=
| PyNone
| PyStr (s : string)
| PyInt (z : Z)
| PyBool (b : bool).

Definition is_none (v : CacheValue) : bool :=
  match v with PyNone => true | _ => false end.

Definition value_eqb (a b : CacheValue) : bool :=
  match a, b with
  | PyNone, PyNone => true
  | PyStr x, PyStr y => String.eqb x y
  | PyInt x, PyInt y => Z.eqb x y
  | PyBool x, PyBool y => Bool.eqb x y
  | _, _ => false
  end.

(** [str(z)] for an [int]: its decimal numeral. *)
Definition decimal (z : Z) : string := NilZero.string_of_int (Z.to_int z).

Definition hex_digit (n : N) : ascii :=
  match String.get (N.to_nat n) "0123456789abcdef" with
  | Some c => c
  | None => "0"%char
  end.

(** One byte in [repr(b)] for a [bytes] object quoted by [quote]. *)
Definition repr_byte (quote c : ascii) : string :=
  let backslash := ascii_of_nat 92 in
  let n := N_of_ascii c in
  if Ascii.eqb c quote || Ascii.eqb c backslash then String backslash (String c EmptyString)
  else if (n =? 9)%N then String backslash "t"
  else if (n =? 10)%N then String backslash "n"
  else if (n =? 13)%N then String backslash "r"
  else if (n <? 32)%N || (127 <=? n)%N
       then String backslash
              (String "x" (String (hex_digit (n / 16)) (String (hex_digit (n mod 16)) EmptyString)))
  else String c EmptyString.

(** [repr(b)], which is also [str(b)], for a [bytes] object: quoted by a
    single quote unless [b] holds single quotes and no double quote. *)
Definition bytes_repr (b : string) : string :=
  let squote := ascii_of_nat 39 in
  let dquote := ascii_of_nat 34 in
  let bytes := list_ascii_of_string b in
  let quote :=
    if existsb (Ascii.eqb squote) bytes && negb (existsb (Ascii.eqb dquote) bytes)
    then dquote else squote in
  String "b"
    (String quote
       (fold_right (fun c acc => repr_byte quote c ++ acc) (String quote EmptyString) bytes))%string.

(** [str(key)] *)
Definition py_str (k : CacheKey) : string :=
  match k with
  | KStr s => s
  | KInt z => decimal z
  | KBytes b => bytes_repr b
  end.

(** ** Clock readings and floating point *)

Definition Timestamp := Q.
Bind Scope Q_scope with Timestamp.

(** [a > b] on floats. *)
Definition Qgt_bool (a b : Q) : bool := negb (Qle_bool a b).

(** [int(x)]: truncation toward zero. *)
Definition py_int (x : Q) : Z := Z.quot (Qnum x) (Zpos (Qden x)).

(** The exponent of the leading bit of [n / d]: [floor (log2 (n / d))]. *)
Definition ilog2 (n d : positive) : Z :=
  let k := Z.log2 (Zpos n) - Z.log2 (Zpos d) in
  if 0 <=? k
  then (if Zpos d * 2 ^ k <=? Zpos n then k else k - 1)
  else (if Zpos d <=? Zpos n * 2 ^ (- k) then k else k - 1).

(** [n / d] rounded to the nearest integer, a tie to the even one, for
    [0 <= n]. *)
Definition rne (n : Z) (d : positive) : Z :=
  let q := n / Zpos d in
  match 2 * (n mod Zpos d) ?= Zpos d with
  | Lt => q
  | Gt => q + 1
  | Eq => if Z.even q then q else q + 1
  end.

Definition round53_pos (n d : positive) : Q :=
  let e := ilog2 n d - 52 in
  if 0 <=? e
  then inject_Z (rne (Zpos n) (d * Z.to_pos (2 ^ e)) * 2 ^ e)
  else Qmake (rne (Zpos n * 2 ^ (- e)) d) (Z.to_pos (2 ^ (- e))).

(** The real [x] rounded to a significand of 53 bits, to nearest and ties
    to even: the rounding of binary64 arithmetic. *)
Definition round53 (x : Q) : Q :=
  Qred match Qnum x with
       | Z0 => 0
       | Zpos n => round53_pos n (Qden x)
       | Zneg n => - round53_pos n (Qden x)
       end.

(** [2 ^ l <= n / d] *)
Definition pow2_le (l : Z) (n d : positive) : Prop :=
  Zpos d * 2 ^ (Z.max l 0) <= Zpos n * 2 ^ (Z.max (- l) 0).

(** [float(z)] of an [int] operand of float arithmetic: [OverflowError]
    when the rounded value leaves the range of binary64. *)
Definition float_of_int (z : Z) : outcome Q :=
  let f := round53 (inject_Z z) in
  if Qle_bool (inject_Z (2 ^ 1024)) f || Qle_bool f (- inject_Z (2 ^ 1024))
  then Raise OverflowError
  else Return f.

(** [a - b] on floats. *)
Definition float_sub (a b : Q) : Q := round53 (a - b).

(** [time.time() + ttl] for an [int] number of seconds. *)
Definition add_seconds (now : Timestamp) (ttl : Z) : outcome Timestamp :=
  f <- float_of_int ttl ;; Return (round53 (now + f)).

(** [None if ttl is None else time.time() + ttl] *)
Definition expiry (now : Timestamp) (ttl : option Z) : outcome (option Timestamp) :=
  match ttl with
  | None => Return None
  | Some seconds => e <- add_seconds now seconds ;; Return (Some e)
  end.

(** [fnmatch.fnmatch(k, pattern)] on a key: [TypeError] for a key that is
    not a [str] (the pattern is one).  [fnmatch] is the function of the
    Python library on two [str]. *)
Definition fnmatch_key (fnmatch : string -> string -> bool) (pattern : string)
  (k : CacheKey) : outcome bool :=
  match k with
  | KStr s => Return (fnmatch s pattern)
  | _ => Raise TypeError
  end.

(** [[k for k in all_keys if fnmatch.fnmatch(k, pattern)]] *)
Fixpoint fnmatch_filter (fnmatch : string -> string -> bool) (pattern : string)
  (all_keys : list CacheKey) : outcome (list CacheKey) :=
  match all_keys with
  | [] => Return []
  | k :: rest =>
      m <- fnmatch_key fnmatch pattern k ;;
      matched <- fnmatch_filter fnmatch pattern rest ;;
      Return (if m then k :: matched else matched)
  end.

(** ** [collections.OrderedDict]

    The head of the list is the first (oldest) item, the last element is
    the item at the end. *)

Module OrderedDict.
Section Ops.
Context {V : Type}.

Definition t := list (CacheKey * V).

(** [key in d] *)
Fixpoint contains (key : CacheKey) (d : t) : bool :=
  match d with
  | [] => false
  | (k, _) :: d' => if Key.eqb key k then true else contains key d'
  end.

(** [d[key]] ([None] where Python raises; every use is guarded by [in]). *)
Fixpoint getitem (key : CacheKey) (d : t) : option V :=
  match d with
  | [] => None
  | (k, v) :: d' => if Key.eqb key k then Some v else getitem key d'
  end.

(** [del d[key]] *)
Fixpoint delitem (key : CacheKey) (d : t) : t :=
  match d with
  | [] => []
  | (k, v) :: d' =>
      if Key.eqb key k then delitem key d' else (k, v) :: delitem key d'
  end.

(** [d[key] = v]: in place when the key is there, at the end otherwise. *)
Fixpoint setitem (key : CacheKey) (v : V) (d : t) : t :=
  match d with
  | [] => [(key, v)]
  | (k, v') :: d' =>
      if Key.eqb key k then (k, v) :: d' else (k, v') :: setitem key v d'
  end.

(** [d.move_to_end(key)] *)
Definition move_to_end (key : CacheKey) (d : t) : t :=
  match getitem key d with
  | Some v => delitem key d ++ [(key, v)]
  | None => d
  end.

(** [d.popitem(last=False)]; [KeyError] on an empty dictionary. *)
Definition popitem_first (d : t) : outcome ((CacheKey * V) * t) :=
  match d with
  | [] => Raise KeyError
  | kv :: d' => Return (kv, d')
  end.

(** [list(d.keys())] *)
Definition keys (d : t) : list CacheKey := map fst d.

End Ops.
Arguments t : clear implicits.
End OrderedDict.

(** ** [KeysPage] and list slicing *)

Record KeysPage : Type := mkKeysPage {
  page_keys : list CacheKey;
  page_cursor : Z;
  has_more : bool;
  total_scanned : Z
}.

(** Index normalisation of [l[a:b]] for a list of length [len]. *)
Definition slice_index (len i : Z) : Z :=
  if i <? 0 then Z.max 0 (i + len) else Z.min i len.

(** [l[a:b]] *)
Definition py_slice {A : Type} (l : list A) (a b : Z) : list A :=
  let len := Z.of_nat (length l) in
  let lo := slice_index len a in
  let hi := slice_index len b in
  firstn (Z.to_nat (hi - lo)) (skipn (Z.to_nat lo) l).

(** The cleanup thread handle: [None] before it is created, otherwise
    whether [is_alive()] holds. *)
Definition Thread := option bool.

(** Calls made on the stop event and the thread handle. *)
Inductive ThreadCall : Type :=
| EventSet
| ThreadJoin (timeout : Q).

(** [thread.join(timeout)]: the loop [while not stop.wait(interval)] leaves
    as soon as the event is set, so a join after [set()] finds the thread
    finished; without the event the join times out and the thread lives. *)
Definition join (stop : bool) (th : Thread) : Thread :=
  match th with
  | Some true => Some (negb stop)
  | other => other
  end.

(** ** The memory engine ([backends/memory.py]) *)

Module Memory.

(** [(value, expires_at)] *)
Definition entry := (CacheValue * option Timestamp)%type.

Record MemoryBackend : Type := mkMemoryBackend {
  _max_size : Z;
  _cache : OrderedDict.t entry;
  _stop_cleanup : bool;
  _cleanup_thread : Thread
}.

Definition with_cache (self : MemoryBackend) (c : OrderedDict.t entry) : MemoryBackend :=
  mkMemoryBackend (_max_size self) c (_stop_cleanup self) (_cleanup_thread self).

(** [MemoryBackend(max_size)]: empty map, cleanup thread started. *)
Definition init (max_size : Z) : MemoryBackend :=
  mkMemoryBackend max_size [] false (Some true).

(** [expires_at is not None and now > expires_at] *)
Definition is_expired (now : Timestamp) (expires_at : option Timestamp) : bool :=
  match expires_at with
  | None => false
  | Some e => Qgt_bool now e
  end.

Definition get (key : CacheKey) (now : Timestamp) (self : MemoryBackend)
  : CacheValue * MemoryBackend :=
  match OrderedDict.getitem key (_cache self) with
  | None => (PyNone, self)
  | Some (value, expires_at) =>
      if is_expired now expires_at
      then (PyNone, with_cache self (OrderedDict.delitem key (_cache self)))
      else (value, with_cache self (OrderedDict.move_to_end key (_cache self)))
  end.

(** [expires_at is None or now <= expires_at], the test of the [nx] branch. *)
Definition nx_blocks (now : Timestamp) (expires_at : option Timestamp) : bool :=
  match expires_at with
  | None => true
  | Some e => Qle_bool now e
  end.

Definition set (key : CacheKey) (value : CacheValue) (ttl : option Z)
  (ex nx : bool) (now : Timestamp) (self : MemoryBackend)
  : outcome (bool * MemoryBackend) :=
  if _max_size self =? 0 then Return (false, self)
  else
    let blocked :=
      if nx && OrderedDict.contains key (_cache self) then
        match OrderedDict.getitem key (_cache self) with
        | Some (_, expires_at) => nx_blocks now expires_at
        | None => false
        end
      else false in
    if blocked then Return (false, self)
    else
      expires_at <- expiry now ttl ;;
      if OrderedDict.contains key (_cache self) then
        Return (true, with_cache self
          (OrderedDict.setitem key (value, expires_at)
             (OrderedDict.move_to_end key (_cache self))))
      else if Z.of_nat (length (_cache self)) >=? _max_size self then
        popped <- OrderedDict.popitem_first (_cache self) ;;
        Return (true, with_cache self
          (OrderedDict.setitem key (value, expires_at) (snd popped)))
      else
        Return (true, with_cache self
          (OrderedDict.setitem key (value, expires_at) (_cache self))).

Definition delete (key : CacheKey) (self : MemoryBackend) : bool * MemoryBackend :=
  if OrderedDict.contains key (_cache self)
  then (true, with_cache self (OrderedDict.delitem key (_cache self)))
  else (false, self).

(** [self.get(key) is not None] *)
Definition exists_ (key : CacheKey) (now : Timestamp) (self : MemoryBackend)
  : bool * MemoryBackend :=
  let r := get key now self in (negb (is_none (fst r)), snd r).

Definition clear (self : MemoryBackend) : MemoryBackend := with_cache self [].

(** The loop body of [get_many]; [result] is the dictionary built so far. *)
Definition get_many_step (now : Timestamp)
  (acc : OrderedDict.t CacheValue * OrderedDict.t entry) (key : CacheKey)
  : OrderedDict.t CacheValue * OrderedDict.t entry :=
  let '(result, cache) := acc in
  match OrderedDict.getitem key cache with
  | None => (result, cache)
  | Some (value, expires_at) =>
      if is_expired now expires_at
      then (result, OrderedDict.delitem key cache)
      else (OrderedDict.setitem key value result, OrderedDict.move_to_end key cache)
  end.

Definition get_many (keys : list CacheKey) (now : Timestamp) (self : MemoryBackend)
  : OrderedDict.t CacheValue * MemoryBackend :=
  let r := fold_left (get_many_step now) keys ([], _cache self) in
  (fst r, with_cache self (snd r)).

(** The loop body of [set_many]. *)
Definition set_many_step (max_size : Z) (expires_at : option Timestamp)
  (acc : outcome (OrderedDict.t entry)) (kv : CacheKey * CacheValue)
  : outcome (OrderedDict.t entry) :=
  cache <- acc ;;
  cache1 <-
    (if (Z.of_nat (length cache) >=? max_size)
          && negb (OrderedDict.contains (fst kv) cache)
     then popped <- OrderedDict.popitem_first cache ;; Return (snd popped)
     else Return cache) ;;
  Return (OrderedDict.move_to_end (fst kv)
            (OrderedDict.setitem (fst kv) (snd kv, expires_at) cache1)).

Definition set_many (mapping : list (CacheKey * CacheValue)) (ttl : option Z)
  (now : Timestamp) (self : MemoryBackend) : outcome MemoryBackend :=
  if _max_size self =? 0 then Return self
  else
    expires_at <- expiry now ttl ;;
    cache <- fold_left (set_many_step (_max_size self) expires_at) mapping
               (Return (_cache self)) ;;
    Return (with_cache self cache).

Section Keys.
(** [fnmatch.fnmatch(name, pattern)] of the Python library. *)
Variable fnmatch : string -> string -> bool.

Definition keys (pattern : string) (cursor count : Z) (max_keys : option Z)
  (self : MemoryBackend) : outcome KeysPage :=
  let all_keys := OrderedDict.keys (_cache self) in
  matched_keys <-
    (if String.eqb pattern "*" then Return all_keys
     else fnmatch_filter fnmatch pattern all_keys) ;;
  let total := Z.of_nat (length matched_keys) in
  let start_idx := cursor in
  let end_idx :=
    match max_keys with
    | Some m => Z.min (start_idx + count) (start_idx + m)
    | None => start_idx + count
    end in
  let page := py_slice matched_keys start_idx end_idx in
  let next_cursor := if end_idx <? total then end_idx else 0 in
  Return (mkKeysPage page next_cursor (next_cursor >? 0) (Z.of_nat (length page))).
End Keys.

Definition ttl (key : CacheKey) (now : Timestamp) (self : MemoryBackend) : Z :=
  match OrderedDict.getitem key (_cache self) with
  | None => -2
  | Some (_, None) => -1
  | Some (_, Some expires_at) =>
      let remaining := py_int (float_sub expires_at now) in
      if remaining >? 0 then remaining else -2
  end.

(** [close]: the body is [pass] under its test of the thread handle. *)
Definition close (self : MemoryBackend) : list ThreadCall * MemoryBackend :=
  match _cleanup_thread self with
  | Some true => ([], self)
  | _ => ([], self)
  end.

(** [_cleanup_expired], the body of the background loop. *)
Definition _cleanup_expired (now : Timestamp) (self : MemoryBackend) : MemoryBackend :=
  let expired_keys :=
    map fst (filter (fun kv => is_expired now (snd (snd kv))) (_cache self)) in
  with_cache self
    (fold_left (fun c k => OrderedDict.delitem k c) expired_keys (_cache self)).

(** [__del__] *)
Definition del_ (self : MemoryBackend) : list ThreadCall * MemoryBackend :=
  let stopped := mkMemoryBackend (_max_size self) (_cache self) true (_cleanup_thread self) in
  match _cleanup_thread self with
  | Some true =>
      ([EventSet; ThreadJoin 1],
       mkMemoryBackend (_max_size self) (_cache self) true (join true (_cleanup_thread self)))
  | _ => ([EventSet], stopped)
  end.

(** [__len__]: the number of stored entries. *)
Definition len_ (self : MemoryBackend) : Z := Z.of_nat (length (_cache self)).

End Memory.

(** ** The file engine ([backends/file.py])

    The table [cache_entries] is the list of its rows in rowid order.  The
    hot-reload bookkeeping ([_db_mtime], [_last_reload_time]) is not part of
    the model: no operation reads it back. *)

Module File.

(** A value of the column [key TEXT PRIMARY KEY]: the TEXT affinity stores
    a bound [str] or [int] as TEXT and leaves a bound [bytes] a BLOB. *)
Inductive SqlKey : Type :=
| SqlText (s : string)
| SqlBlob (b : string).

(** [=] on the key column: BINARY collation; a TEXT never equals a BLOB. *)
Definition sql_eqb (a b : SqlKey) : bool :=
  match a, b with
  | SqlText x, SqlText y => String.eqb x y
  | SqlBlob x, SqlBlob y => String.eqb x y
  | _, _ => false
  end.

(** [<=] of [ORDER BY key]: TEXT before BLOB, each compared bytewise. *)
Definition sql_leb (a b : SqlKey) : bool :=
  match a, b with
  | SqlText x, SqlText y => String.leb x y
  | SqlBlob x, SqlBlob y => String.leb x y
  | SqlText _, SqlBlob _ => true
  | SqlBlob _, SqlText _ => false
  end.

(** The parameter [(key,)] as [set] binds it, the key itself: an [int]
    beyond 64 bits raises [OverflowError] in the binding. *)
Definition bind_key (k : CacheKey) : outcome SqlKey :=
  match k with
  | KStr s => Return (SqlText s)
  | KInt z =>
      if (- 2 ^ 63 <=? z) && (z <=? 2 ^ 63 - 1)
      then Return (SqlText (decimal z))
      else Raise OverflowError
  | KBytes b => Return (SqlBlob b)
  end.

(** The parameter [(str(key),)] as [get] and [delete] bind it. *)
Definition bind_str (k : CacheKey) : SqlKey := SqlText (py_str k).

(** [row[0]] of a fetched key: a TEXT is read as [str], a BLOB as [bytes]. *)
Definition fetch_key (k : SqlKey) : CacheKey :=
  match k with
  | SqlText s => KStr s
  | SqlBlob b => KBytes b
  end.

Record Row : Type := mkRow {
  key : SqlKey;
  value : CacheValue;
  expires_at : option Timestamp;
  last_access : Timestamp;
  created_at : Timestamp
}.

Record FileBackend : Type := mkFileBackend {
  _max_size : Z;
  cache_entries : list Row;
  _stop_cleanup : bool;
  _cleanup_thread : Thread
}.

Definition with_table (self : FileBackend) (rows : list Row) : FileBackend :=
  mkFileBackend (_max_size self) rows (_stop_cleanup self) (_cleanup_thread self).

Definition init (max_size : Z) : FileBackend :=
  mkFileBackend max_size [] false (Some true).

(** [SELECT ... FROM cache_entries WHERE key = ?] *)
Definition select_key (k : SqlKey) (rows : list Row) : option Row :=
  find (fun r => sql_eqb k (key r)) rows.

(** [DELETE FROM cache_entries WHERE key = ?] *)
Definition delete_key (k : SqlKey) (rows : list Row) : list Row :=
  filter (fun r => negb (sql_eqb k (key r))) rows.

(** [UPDATE cache_entries SET last_access = ? WHERE key = ?] *)
Definition update_last_access (k : SqlKey) (now : Timestamp) (rows : list Row)
  : list Row :=
  map (fun r =>
         if sql_eqb k (key r)
         then mkRow (key r) (value r) (expires_at r) now (created_at r)
         else r) rows.

(** [INSERT OR REPLACE INTO cache_entries ...]: the conflicting row is
    deleted and the new row gets a fresh, largest rowid. *)
Definition insert_or_replace (r : Row) (rows : list Row) : list Row :=
  delete_key (key r) rows ++ [r].

(** [expires_at IS NULL OR expires_at > ?] *)
Definition sql_live (now : Timestamp) (e : option Timestamp) : bool :=
  match e with
  | None => true
  | Some t => Qgt_bool t now
  end.

(** [expires_at is not None and time.time() > expires_at] *)
Definition is_expired (now : Timestamp) (e : option Timestamp) : bool :=
  match e with
  | None => false
  | Some t => Qgt_bool now t
  end.

(** [ORDER BY last_access ASC]: a stable insertion sort, ties in rowid order. *)
Fixpoint insert_by_access (r : Row) (sorted : list Row) : list Row :=
  match sorted with
  | [] => [r]
  | x :: rest =>
      if Qle_bool (last_access r) (last_access x)
      then r :: x :: rest
      else x :: insert_by_access r rest
  end.

Definition order_by_last_access (rows : list Row) : list Row :=
  fold_right insert_by_access [] rows.

(** [_evict_if_needed]; [to_delete] is bound as the [LIMIT], which raises
    [OverflowError] beyond 64 bits. *)
Definition _evict_if_needed (max_size : Z) (rows : list Row) : outcome (list Row) :=
  let count := Z.of_nat (length rows) in
  if count >? max_size then
    let to_delete := count - max_size in
    if to_delete >? 2 ^ 63 - 1 then Raise OverflowError
    else
      let victims :=
        map key (firstn (Z.to_nat to_delete) (order_by_last_access rows)) in
      Return (filter (fun r => negb (existsb (sql_eqb (key r)) victims)) rows)
  else Return rows.

Definition get (k : CacheKey) (now : Timestamp) (self : FileBackend)
  : CacheValue * FileBackend :=
  let k := bind_str k in
  match select_key k (cache_entries self) with
  | None => (PyNone, self)
  | Some row =>
      if is_expired now (expires_at row)
      then (PyNone, with_table self (delete_key k (cache_entries self)))
      else (value row,
            with_table self (update_last_access k now (cache_entries self)))
  end.

(** The body of the [try] of [set]: nothing is committed when it raises. *)
Definition set_body (k : CacheKey) (v : CacheValue) (ttl : option Z)
  (nx : bool) (now : Timestamp) (self : FileBackend)
  : outcome (bool * FileBackend) :=
  expires <- expiry now ttl ;;
  k <- bind_key k ;;
  let live_rows :=
    filter (fun r => sql_eqb k (key r) && sql_live now (expires_at r))
      (cache_entries self) in
  if nx && (Z.of_nat (length live_rows) >? 0) then Return (false, self)
  else
    let inserted := insert_or_replace (mkRow k v expires now now) (cache_entries self) in
    rows <- _evict_if_needed (_max_size self) inserted ;;
    Return (true, with_table self rows).

(** [set]: every exception of the body is raised as [CacheBackendError]
    after the rollback. *)
Definition set (k : CacheKey) (v : CacheValue) (ttl : option Z)
  (ex nx : bool) (now : Timestamp) (self : FileBackend)
  : outcome (bool * FileBackend) :=
  match set_body k v ttl nx now self with
  | Return r => Return r
  | Raise _ => Raise CacheBackendError
  end.

Definition delete (k : CacheKey) (self : FileBackend) : bool * FileBackend :=
  let k := bind_str k in
  let rowcount :=
    Z.of_nat (length (filter (fun r => sql_eqb k (key r)) (cache_entries self))) in
  (rowcount >? 0, with_table self (delete_key k (cache_entries self))).

Definition exists_ (k : CacheKey) (now : Timestamp) (self : FileBackend)
  : bool * FileBackend :=
  let r := get k now self in (negb (is_none (fst r)), snd r).

Definition clear (self : FileBackend) : FileBackend := with_table self [].

(** [DELETE ... WHERE expires_at IS NOT NULL AND expires_at < ?] *)
Definition _cleanup_expired (now : Timestamp) (self : FileBackend) : FileBackend :=
  with_table self
    (filter (fun r => negb (is_expired now (expires_at r))) (cache_entries self)).

(** [ORDER BY key] *)
Fixpoint insert_key (k : SqlKey) (sorted : list SqlKey) : list SqlKey :=
  match sorted with
  | [] => [k]
  | x :: rest => if sql_leb k x then k :: x :: rest else x :: insert_key k rest
  end.

Definition order_by_key (ks : list SqlKey) : list SqlKey :=
  fold_right insert_key [] ks.

Section Keys.
Variable fnmatch : string -> string -> bool.

Definition keys (pattern : string) (cursor count : Z) (max_keys : option Z)
  (now : Timestamp) (self : FileBackend) : outcome KeysPage :=
  let all_keys :=
    map fetch_key
      (order_by_key
         (map key (filter (fun r => sql_live now (expires_at r)) (cache_entries self)))) in
  matched_keys <-
    (if String.eqb pattern "*" then Return all_keys
     else fnmatch_filter fnmatch pattern all_keys) ;;
  let total := Z.of_nat (length matched_keys) in
  let start_idx := cursor in
  let end_idx :=
    match max_keys with
    | Some m => Z.min (start_idx + count) (start_idx + m)
    | None => start_idx + count
    end in
  let page := py_slice matched_keys start_idx end_idx in
  let next_cursor := if end_idx <? total then end_idx else 0 in
  Return (mkKeysPage page next_cursor (next_cursor >? 0) (Z.of_nat (length page))).
End Keys.

(** [close]: set the stop event, then join the thread for at most a second. *)
Definition close (self : FileBackend) : list ThreadCall * FileBackend :=
  match _cleanup_thread self with
  | Some true =>
      ([EventSet; ThreadJoin 1],
       mkFileBackend (_max_size self) (cache_entries self) true
         (join true (_cleanup_thread self)))
  | _ =>
      ([EventSet],
       mkFileBackend (_max_size self) (cache_entries self) true (_cleanup_thread self))
  end.

(** [__len__]: the row count of [cache_entries]. *)
Definition len_ (self : FileBackend) : Z := Z.of_nat (length (cache_entries self)).

End File.

(** ** The abstract base class ([backends/base.py]) *)

Module Base.

(** The abstract methods every engine implements. *)
Class BaseBackend (B : Type) : Type := {
  get : CacheKey -> Timestamp -> B -> CacheValue * B;
  set : CacheKey -> CacheValue -> option Z -> bool -> bool -> Timestamp -> B
        -> outcome (bool * B);
  delete : CacheKey -> B -> bool * B;
  exists_ : CacheKey -> Timestamp -> B -> bool * B
}.

Section Defaults.
Context {B : Type} `{BaseBackend B}.

(** Default [get_many]: a loop of [get], keys whose value is [None] skipped. *)
Fixpoint get_many_loop (keys : list CacheKey) (now : Timestamp)
  (result : OrderedDict.t CacheValue) (self : B)
  : OrderedDict.t CacheValue * B :=
  match keys with
  | [] => (result, self)
  | k :: rest =>
      let '(v, self1) := get k now self in
      get_many_loop rest now
        (if is_none v then result else OrderedDict.setitem k v result) self1
  end.

Definition get_many (keys : list CacheKey) (now : Timestamp) (self : B)
  : OrderedDict.t CacheValue * B :=
  get_many_loop keys now [] self.

(** Default [set_many]: a loop of [set(key, value, ttl=ttl)]. *)
Fixpoint set_many (mapping : list (CacheKey * CacheValue)) (ttl : option Z)
  (now : Timestamp) (self : B) : outcome B :=
  match mapping with
  | [] => Return self
  | (k, v) :: rest =>
      r <- set k v ttl false false now self ;;
      set_many rest ttl now (snd r)
  end.

(** Default [delete_many]: a loop of [delete], counting the successes. *)
Fixpoint delete_many_loop (keys : list CacheKey) (count : Z) (self : B) : Z * B :=
  match keys with
  | [] => (count, self)
  | k :: rest =>
      let '(deleted, self1) := delete k self in
      delete_many_loop rest (if deleted then count + 1 else count) self1
  end.

Definition delete_many (keys : list CacheKey) (self : B) : Z * B :=
  delete_many_loop keys 0 self.

(** Default [ttl]: [-2 if not self.exists(key) else -1]. *)
Definition ttl (k : CacheKey) (now : Timestamp) (self : B) : Z * B :=
  let '(found, self1) := exists_ k now self in
  (if negb found then -2 else -1, self1).

(** [check_health]: write, read and delete a probe key; any exception
    gives [False].  [t_set] and [t_get] are the readings of the clock in
    [set] and in [get].  A raised exception leaves the backend as it was
    before the call that raised. *)
Definition check_health (t_set t_get : Timestamp) (self : B) : bool * B :=
  let test_key := "__health_check__"%string in
  let test_value := PyStr "ok" in
  match set test_key test_value (Some 1) false false t_set self with
  | Raise _ => (false, self)
  | Return (_, self1) =>
      let '(result, self2) := get test_key t_get self1 in
      let '(_, self3) := delete test_key self2 in
      (value_eqb result test_value, self3)
  end.

End Defaults.
End Base.

#[export] Instance MemoryEngine : Base.BaseBackend Memory.MemoryBackend := {
  Base.get := Memory.get;
  Base.set := Memory.set;
  Base.delete := Memory.delete;
  Base.exists_ := Memory.exists_
}.

#[export] Instance FileEngine : Base.BaseBackend File.FileBackend := {
  Base.get := File.get;
  Base.set := File.set;
  Base.delete := File.delete;
  Base.exists_ := File.exists_
}.

(** ** The distributed lock ([locks.py])

    [manager.get], [manager.set] and [manager.delete] hand the call to the
    backend unchanged, so the lock is written over the backend interface. *)

Module Lock.

Record DistributedLock : Type := mkLock {
  name : string;
  timeout : Z;
  blocking : bool;
  blocking_timeout : option Q;
  identifier : string;
  _locked : bool
}.

(** [DistributedLock(manager, name, timeout, blocking, blocking_timeout)];
    [uuid] is the text of the fresh [uuid.uuid4()]. *)
Definition init (resource : string) (timeout : Z) (blocking : bool)
  (blocking_timeout : option Q) (uuid : string) : DistributedLock :=
  mkLock ("lock:" ++ resource) timeout blocking blocking_timeout uuid false.

Definition with_locked (self : DistributedLock) (b : bool) : DistributedLock :=
  mkLock (name self) (timeout self) (blocking self) (blocking_timeout self)
    (identifier self) b.

(** What one turn of the loop of [acquire] decides. *)
Inductive Poll : Type :=
| Acquired
| Refused
| Sleep.

Section OverBackend.
Context {B : Type} `{Base.BaseBackend B}.

(** [existing = self.manager.get(self.name)] *)
Definition acquire_read (self : DistributedLock) (now : Timestamp) (backend : B)
  : CacheValue * B :=
  Base.get (name self) now backend.

(** [self.manager.set(self.name, self.identifier, ttl=self.timeout)],
    [self._locked = True]; the result of [set] is dropped. *)
Definition acquire_write (self : DistributedLock) (now : Timestamp) (backend : B)
  : outcome (DistributedLock * B) :=
  r <- Base.set (name self) (PyStr (identifier self)) (Some (timeout self))
         false false now backend ;;
  Return (with_locked self true, snd r).

(** One turn of the [while True] loop, taken at the reading [now]. *)
Definition acquire_poll (self : DistributedLock) (start_time now : Timestamp)
  (backend : B) : outcome (Poll * DistributedLock * B) :=
  let '(existing, backend1) := acquire_read self now backend in
  if is_none existing then
    r <- acquire_write self now backend1 ;;
    Return (Acquired, fst r, snd r)
  else if negb (blocking self) then Return (Refused, self, backend1)
  else
    match blocking_timeout self with
    | Some limit =>
        if Qle_bool limit (now - start_time)
        then Return (Refused, self, backend1)
        else Return (Sleep, self, backend1)
    | None => Return (Sleep, self, backend1)
    end.

(** The loop over the clock readings of its turns; [None] when the
    readings run out while the lock is still being polled. *)
Fixpoint acquire_loop (self : DistributedLock) (start_time : Timestamp)
  (clock : list Timestamp) (backend : B)
  : outcome (option bool * DistributedLock * B) :=
  match clock with
  | [] => Return (None, self, backend)
  | now :: later =>
      r <- acquire_poll self start_time now backend ;;
      match r with
      | (Acquired, self1, backend1) => Return (Some true, self1, backend1)
      | (Refused, self1, backend1) => Return (Some false, self1, backend1)
      | (Sleep, self1, backend1) => acquire_loop self1 start_time later backend1
      end
  end.

Definition acquire (self : DistributedLock) (start_time : Timestamp)
  (clock : list Timestamp) (backend : B)
  : outcome (option bool * DistributedLock * B) :=
  acquire_loop self start_time clock backend.

Definition release (self : DistributedLock) (now : Timestamp) (backend : B)
  : DistributedLock * B :=
  if negb (_locked self) then (self, backend)
  else
    let '(current_value, backend1) := Base.get (name self) now backend in
    if value_eqb current_value (PyStr (identifier self)) then
      let '(_, backend2) := Base.delete (name self) backend1 in
      (with_locked self false, backend2)
    else (self, backend1).

End OverBackend.
End Lock.

(** ** Call sequences on the memory engine

    A history of calls on one [MemoryBackend], the keys each call touches
    (writes, or reads with a hit), and the log of touches of a history. *)

Module History.

Inductive Call : Type :=
| CGet (key : CacheKey) (now : Timestamp)
| CExists (key : CacheKey) (now : Timestamp)
| CSet (key : CacheKey) (value : CacheValue) (ttl : option Z) (ex nx : bool)
    (now : Timestamp)
| CDelete (key : CacheKey)
| CClear
| CGetMany (keys : list CacheKey) (now : Timestamp)
| CSetMany (mapping : list (CacheKey * CacheValue)) (ttl : option Z)
    (now : Timestamp)
| CCleanup (now : Timestamp).

(** The engine after the call. *)
Definition step (c : Call) (self : Memory.MemoryBackend)
  : outcome Memory.MemoryBackend :=
  match c with
  | CGet key now => Return (snd (Memory.get key now self))
  | CExists key now => Return (snd (Memory.exists_ key now self))
  | CSet key value ttl ex nx now =>
      r <- Memory.set key value ttl ex nx now self ;; Return (snd r)
  | CDelete key => Return (snd (Memory.delete key self))
  | CClear => Return (Memory.clear self)
  | CGetMany keys now => Return (snd (Memory.get_many keys now self))
  | CSetMany mapping ttl now => Memory.set_many mapping ttl now self
  | CCleanup now => Return (Memory._cleanup_expired now self)
  end.

(** A stored, unexpired entry for [key]: what a read hits. *)
Definition hit (key : CacheKey) (now : Timestamp) (self : Memory.MemoryBackend)
  : bool :=
  match OrderedDict.getitem key (Memory._cache self) with
  | Some (_, expires_at) => negb (Memory.is_expired now expires_at)
  | None => false
  end.

(** The keys the call touches, in the order it touches them. *)
Definition touches (c : Call) (self : Memory.MemoryBackend) : list CacheKey :=
  match c with
  | CGet key now | CExists key now => if hit key now self then [key] else []
  | CSet key value ttl ex nx now =>
      match Memory.set key value ttl ex nx now self with
      | Return (true, _) => [key]
      | _ => []
      end
  | CGetMany keys now => filter (fun k => hit k now self) keys
  | CSetMany mapping ttl now =>
      if Memory._max_size self =? 0 then [] else map fst mapping
  | CDelete _ | CClear | CCleanup _ => []
  end.

(** Running a history: the final engine and the log of touches. *)
Fixpoint run (calls : list Call) (self : Memory.MemoryBackend)
  : outcome (list CacheKey * Memory.MemoryBackend) :=
  match calls with
  | [] => Return ([], self)
  | c :: rest =>
      self1 <- step c self ;;
      r <- run rest self1 ;;
      Return (touches c self ++ fst r, snd r)
  end.

(** The time to live of the call is an integer that a float can hold, so
    that [time.time() + ttl] does not raise [OverflowError]. *)
Definition ttl_converts (c : Call) : bool :=
  match c with
  | CSet _ _ ttl _ _ now | CSetMany _ ttl now =>
      match expiry now ttl with
      | Return _ => true
      | Raise _ => false
      end
  | _ => true
  end.

(** In [log], the last touch of [a] comes before the last touch of [b]. *)
Definition touched_before (log : list CacheKey) (a b : CacheKey) : Prop :=
  exists l1 l2, log = l1 ++ b :: l2 /\ In a l1 /\ ~ In a (b :: l2).

End History.

(** ** Callers of the engines

    The manager ([manager.py]), the caching decorator ([decorators.py]) and
    the invalidator ([invalidation.py]) call the engines through the
    manager, which hands every call on unchanged.  A function that makes
    several backend calls takes one clock reading for each call that reads
    the clock. *)

(** What a caller can raise: an exception of the backend, or its own
    [ValueError]. *)
Inductive CallerError : Type :=
| BackendError (e : Exception)
| ValueError.

Inductive result (A : Type) : Type :=
| Success (a : A)
| Failure (e : CallerError).

Arguments Success {A} a.
Arguments Failure {A} e.

(** [hasattr(backend, "_cache")] and the attribute itself. *)
Class HasCache (B : Type) : Type := {
  _cache_attr : B -> option (OrderedDict.t Memory.entry)
}.

#[export] Instance MemoryHasCache : HasCache Memory.MemoryBackend := {
  _cache_attr := fun self => Some (Memory._cache self)
}.

#[export] Instance FileHasCache : HasCache File.FileBackend := {
  _cache_attr := fun _ => None
}.

(** The scanning and clearing methods of an engine. *)
Class KeySpace (B : Type) : Type := {
  keys : string -> Z -> Z -> option Z -> Timestamp -> B -> outcome KeysPage;
  clear : B -> B
}.

Definition MemoryKeySpace (fnmatch : string -> string -> bool)
  : KeySpace Memory.MemoryBackend := {|
  keys := fun pattern cursor count max_keys _ self =>
            Memory.keys fnmatch pattern cursor count max_keys self;
  clear := Memory.clear
|}.

Definition FileKeySpace (fnmatch : string -> string -> bool)
  : KeySpace File.FileBackend := {|
  keys := File.keys fnmatch;
  clear := File.clear
|}.

Module Manager.
Section OverBackend.
Context {B : Type} `{Base.BaseBackend B} `{HasCache B}.

(** [get_or_set]; the boolean tells whether [default_factory] was called. *)
Definition get_or_set (key : CacheKey) (default_factory : unit -> CacheValue)
  (ttl : option Z) (ex nx : bool) (t_get t_set : Timestamp) (backend : B)
  : result (CacheValue * bool) * B :=
  let '(value, backend1) := Base.get key t_get backend in
  if negb (is_none value) then (Success (value, false), backend1)
  else
    let value := default_factory tt in
    match Base.set key value ttl ex nx t_set backend1 with
    | Raise e => (Failure (BackendError e), backend1)
    | Return (_, backend2) => (Success (value, true), backend2)
    end.

(** [isinstance(current, int)] and the integer; a [bool] is an [int]. *)
Definition as_int (v : CacheValue) : option Z :=
  match v with
  | PyInt z => Some z
  | PyBool b => Some (if b then 1 else 0)
  | _ => None
  end.

Definition increment (key : CacheKey) (delta : Z) (t_get t_set : Timestamp)
  (backend : B) : result Z * B :=
  let '(current, backend1) := Base.get key t_get backend in
  let current := if is_none current then PyInt 0 else current in
  match as_int current with
  | None => (Failure ValueError, backend1)
  | Some n =>
      let new_value := n + delta in
      match Base.set key (PyInt new_value) None false false t_set backend1 with
      | Raise e => (Failure (BackendError e), backend1)
      | Return (_, backend2) => (Success new_value, backend2)
      end
  end.

Definition decrement (key : CacheKey) (delta : Z) (t_get t_set : Timestamp)
  (backend : B) : result Z * B :=
  increment key (- delta) t_get t_set backend.

(** [ttl]: [None] unless the backend has a [_cache] whose entry for the key
    has more than a truncated zero seconds left. *)
Definition ttl (key : CacheKey) (t_exists now : Timestamp) (backend : B)
  : option Z * B :=
  let '(found, backend1) := Base.exists_ key t_exists backend in
  if negb found then (None, backend1)
  else
    match _cache_attr backend1 with
    | Some cache =>
        match OrderedDict.getitem key cache with
        | None => (None, backend1)
        | Some (_, None) => (None, backend1)
        | Some (_, Some expires_at) =>
            let remaining := py_int (float_sub expires_at now) in
            (if remaining >? 0 then Some remaining else None, backend1)
        end
    | None => (None, backend1)
    end.

(** [__len__] *)
Definition len_ (backend : B) : Z :=
  match _cache_attr backend with
  | Some cache => Z.of_nat (length cache)
  | None => 0
  end.

End OverBackend.
End Manager.

Module Decorators.
Section OverBackend.
Context {B : Type} `{Base.BaseBackend B}.

(** The [wrapper] of the [cache] decorator for one call: [built_key] is
    what [key_builder(func, args, kwargs)] returns and [func] the call of
    the wrapped function on these arguments; the boolean tells whether it
    was executed. *)
Definition wrapper (key_prefix built_key : string) (func : unit -> CacheValue)
  (ttl : option Z) (t_get t_set : Timestamp) (backend : B)
  : result (CacheValue * bool) * B :=
  let cache_key := (key_prefix ++ built_key)%string in
  let '(cached_value, backend1) := Base.get cache_key t_get backend in
  if negb (is_none cached_value) then (Success (cached_value, false), backend1)
  else
    let r := func tt in
    if negb (is_none r) then
      match Base.set cache_key r ttl false false t_set backend1 with
      | Raise e => (Failure (BackendError e), backend1)
      | Return (_, backend2) => (Success (r, true), backend2)
      end
    else (Success (r, true), backend1).

End OverBackend.
End Decorators.

Module Invalidator.

(** The [details] argument of a log entry. *)
Inductive Details : Type :=
| DKeys (batch_keys : list CacheKey)
| DPattern (pattern : string) (matched_keys : Z)
| DAll (total_keys : Z)
| DAllCleared.

Record LogEntry : Type := mkLogEntry {
  timestamp : Timestamp;
  method : string;
  details : Details;
  invalidated_count : Z
}.

Record CacheInvalidator : Type := mkInvalidator {
  batch_size : Z;
  enable_distributed : bool;
  _invalidation_log : list LogEntry;
  _last_invalidation_time : Timestamp
}.

(** [_log_invalidation]: append, then drop the oldest entry beyond 100. *)
Definition _log_invalidation (now : Timestamp) (method : string) (details : Details)
  (count : Z) (self : CacheInvalidator) : CacheInvalidator :=
  let log := _invalidation_log self ++ [mkLogEntry now method details count] in
  let log := if Z.of_nat (length log) >? 100 then tl log else log in
  mkInvalidator (batch_size self) (enable_distributed self) log
    (_last_invalidation_time self).

(** [range(0, stop, step)] for a step other than 0. *)
Definition py_range0 (stop step : Z) : list Z :=
  if step >? 0
  then map (fun j => Z.of_nat j * step) (seq 0 (Z.to_nat ((stop + step - 1) / step)))
  else [].

(** How a scanning loop ends: with the keys of all its pages, or with the
    exception of a call of [keys] and the keys collected before it. *)
Inductive Scan : Type :=
| Collected (all_keys : list CacheKey)
| Interrupted (e : Exception) (all_keys : list CacheKey).

Section OverBackend.
Context {B : Type} `{Base.BaseBackend B} `{KeySpace B}.

(** One turn of the loop of [invalidate_keys]. *)
Definition invalidate_batch (keys : list CacheKey) (size : Z) (now : Timestamp)
  (acc : Z * CacheInvalidator * B) (i : Z) : Z * CacheInvalidator * B :=
  let '(total_invalidated, self, backend) := acc in
  let batch_keys := py_slice keys i (i + size) in
  let '(count, backend1) := Base.delete_many batch_keys backend in
  (total_invalidated + count,
   _log_invalidation now "keys" (DKeys batch_keys) count self,
   backend1).

Definition invalidate_keys (keys : list CacheKey) (size : option Z)
  (now : Timestamp) (self : CacheInvalidator) (backend : B)
  : result Z * CacheInvalidator * B :=
  match keys with
  | [] => (Success 0, self, backend)
  | _ =>
      let size := match size with Some b => b | None => batch_size self end in
      if size =? 0 then (Failure ValueError, self, backend)
      else
        let '(total, self1, backend1) :=
          fold_left (invalidate_batch keys size now)
            (py_range0 (Z.of_nat (length keys)) size) (0, self, backend) in
        (Success total,
         mkInvalidator (batch_size self1) (enable_distributed self1)
           (_invalidation_log self1) now,
         backend1)
  end.

(** The scanning loop of [invalidate_all]: pages of 100 keys from cursor 0
    until a page has [has_more] false.  [clock] holds the readings of the
    clock of the successive calls of [keys]; the result is [None] when the
    readings run out before that page. *)
Fixpoint scan_all (clock : list Timestamp) (backend : B) (cursor : Z)
  (all_keys : list CacheKey) : option Scan :=
  match clock with
  | [] => None
  | now :: later =>
      match keys "*" cursor 100 None now backend with
      | Raise e => Some (Interrupted e all_keys)
      | Return page =>
          let all_keys := all_keys ++ page_keys page in
          if negb (has_more page) then Some (Collected all_keys)
          else scan_all later backend (page_cursor page) all_keys
      end
  end.

(** The scanning loop of [invalidate_pattern], which also stops once
    [max_keys] keys are collected. *)
Fixpoint scan_pattern (clock : list Timestamp) (pattern : string)
  (max_keys : option Z) (backend : B) (cursor : Z) (all_keys : list CacheKey)
  : option Scan :=
  match clock with
  | [] => None
  | now :: later =>
      match keys pattern cursor 100 None now backend with
      | Raise e => Some (Interrupted e all_keys)
      | Return page =>
          let all_keys := all_keys ++ page_keys page in
          let enough :=
            match max_keys with
            | Some m => negb (m =? 0) && (Z.of_nat (length all_keys) >=? m)
            | None => false
            end in
          if negb (has_more page) || enough then Some (Collected all_keys)
          else scan_pattern later pattern max_keys backend (page_cursor page) all_keys
      end
  end.

(** [invalidate_pattern]; an exception of the scan is not caught. *)
Definition invalidate_pattern (clock : list Timestamp) (pattern : string)
  (max_keys : option Z) (now : Timestamp) (self : CacheInvalidator) (backend : B)
  : option (result Z * CacheInvalidator * B) :=
  match scan_pattern clock pattern max_keys backend 0 [] with
  | None => None
  | Some (Interrupted e _) => Some (Failure (BackendError e), self, backend)
  | Some (Collected scanned) =>
      let all_keys :=
        match max_keys with
        | Some m => if m =? 0 then scanned else py_slice scanned 0 m
        | None => scanned
        end in
      match invalidate_keys all_keys None now self backend with
      | (Success invalidated_count, self1, backend1) =>
          Some (Success invalidated_count,
                _log_invalidation now "pattern"
                  (DPattern pattern (Z.of_nat (length all_keys))) invalidated_count self1,
                backend1)
      | (Failure e, self1, backend1) => Some (Failure e, self1, backend1)
      end
  end.

(** [invalidate_all]: an exception of the scan or of [invalidate_keys]
    falls back to [clear] and reports the keys collected so far. *)
Definition invalidate_all (clock : list Timestamp) (now : Timestamp)
  (self : CacheInvalidator) (backend : B) : option (Z * CacheInvalidator * B) :=
  match scan_all clock backend 0 [] with
  | None => None
  | Some (Interrupted _ all_keys) =>
      let n := Z.of_nat (length all_keys) in
      Some (n, _log_invalidation now "all" DAllCleared n self, clear backend)
  | Some (Collected all_keys) =>
      match invalidate_keys all_keys None now self backend with
      | (Success invalidated_count, self1, backend1) =>
          Some (invalidated_count,
                _log_invalidation now "all" (DAll (Z.of_nat (length all_keys)))
                  invalidated_count self1,
                backend1)
      | (Failure _, self1, backend1) =>
          let n := Z.of_nat (length all_keys) in
          Some (n, _log_invalidation now "all" DAllCleared n self1, clear backend1)
      end
  end.

End OverBackend.
End Invalidator.

(** ** Vocabulary of the statements *)


(** [l1] is [l2] with some elements left out, the order kept. *)
Inductive Subseq {A : Type} : list A -> list A -> Prop :=
| Subseq_nil : Subseq [] []
| Subseq_skip (x : A) (l1 l2 : list A) : Subseq l1 l2 -> Subseq l1 (x :: l2)
| Subseq_keep (x : A) (l1 l2 : list A) : Subseq l1 l2 -> Subseq (x :: l1) (x :: l2).

(** [a] stands before an occurrence of [b] in [l]. *)
Definition before {A : Type} (l : list A) (a b : A) : Prop :=
  exists l1 l2, l = l1 ++ a :: l2 /\ In b l2.

Definition remove_key (k : CacheKey) (l : list CacheKey) : list CacheKey :=
  filter (fun x => negb (Key.eqb k x)) l.

(** A touch moves the key to the end of the recency order. *)
Definition touch (l : list CacheKey) (k : CacheKey) : list CacheKey :=
  remove_key k l ++ [k].

(** The keys of a log of touches, least recently touched first. *)
Definition lru_order (log : list CacheKey) : list CacheKey :=
  fold_left touch log [].

(** The map of the engine is a sublist of [order], a recency order. *)
Definition recency_ok (order : list CacheKey) (self : Memory.MemoryBackend) : Prop :=
  Subseq (OrderedDict.keys (Memory._cache self)) order.

(** The map is a dictionary within the capacity of the engine. *)
Definition Memory_wf (self : Memory.MemoryBackend) : Prop :=
  NoDup (OrderedDict.keys (Memory._cache self)) /\
  0 <= Memory._max_size self /\
  Memory.len_ self <= Memory._max_size self.

(** The keys a scan of the memory engine matches against [pattern]. *)
Definition Memory_matched (fnmatch : string -> string -> bool) (pattern : string)
  (self : Memory.MemoryBackend) : outcome (list CacheKey) :=
  if String.eqb pattern "*" then Return (OrderedDict.keys (Memory._cache self))
  else fnmatch_filter fnmatch pattern (OrderedDict.keys (Memory._cache self)).

(** The keys a scan of the file engine matches at the reading [now]. *)
Definition File_matched (fnmatch : string -> string -> bool) (pattern : string)
  (now : Timestamp) (self : File.FileBackend) : outcome (list CacheKey) :=
  let live :=
    map File.fetch_key
      (File.order_by_key
         (map File.key
            (filter (fun r => File.sql_live now (File.expires_at r))
               (File.cache_entries self)))) in
  if String.eqb pattern "*" then Return live else fnmatch_filter fnmatch pattern live.

(** At each reading of [clock] the pages of an engine are windows of
    [count] keys of the one list [l]. *)
Definition pages_of {B : Type} `{KeySpace B} (pattern : string) (count : Z)
  (clock : list Timestamp) (backend : B) (l : list CacheKey) : Prop :=
  forall now cursor,
    In now clock ->
    0 <= cursor ->
    exists page,
      keys pattern cursor count None now backend = Return page /\
      page_keys page = firstn (Z.to_nat count) (skipn (Z.to_nat cursor) l) /\
      has_more page = (cursor + count <? Z.of_nat (length l)) /\
      (has_more page = true -> page_cursor page = cursor + count).

(** The key reaches the table of the file engine as [get] and [delete]
    look it up: every [str], and every [int] of 64 bits. *)
Definition File_key_ok (k : CacheKey) : Prop :=
  File.bind_key k = Return (File.bind_str k).

(** ** Proof automation *)

Create HintDb lru discriminated.
#[local] Hint Constructors Subseq : lru.

(** [(a =? b) = false] from a hypothesis [a <> b] or [b <> a]. *)
Ltac eqb_false H :=
  match goal with
  | |- Key.eqb ?a ?b = false =>
      destruct (Key.eqb_spec a b) as [?E | ?E];
      [exfalso; first [exact (H E) | apply H; congruence] | reflexivity]
  end.

(** Evaluates one call on a map whose keys are variables, given the
    comparisons of the keys as hypotheses. *)
Ltac crunch :=
  unfold Memory.set, Memory.get, OrderedDict.move_to_end;
  repeat (simpl;
          repeat match goal with
                 | H : Key.eqb _ _ = false |- _ => rewrite H
                 end;
          repeat match goal with
                 | |- context [Key.eqb ?a ?a] =>
                     destruct (Key.eqb_spec a a) as [_ | ?E]; [| now elim E]
                 end);
  reflexivity.

(** Splits on the float sum of a write in hypothesis [H]; the case of an
    [OverflowError] is closed when [H] says that the write returned. *)
Ltac expiry_in H :=
  match type of H with
  | context [expiry ?now ?ttl] =>
      let exp := fresh "expires_at" in
      let err := fresh "err" in
      destruct (expiry now ttl) as [exp | err]; cbn [bind] in H; [| discriminate H]
  end.

(** * Properties *)

(** ** Key comparisons *)

Lemma Key_eqb_eq (a b : CacheKey) : Key.eqb a b = true <-> a = b.
Proof. destruct (Key.eqb_spec a b); split; congruence. Qed.

Lemma Key_eqb_neq (a b : CacheKey) : Key.eqb a b = false <-> a <> b.
Proof. destruct (Key.eqb_spec a b); split; congruence. Qed.

Lemma Key_eqb_sym (a b : CacheKey) : Key.eqb a b = Key.eqb b a.
Proof.
  destruct (Key.eqb_spec a b) as [Heq | Hne], (Key.eqb_spec b a) as [Heq' | Hne'];
    congruence.
Qed.

Lemma Key_eqb_refl (a : CacheKey) : Key.eqb a a = true.
Proof. now apply Key_eqb_eq. Qed.

Lemma sql_eqb_eq (a b : File.SqlKey) : File.sql_eqb a b = true <-> a = b.
Proof.
  destruct a as [x | x], b as [y | y]; simpl; try (split; discriminate);
    rewrite String.eqb_eq; split; congruence.
Qed.

Lemma sql_eqb_neq (a b : File.SqlKey) : File.sql_eqb a b = false <-> a <> b.
Proof.
  rewrite <- sql_eqb_eq. destruct (File.sql_eqb a b); split; congruence.
Qed.

Lemma sql_eqb_refl (a : File.SqlKey) : File.sql_eqb a a = true.
Proof. now apply sql_eqb_eq. Qed.

Lemma File_key_ok_str (s : string) : File_key_ok (KStr s).
Proof. reflexivity. Qed.

Lemma File_key_ok_int (z : Z) : - 2 ^ 63 <= z <= 2 ^ 63 - 1 -> File_key_ok (KInt z).
Proof.
  intros [Hlo Hhi]. unfold File_key_ok, File.bind_key.
  assert (((- 2 ^ 63 <=? z) && (z <=? 2 ^ 63 - 1)) = true) as ->; [| reflexivity].
  apply andb_true_iff. split; now apply Z.leb_le.
Qed.

(** ** Clock comparisons *)

Lemma Qgt_bool_true (a b : Q) : Qgt_bool a b = true <-> (b < a)%Q.
Proof.
  unfold Qgt_bool. rewrite negb_true_iff.
  split; intro Hab.
  - destruct (Qlt_le_dec b a) as [Hlt | Hle]; [exact Hlt |].
    apply Qle_bool_iff in Hle. congruence.
  - destruct (Qle_bool a b) eqn:E; [| reflexivity].
    apply Qle_bool_iff in E. lra.
Qed.

Lemma Qgt_bool_false (a b : Q) : Qgt_bool a b = false <-> (a <= b)%Q.
Proof.
  unfold Qgt_bool. rewrite negb_false_iff. apply Qle_bool_iff.
Qed.

(** ** Rounding *)

Lemma rne_nonneg (n : Z) (d : positive) : 0 <= n -> 0 <= rne n d.
Proof.
  intro Hn. unfold rne.
  assert (0 <= n / Zpos d) by (apply Z.div_pos; lia).
  destruct (2 * (n mod Zpos d) ?= Zpos d); [destruct (Z.even _) | |]; lia.
Qed.

Lemma round53_pos_nonneg (n d : positive) : (0 <= round53_pos n d)%Q.
Proof.
  unfold round53_pos. destruct (0 <=? ilog2 n d - 52) eqn:He.
  - apply Z.leb_le in He. unfold Qle, inject_Z. cbn [Qnum Qden].
    rewrite Z.mul_0_l, Z.mul_1_r.
    apply Z.mul_nonneg_nonneg; [apply rne_nonneg; lia |].
    apply Z.pow_nonneg. lia.
  - unfold Qle. cbn [Qnum Qden]. rewrite Z.mul_0_l, Z.mul_1_r. apply rne_nonneg.
    apply Z.mul_nonneg_nonneg; [lia |]. apply Z.pow_nonneg. lia.
Qed.

(** Rounding keeps the sign. *)
Lemma round53_nonneg (x : Q) : (0 <= x)%Q -> (0 <= round53 x)%Q.
Proof.
  intro Hx. unfold round53. rewrite Qred_correct.
  destruct x as [[| n | n] d]; simpl.
  - apply Qle_refl.
  - apply round53_pos_nonneg.
  - unfold Qle in Hx. simpl in Hx. lia.
Qed.

Lemma round53_nonpos (x : Q) : (x <= 0)%Q -> (round53 x <= 0)%Q.
Proof.
  intro Hx. unfold round53. rewrite Qred_correct.
  destruct x as [[| n | n] d]; simpl.
  - apply Qle_refl.
  - unfold Qle in Hx. simpl in Hx. lia.
  - pose proof (round53_pos_nonneg n d). lra.
Qed.


Lemma ilog2_lower (n d : positive) : pow2_le (ilog2 n d) n d.
Proof.
  unfold pow2_le, ilog2.
  destruct (Z.log2_spec (Zpos n) ltac:(lia)) as [Hn1 Hn2].
  destruct (Z.log2_spec (Zpos d) ltac:(lia)) as [Hd1 Hd2].
  pose proof (Z.log2_nonneg (Zpos n)) as Hln.
  pose proof (Z.log2_nonneg (Zpos d)) as Hld.
  set (ln := Z.log2 (Zpos n)) in *. set (ld := Z.log2 (Zpos d)) in *.
  rewrite Z.pow_succ_r in Hn2, Hd2 by lia.
  cbv zeta.
  destruct (0 <=? ln - ld) eqn:Hk.
  - apply Z.leb_le in Hk.
    destruct (Zpos d * 2 ^ (ln - ld) <=? Zpos n) eqn:Ht.
    + apply Z.leb_le in Ht. rewrite Z.max_l, Z.max_r by lia. rewrite Z.pow_0_r, Z.mul_1_r. lia.
    + destruct (Z.eq_dec (ln - ld) 0) as [Hz | Hnz].
      * rewrite Hz. change (Z.max (0 - 1) 0) with 0. change (Z.max (- (0 - 1)) 0) with 1.
        rewrite Z.pow_0_r, Z.pow_1_r. replace ln with ld in * by lia. lia.
      * rewrite Z.max_l, Z.max_r by lia. rewrite Z.pow_0_r, Z.mul_1_r.
        assert (Hpow : 2 ^ ln = 2 ^ ld * 2 * 2 ^ (ln - ld - 1)).
        { replace ln with (ld + 1 + (ln - ld - 1)) at 1 by lia.
          rewrite !Z.pow_add_r by lia. now rewrite Z.pow_1_r. }
        assert (0 < 2 ^ (ln - ld - 1)) by (apply Z.pow_pos_nonneg; lia).
        nia.
  - apply Z.leb_gt in Hk.
    destruct (Zpos d <=? Zpos n * 2 ^ (- (ln - ld))) eqn:Ht.
    + apply Z.leb_le in Ht. rewrite Z.max_r, Z.max_l by lia. rewrite Z.pow_0_r, Z.mul_1_r. lia.
    + rewrite Z.max_r, Z.max_l by lia. rewrite Z.pow_0_r, Z.mul_1_r.
      assert (Hpow : 2 ^ ld * 2 = 2 ^ ln * 2 ^ (- (ln - ld - 1))).
      { replace (- (ln - ld - 1)) with (ld - ln + 1) by lia.
        rewrite Z.pow_add_r, Z.pow_1_r by lia.
        replace ld with (ln + (ld - ln)) at 1 by lia.
        rewrite Z.pow_add_r by lia. ring. }
      assert (0 < 2 ^ (- (ln - ld - 1))) by (apply Z.pow_pos_nonneg; lia).
      nia.
Qed.



Lemma pow2_le_down (l l' : Z) (n d : positive) :
  l' <= l -> pow2_le l n d -> pow2_le l' n d.
Proof.
  unfold pow2_le. intros Hle H.
  assert (Hmono : forall a b, 0 <= a <= b -> 2 ^ a <= 2 ^ b)
    by (intros a b Hab; apply Z.pow_le_mono_r; lia).
  assert (Hpos : forall a, 0 <= a -> 0 < 2 ^ a)
    by (intros a Ha; apply Z.pow_pos_nonneg; lia).
  pose proof (Hmono (Z.max l' 0) (Z.max l 0) ltac:(lia)) as H1.
  pose proof (Hmono (Z.max (- l) 0) (Z.max (- l') 0) ltac:(lia)) as H2.
  pose proof (Hpos (Z.max l' 0) ltac:(lia)).
  pose proof (Hpos (Z.max (- l) 0) ltac:(lia)).
  nia.
Qed.

Lemma ilog2_upper (n d : positive) : ~ pow2_le (ilog2 n d + 1) n d.
Proof.
  unfold pow2_le, ilog2.
  destruct (Z.log2_spec (Zpos n) ltac:(lia)) as [Hn1 Hn2].
  destruct (Z.log2_spec (Zpos d) ltac:(lia)) as [Hd1 Hd2].
  pose proof (Z.log2_nonneg (Zpos n)) as Hln.
  pose proof (Z.log2_nonneg (Zpos d)) as Hld.
  set (ln := Z.log2 (Zpos n)) in *. set (ld := Z.log2 (Zpos d)) in *.
  rewrite Z.pow_succ_r in Hn2, Hd2 by lia.
  cbv zeta.
  destruct (0 <=? ln - ld) eqn:Hk.
  - apply Z.leb_le in Hk.
    destruct (Zpos d * 2 ^ (ln - ld) <=? Zpos n) eqn:Ht.
    + rewrite Z.max_l, Z.max_r by lia. rewrite Z.pow_0_r, Z.mul_1_r.
      assert (Hpow : 2 ^ ld * 2 ^ (ln - ld + 1) = 2 * 2 ^ ln).
      { rewrite <- Z.pow_add_r, <- Z.pow_succ_r by lia. f_equal. lia. }
      assert (0 < 2 ^ (ln - ld + 1)) by (apply Z.pow_pos_nonneg; lia).
      nia.
    + apply Z.leb_gt in Ht. replace (ln - ld - 1 + 1) with (ln - ld) by lia.
      rewrite Z.max_l, Z.max_r by lia. rewrite Z.pow_0_r, Z.mul_1_r. lia.
  - apply Z.leb_gt in Hk.
    destruct (Zpos d <=? Zpos n * 2 ^ (- (ln - ld))) eqn:Ht.
    + rewrite Z.max_r by lia. rewrite Z.pow_0_r, Z.mul_1_r.
      rewrite Z.max_l by lia.
      assert (Hpow : 2 ^ ln * 2 * 2 ^ (- (ln - ld + 1)) = 2 ^ ld).
      { replace ld with (ln + 1 + (- (ln - ld + 1))) at 2 by lia.
        rewrite !Z.pow_add_r by lia. now rewrite Z.pow_1_r. }
      assert (0 < 2 ^ (- (ln - ld + 1))) by (apply Z.pow_pos_nonneg; lia).
      nia.
    + apply Z.leb_gt in Ht. replace (ln - ld - 1 + 1) with (ln - ld) by lia.
      rewrite Z.max_r, Z.max_l by lia. rewrite Z.pow_0_r, Z.mul_1_r. lia.
Qed.

(** The exponent is the one of the binade of [n / d]. *)
Lemma ilog2_unique (n d : positive) (l : Z) :
  pow2_le l n d -> ~ pow2_le (l + 1) n d -> ilog2 n d = l.
Proof.
  intros Hlo Hhi.
  pose proof (ilog2_lower n d) as Hlo'.
  pose proof (ilog2_upper n d) as Hhi'.
  destruct (Z.lt_trichotomy (ilog2 n d) l) as [Hlt | [Heq | Hgt]]; [| exact Heq |].
  - exfalso. apply Hhi'. apply (pow2_le_down l); [lia | exact Hlo].
  - exfalso. apply Hhi. apply (pow2_le_down (ilog2 n d)); [lia | exact Hlo'].
Qed.

(** A number with a significand of 53 bits is its own rounding. *)
Lemma round53_exact (x : Q) (m s : Z) :
  2 ^ 52 <= m < 2 ^ 53 -> 0 < s <= 52 ->
  (x == m # Z.to_pos (2 ^ s))%Q ->
  (round53 x == x)%Q.
Proof.
  intros Hm Hs Hx. unfold round53. rewrite Qred_correct.
  assert (Hp : 0 < 2 ^ s) by (apply Z.pow_pos_nonneg; lia).
  destruct x as [[| n | n] d]; unfold Qeq in Hx; cbn [Qnum Qden] in *;
    rewrite Z2Pos.id in Hx by exact Hp.
  - change (2 ^ 52) with 4503599627370496 in Hm. lia.
  - assert (HL : ilog2 n d = 52 - s).
    { assert (H52 : 2 ^ 52 = 2 ^ (52 - s) * 2 ^ s).
      { rewrite <- Z.pow_add_r by lia. f_equal. lia. }
      assert (H53 : 2 ^ 53 = 2 ^ (52 - s + 1) * 2 ^ s).
      { rewrite <- Z.pow_add_r by lia. f_equal. lia. }
      assert (0 < 2 ^ (52 - s)) by (apply Z.pow_pos_nonneg; lia).
      assert (0 < 2 ^ (52 - s + 1)) by (apply Z.pow_pos_nonneg; lia).
      apply ilog2_unique; unfold pow2_le.
      - rewrite Z.max_l, Z.max_r by lia. rewrite Z.pow_0_r, Z.mul_1_r. nia.
      - rewrite Z.max_l, Z.max_r by lia. rewrite Z.pow_0_r, Z.mul_1_r. nia. }
    unfold round53_pos. rewrite HL.
    assert ((0 <=? 52 - s - 52) = false) as -> by lia.
    replace (- (52 - s - 52)) with s by lia. rewrite Hx.
    assert (Hr : rne (m * Zpos d) d = m).
    { unfold rne. rewrite Z.mod_mul, Z.div_mul by lia. reflexivity. }
    rewrite Hr. unfold Qeq. cbn [Qnum Qden]. rewrite Z2Pos.id by exact Hp. lia.
  - change (2 ^ 52) with 4503599627370496 in Hm.
    assert (0 < m * Zpos d) by nia. lia.
Qed.


(** A write with a time to live stores the float sum as the expiry. *)
Lemma expiry_Some now seconds e :
  expiry now (Some seconds) = Return e ->
  exists t, add_seconds now seconds = Return t /\ e = Some t.
Proof.
  unfold expiry. destruct (add_seconds now seconds) as [t | err]; [| discriminate].
  simpl. intro He. injection He as <-. now exists t.
Qed.

Lemma expiry_None now e : expiry now None = Return e -> e = None.
Proof. simpl. congruence. Qed.

Lemma inject_Z_pos (z : Z) : 0 < z -> (0 < inject_Z z)%Q.
Proof.
  intro Hz. unfold Qlt, inject_Z. simpl. lia.
Qed.

(** ** [OrderedDict] *)

Section OrderedDictFacts.
Context {V : Type}.
Implicit Types (d : OrderedDict.t V) (k : CacheKey) (v : V).

Lemma contains_getitem k d :
  OrderedDict.contains k d = match OrderedDict.getitem k d with Some _ => true | None => false end.
Proof.
  induction d as [| [k' v'] d IH]; simpl; [reflexivity |].
  destruct (Key.eqb k k'); [reflexivity | exact IH].
Qed.

Lemma getitem_app k d1 d2 :
  OrderedDict.getitem k (d1 ++ d2) =
  match OrderedDict.getitem k d1 with
  | Some v => Some v
  | None => OrderedDict.getitem k d2
  end.
Proof.
  induction d1 as [| [k' v'] d1 IH]; simpl; [reflexivity |].
  destruct (Key.eqb k k'); [reflexivity | exact IH].
Qed.

Lemma getitem_delitem_same k d :
  OrderedDict.getitem k (OrderedDict.delitem k d) = None.
Proof.
  induction d as [| [k' v'] d IH]; simpl; [reflexivity |].
  destruct (Key.eqb k k') eqn:E; [exact IH |].
  simpl. rewrite E. exact IH.
Qed.

Lemma getitem_delitem_other k k' d :
  k <> k' ->
  OrderedDict.getitem k' (OrderedDict.delitem k d) = OrderedDict.getitem k' d.
Proof.
  intro Hne.
  induction d as [| [k0 v0] d IH]; simpl; [reflexivity |].
  destruct (Key.eqb k k0) eqn:E.
  - apply Key_eqb_eq in E. subst k0.
    assert (Key.eqb k' k = false) as -> by (apply Key_eqb_neq; congruence).
    exact IH.
  - simpl. destruct (Key.eqb k' k0); [reflexivity | exact IH].
Qed.

Lemma getitem_setitem_same k v d :
  OrderedDict.getitem k (OrderedDict.setitem k v d) = Some v.
Proof.
  induction d as [| [k' v'] d IH]; simpl.
  - now rewrite Key_eqb_refl.
  - destruct (Key.eqb k k') eqn:E; simpl; rewrite E; [reflexivity | exact IH].
Qed.

Lemma getitem_setitem_other k k' v d :
  k <> k' ->
  OrderedDict.getitem k' (OrderedDict.setitem k v d) = OrderedDict.getitem k' d.
Proof.
  intro Hne.
  induction d as [| [k0 v0] d IH]; simpl.
  - assert (Key.eqb k' k = false) as -> by (apply Key_eqb_neq; congruence).
    reflexivity.
  - destruct (Key.eqb k k0) eqn:E; simpl.
    + apply Key_eqb_eq in E. subst k0.
      assert (Key.eqb k' k = false) as -> by (apply Key_eqb_neq; congruence).
      reflexivity.
    + destruct (Key.eqb k' k0); [reflexivity | exact IH].
Qed.

Lemma getitem_move_to_end k k' d :
  OrderedDict.getitem k' (OrderedDict.move_to_end k d) = OrderedDict.getitem k' d.
Proof.
  unfold OrderedDict.move_to_end.
  destruct (OrderedDict.getitem k d) as [v |] eqn:Hk; [| reflexivity].
  rewrite getitem_app.
  destruct (Key.eqb k' k) eqn:E.
  - apply Key_eqb_eq in E. subst k'.
    rewrite getitem_delitem_same. simpl. rewrite Key_eqb_refl. now rewrite Hk.
  - apply Key_eqb_neq in E.
    rewrite getitem_delitem_other by congruence.
    destruct (OrderedDict.getitem k' d); [reflexivity |].
    simpl. apply Key_eqb_neq in E. now rewrite E.
Qed.

Lemma delitem_absent k d :
  OrderedDict.getitem k d = None -> OrderedDict.delitem k d = d.
Proof.
  induction d as [| [k' v'] d IH]; simpl; [reflexivity |].
  destruct (Key.eqb k k'); [discriminate |].
  intro Hd. now rewrite IH.
Qed.

Lemma setitem_absent k v d :
  OrderedDict.getitem k d = None -> OrderedDict.setitem k v d = d ++ [(k, v)].
Proof.
  induction d as [| [k' v'] d IH]; simpl; [reflexivity |].
  destruct (Key.eqb k k'); [discriminate |].
  intro Hd. now rewrite IH.
Qed.

Lemma delitem_setitem k v d :
  OrderedDict.delitem k (OrderedDict.setitem k v d) = OrderedDict.delitem k d.
Proof.
  induction d as [| [k' v'] d IH]; simpl.
  - now rewrite Key_eqb_refl.
  - destruct (Key.eqb k k') eqn:E; simpl; rewrite E; [reflexivity |].
    now rewrite IH.
Qed.

Lemma delitem_app k d1 d2 :
  OrderedDict.delitem k (d1 ++ d2) = OrderedDict.delitem k d1 ++ OrderedDict.delitem k d2.
Proof.
  induction d1 as [| [k' v'] d1 IH]; simpl; [reflexivity |].
  destruct (Key.eqb k k'); [exact IH | simpl; now rewrite IH].
Qed.

End OrderedDictFacts.

(** ** Memory engine: single-key reads and writes *)

Lemma Memory_get_hit key now self v e :
  OrderedDict.getitem key (Memory._cache self) = Some (v, e) ->
  Memory.is_expired now e = false ->
  fst (Memory.get key now self) = v.
Proof.
  intros Hk He. unfold Memory.get. now rewrite Hk, He.
Qed.

Lemma Memory_get_expired key now self v e :
  OrderedDict.getitem key (Memory._cache self) = Some (v, e) ->
  Memory.is_expired now e = true ->
  fst (Memory.get key now self) = PyNone.
Proof.
  intros Hk He. unfold Memory.get. now rewrite Hk, He.
Qed.

Lemma Memory_get_absent key now self :
  OrderedDict.getitem key (Memory._cache self) = None ->
  Memory.get key now self = (PyNone, self).
Proof.
  intros Hk. unfold Memory.get. now rewrite Hk.
Qed.


(** A write that is not refused by the [nx] test stores the entry. *)
Lemma Memory_set_writes key value ttl ex nx now self expires_at :
  0 < Memory._max_size self ->
  expiry now ttl = Return expires_at ->
  (nx = true ->
   forall v e, OrderedDict.getitem key (Memory._cache self) = Some (v, e) ->
               Memory.nx_blocks now e = false) ->
  exists self1,
    Memory.set key value ttl ex nx now self = Return (true, self1) /\
    OrderedDict.getitem key (Memory._cache self1) = Some (value, expires_at) /\
    Memory._max_size self1 = Memory._max_size self.
Proof.
  intros Hcap Hexp Hnx. unfold Memory.set.
  assert ((Memory._max_size self =? 0) = false) as -> by lia.
  rewrite contains_getitem, Hexp. cbn [bind].
  destruct (OrderedDict.getitem key (Memory._cache self)) as [[v e] |] eqn:Hk.
  - assert ((if nx && true then Memory.nx_blocks now e else false) = false) as ->.
    { destruct nx; simpl; [| reflexivity]. now apply (Hnx eq_refl v e). }
    eexists. split; [reflexivity |]. simpl.
    split; [apply getitem_setitem_same | reflexivity].
  - rewrite andb_false_r.
    destruct (Z.of_nat (length (Memory._cache self)) >=? Memory._max_size self) eqn:Hfull.
    + destruct (Memory._cache self) as [| kv rest] eqn:Hc.
      * simpl in Hfull. lia.
      * simpl. eexists. split; [reflexivity |]. simpl.
        split; [apply getitem_setitem_same | reflexivity].
    + eexists. split; [reflexivity |]. simpl.
      split; [apply getitem_setitem_same | reflexivity].
Qed.




(** ** File engine: single-key reads and writes *)

Lemma find_all_false {A : Type} (f : A -> bool) (l : list A) :
  (forall x, In x l -> f x = false) -> find f l = None.
Proof.
  induction l as [| x l IH]; simpl; intro Hall; [reflexivity |].
  rewrite (Hall x) by now left.
  apply IH. intros y Hy. apply Hall. now right.
Qed.

Lemma In_firstn {A : Type} (n : nat) (l : list A) (x : A) :
  In x (firstn n l) -> In x l.
Proof.
  intro Hx. rewrite <- (firstn_skipn n l). apply in_or_app. now left.
Qed.

Lemma In_skipn {A : Type} (n : nat) (l : list A) (x : A) :
  In x (skipn n l) -> In x l.
Proof.
  intro Hx. rewrite <- (firstn_skipn n l). apply in_or_app. now right.
Qed.


Lemma File_delete_key_keys k rows r :
  In r (File.delete_key k rows) -> File.key r <> k /\ In r rows.
Proof.
  unfold File.delete_key. intro Hin. apply filter_In in Hin as [Hin Hne].
  split; [| exact Hin].
  apply negb_true_iff, sql_eqb_neq in Hne. congruence.
Qed.

Lemma File_insert_by_access_In r x sorted :
  In x (File.insert_by_access r sorted) <-> x = r \/ In x sorted.
Proof.
  induction sorted as [| y sorted IH]; simpl.
  - intuition congruence.
  - destruct (Qle_bool (File.last_access r) (File.last_access y)); simpl.
    + intuition congruence.
    + rewrite IH. intuition congruence.
Qed.

Lemma File_order_In x rows :
  In x (File.order_by_last_access rows) <-> In x rows.
Proof.
  induction rows as [| r rows IH]; simpl; [reflexivity |].
  rewrite File_insert_by_access_In, IH. intuition congruence.
Qed.

Lemma File_insert_by_access_length r sorted :
  length (File.insert_by_access r sorted) = S (length sorted).
Proof.
  induction sorted as [| y sorted IH]; simpl; [reflexivity |].
  destruct (Qle_bool _ _); simpl; [reflexivity | now rewrite IH].
Qed.

Lemma File_order_length rows :
  length (File.order_by_last_access rows) = length rows.
Proof.
  induction rows as [| r rows IH]; simpl; [reflexivity |].
  now rewrite File_insert_by_access_length, IH.
Qed.




Lemma File_select_delete_same k rows :
  File.select_key k (File.delete_key k rows) = None.
Proof.
  apply find_all_false. intros r Hr.
  apply File_delete_key_keys in Hr as [Hne _].
  apply sql_eqb_neq. congruence.
Qed.



Lemma File_get_absent k now self :
  File.select_key (File.bind_str k) (File.cache_entries self) = None ->
  File.get k now self = (PyNone, self).
Proof.
  intros Hk. unfold File.get. cbv zeta. now rewrite Hk.
Qed.





Lemma filter_length_pos {A : Type} (p : A -> bool) (l : list A) (x : A) :
  In x l -> p x = true -> (Z.of_nat (length (filter p l)) >? 0) = true.
Proof.
  intros Hin Hp.
  assert (Hf : In x (filter p l)) by (apply filter_In; now split).
  destruct (filter p l); [contradiction |].
  apply Z.gtb_lt. simpl length. lia.
Qed.





(** ** Order-preserving sublists and the recency order *)

Section SubseqFacts.
Context {A : Type}.
Implicit Types (l : list A) (x : A).

Lemma Subseq_nil_l l : Subseq [] l.
Proof. induction l; auto with lru. Qed.

Lemma Subseq_refl l : Subseq l l.
Proof. induction l; auto with lru. Qed.

Lemma Subseq_trans l1 l2 l3 : Subseq l1 l2 -> Subseq l2 l3 -> Subseq l1 l3.
Proof.
  intros H12 H23. revert l1 H12.
  induction H23 as [| x l2 l3 _ IH | x l2 l3 _ IH]; intros l1 H12.
  - exact H12.
  - auto with lru.
  - inversion H12; subst; auto with lru.
Qed.

Lemma Subseq_filter (p : A -> bool) l : Subseq (filter p l) l.
Proof.
  induction l as [| x l IH]; simpl; [constructor |].
  destruct (p x); auto with lru.
Qed.

Lemma Subseq_filter_mono (p : A -> bool) l1 l2 :
  Subseq l1 l2 -> Subseq (filter p l1) (filter p l2).
Proof.
  induction 1 as [| x l1 l2 _ IH | x l1 l2 _ IH]; simpl.
  - constructor.
  - destruct (p x); auto with lru.
  - destruct (p x); auto with lru.
Qed.

Lemma Subseq_app l1 l2 l3 l4 :
  Subseq l1 l2 -> Subseq l3 l4 -> Subseq (l1 ++ l3) (l2 ++ l4).
Proof.
  induction 1; simpl; auto with lru.
Qed.

Lemma Subseq_In l1 l2 x : Subseq l1 l2 -> In x l1 -> In x l2.
Proof.
  induction 1 as [| y l1 l2 _ IH | y l1 l2 _ IH]; simpl; intuition.
Qed.

Lemma Subseq_tail x l : Subseq l (x :: l).
Proof. constructor. apply Subseq_refl. Qed.

Lemma before_cons l a b x : before l a b -> before (x :: l) a b.
Proof.
  intros [l1 [l2 [-> Hb]]]. exists (x :: l1), l2. now split.
Qed.

Lemma Subseq_before l1 l2 a b : Subseq l1 l2 -> before l1 a b -> before l2 a b.
Proof.
  induction 1 as [| x l1 l2 Hsub IH | x l1 l2 Hsub IH]; intro Hbef.
  - exact Hbef.
  - apply before_cons. now apply IH.
  - destruct Hbef as [m1 [m2 [Heq Hb]]].
    destruct m1 as [| y m1]; simpl in Heq; injection Heq as <- ->.
    + exists [], l2. split; [reflexivity |]. now apply (Subseq_In m2).
    + apply before_cons. apply IH. now exists m1, m2.
Qed.

Lemma before_snoc l k a b :
  before (l ++ [k]) a b -> before l a b \/ (In a l /\ b = k).
Proof.
  intros [l1 [l2 [Heq Hb]]].
  destruct (exists_last (l := l2)) as [l2' [z ->]].
  { intro E. now subst l2. }
  assert (E : l ++ [k] = (l1 ++ a :: l2') ++ [z])
    by (rewrite Heq, <- app_assoc; reflexivity).
  apply app_inj_tail in E as [-> ->].
  apply in_app_or in Hb as [Hb | [-> | []]].
  - left. now exists l1, l2'.
  - right. split; [| reflexivity]. apply in_or_app. right. now left.
Qed.

End SubseqFacts.

Lemma remove_key_In k x l : In x (remove_key k l) <-> In x l /\ x <> k.
Proof.
  unfold remove_key. rewrite filter_In, negb_true_iff, Key_eqb_neq.
  intuition congruence.
Qed.

Lemma remove_key_absent k l : ~ In k l -> remove_key k l = l.
Proof.
  induction l as [| x l IH]; simpl; intro Hk; [reflexivity |].
  destruct (Key.eqb k x) eqn:E; simpl.
  - apply Key_eqb_eq in E. subst x. exfalso. apply Hk. now left.
  - rewrite IH; [reflexivity |]. intro Hin. apply Hk. now right.
Qed.

Lemma touch_mono k l1 l2 : Subseq l1 l2 -> Subseq (touch l1 k) (touch l2 k).
Proof.
  intro Hsub. unfold touch. apply Subseq_app.
  - now apply Subseq_filter_mono.
  - apply Subseq_refl.
Qed.

Lemma touches_mono ks l1 l2 :
  Subseq l1 l2 -> Subseq (fold_left touch ks l1) (fold_left touch ks l2).
Proof.
  revert l1 l2. induction ks as [| k ks IH]; simpl; intros l1 l2 Hsub.
  - exact Hsub.
  - apply IH. now apply touch_mono.
Qed.

Lemma lru_order_snoc log k : lru_order (log ++ [k]) = touch (lru_order log) k.
Proof. unfold lru_order. now rewrite fold_left_app. Qed.

Lemma lru_order_In log x : In x (lru_order log) -> In x log.
Proof.
  induction log as [| k log IH] using rev_ind; [intros [] |].
  rewrite lru_order_snoc. unfold touch. intro Hx.
  apply in_or_app. apply in_app_or in Hx as [Hx | [-> | []]].
  - left. apply IH. now apply remove_key_In in Hx.
  - right. now left.
Qed.

(** The recency order agrees with the last touches of the log. *)
Lemma lru_order_touched_before log a b :
  before (lru_order log) a b -> History.touched_before log a b.
Proof.
  induction log as [| k log IH] using rev_ind.
  - intros [l1 [l2 [Heq _]]]. now destruct l1.
  - rewrite lru_order_snoc. unfold touch. intro Hbef.
    apply before_snoc in Hbef as [Hbef | [Ha ->]].
    + assert (Hak : a <> k).
      { destruct Hbef as [l1 [l2 [Heq _]]].
        assert (Hin : In a (remove_key k (lru_order log))).
        { rewrite Heq. apply in_or_app. right. now left. }
        now apply remove_key_In in Hin. }
      apply (Subseq_before _ (lru_order log)) in Hbef;
        [| apply Subseq_filter].
      destruct (IH Hbef) as [l1 [l2 [-> [Ha Hna]]]].
      exists l1, (l2 ++ [k]). split; [now rewrite <- app_assoc |].
      split; [exact Ha |].
      intro Hin. simpl in Hin, Hna.
      destruct Hin as [Hin | Hin]; [now apply Hna; left |].
      apply in_app_or in Hin as [Hin | [Hin | []]]; [apply Hna; now right | congruence].
    + apply remove_key_In in Ha as [Ha Hak].
      exists log, []. split; [reflexivity |].
      split; [now apply lru_order_In |].
      intros [E | []]. congruence.
Qed.

(** ** The key order of the map under its operations *)

Section KeyOrder.
Context {V : Type}.
Implicit Types (d : OrderedDict.t V) (k : CacheKey) (v : V).

Lemma keys_delitem k d :
  OrderedDict.keys (OrderedDict.delitem k d) = remove_key k (OrderedDict.keys d).
Proof.
  induction d as [| [k' v'] d IH]; simpl; [reflexivity |].
  destruct (Key.eqb k k'); simpl; [exact IH | now rewrite <- IH].
Qed.

Lemma getitem_None_keys k d :
  OrderedDict.getitem k d = None <-> ~ In k (OrderedDict.keys d).
Proof.
  induction d as [| [k' v'] d IH]; simpl; [tauto |].
  destruct (Key.eqb k k') eqn:E.
  - apply Key_eqb_eq in E. subst k'. split; [discriminate | tauto].
  - apply Key_eqb_neq in E. rewrite IH. intuition congruence.
Qed.

Lemma keys_setitem_present k v v0 d :
  OrderedDict.getitem k d = Some v0 ->
  OrderedDict.keys (OrderedDict.setitem k v d) = OrderedDict.keys d.
Proof.
  induction d as [| [k' v'] d IH]; simpl; [discriminate |].
  destruct (Key.eqb k k'); simpl; [reflexivity |].
  intro Hk. now rewrite IH.
Qed.

Lemma keys_setitem_absent k v d :
  OrderedDict.getitem k d = None ->
  OrderedDict.keys (OrderedDict.setitem k v d) = touch (OrderedDict.keys d) k.
Proof.
  intro Hk. rewrite setitem_absent by exact Hk.
  unfold OrderedDict.keys, touch. rewrite map_app. simpl.
  rewrite remove_key_absent; [reflexivity |].
  now apply getitem_None_keys.
Qed.

Lemma setitem_app_absent k v d1 d2 :
  OrderedDict.getitem k d1 = None ->
  OrderedDict.setitem k v (d1 ++ d2) = d1 ++ OrderedDict.setitem k v d2.
Proof.
  induction d1 as [| [k' v'] d1 IH]; simpl; [reflexivity |].
  destruct (Key.eqb k k'); [discriminate |].
  intro Hk. now rewrite IH.
Qed.

(** Writing after the move and moving after the write give the same map. *)
Lemma setitem_move_to_end k v v0 d :
  OrderedDict.getitem k d = Some v0 ->
  OrderedDict.setitem k v (OrderedDict.move_to_end k d)
  = OrderedDict.delitem k d ++ [(k, v)].
Proof.
  intro Hk. unfold OrderedDict.move_to_end. rewrite Hk.
  rewrite setitem_app_absent by apply getitem_delitem_same.
  simpl. now rewrite Key_eqb_refl.
Qed.

Lemma move_to_end_setitem k v d :
  OrderedDict.move_to_end k (OrderedDict.setitem k v d)
  = OrderedDict.delitem k d ++ [(k, v)].
Proof.
  unfold OrderedDict.move_to_end.
  now rewrite getitem_setitem_same, delitem_setitem.
Qed.

Lemma keys_snoc k v d :
  OrderedDict.keys (OrderedDict.delitem k d ++ [(k, v)]) = touch (OrderedDict.keys d) k.
Proof.
  unfold OrderedDict.keys at 1. rewrite map_app. simpl.
  fold (OrderedDict.keys (OrderedDict.delitem k d)).
  now rewrite keys_delitem.
Qed.

Lemma keys_move_to_end k v d :
  OrderedDict.getitem k d = Some v ->
  OrderedDict.keys (OrderedDict.move_to_end k d) = touch (OrderedDict.keys d) k.
Proof.
  intro Hk. unfold OrderedDict.move_to_end. rewrite Hk. apply keys_snoc.
Qed.

Lemma Subseq_keys_delitem k d :
  Subseq (OrderedDict.keys (OrderedDict.delitem k d)) (OrderedDict.keys d).
Proof. rewrite keys_delitem. apply Subseq_filter. Qed.

Lemma Subseq_keys_delitems ks d :
  Subseq (OrderedDict.keys (fold_left (fun c k => OrderedDict.delitem k c) ks d))
         (OrderedDict.keys d).
Proof.
  revert d. induction ks as [| k ks IH]; simpl; intro d.
  - apply Subseq_refl.
  - eapply Subseq_trans; [apply IH | apply Subseq_keys_delitem].
Qed.

End KeyOrder.

(** ** The memory engine keeps its map in recency order *)

Lemma Memory_get_order key now self order :
  recency_ok order self ->
  recency_ok (fold_left touch (if History.hit key now self then [key] else []) order)
    (snd (Memory.get key now self)).
Proof.
  unfold recency_ok, History.hit, Memory.get. intro Hinv.
  destruct (OrderedDict.getitem key (Memory._cache self)) as [[v e] |] eqn:Hk.
  - destruct (Memory.is_expired now e); simpl.
    + eapply Subseq_trans; [apply Subseq_keys_delitem | exact Hinv].
    + rewrite (keys_move_to_end _ _ _ Hk). now apply touch_mono.
  - exact Hinv.
Qed.

Lemma Memory_set_order key value ttl ex nx now self r self1 order :
  Memory.set key value ttl ex nx now self = Return (r, self1) ->
  recency_ok order self ->
  recency_ok (fold_left touch (if r then [key] else []) order) self1.
Proof.
  unfold recency_ok, Memory.set. intros Hset Hinv.
  destruct (Memory._max_size self =? 0).
  { injection Hset as <- <-. exact Hinv. }
  rewrite contains_getitem in Hset.
  destruct (OrderedDict.getitem key (Memory._cache self)) as [[v e] |] eqn:Hk.
  - destruct (nx && true); [destruct (Memory.nx_blocks now e) |].
    + injection Hset as <- <-. exact Hinv.
    + expiry_in Hset. injection Hset as <- <-. simpl.
      rewrite (setitem_move_to_end _ _ _ _ Hk), keys_snoc. now apply touch_mono.
    + expiry_in Hset. injection Hset as <- <-. simpl.
      rewrite (setitem_move_to_end _ _ _ _ Hk), keys_snoc. now apply touch_mono.
  - rewrite andb_false_r in Hset. expiry_in Hset.
    destruct (Z.of_nat (length (Memory._cache self)) >=? Memory._max_size self).
    + destruct (Memory._cache self) as [| [k0 v0] rest] eqn:Hc; [discriminate |].
      simpl in Hset. injection Hset as <- <-. simpl.
      simpl in Hk. destruct (Key.eqb key k0); [discriminate |].
      rewrite (keys_setitem_absent _ _ _ Hk). apply touch_mono.
      eapply Subseq_trans; [apply Subseq_tail | exact Hinv].
    + injection Hset as <- <-. simpl.
      rewrite (keys_setitem_absent _ _ _ Hk). now apply touch_mono.
Qed.

Lemma Memory_get_many_order now self keys :
  forall result c order,
    Subseq (OrderedDict.keys c) order ->
    Subseq
      (OrderedDict.keys (snd (fold_left (Memory.get_many_step now) keys (result, c))))
      (fold_left touch
         (filter (fun k => History.hit k now (Memory.with_cache self c)) keys) order).
Proof.
  induction keys as [| key keys IH]; intros result c order Hinv.
  - exact Hinv.
  - cbn [fold_left filter]. unfold Memory.get_many_step at 2.
    unfold History.hit at 1. cbn [Memory._cache Memory.with_cache].
    destruct (OrderedDict.getitem key c) as [[v e] |] eqn:Hk.
    + destruct (Memory.is_expired now e) eqn:He; cbn [negb].
      * rewrite (filter_ext _
                   (fun k => History.hit k now
                               (Memory.with_cache self (OrderedDict.delitem key c)))).
        { apply IH. eapply Subseq_trans; [apply Subseq_keys_delitem | exact Hinv]. }
        intro k. unfold History.hit. cbn [Memory._cache Memory.with_cache].
        destruct (Key.eqb key k) eqn:E.
        -- apply Key_eqb_eq in E. subst k.
           now rewrite getitem_delitem_same, Hk, He.
        -- apply Key_eqb_neq in E. now rewrite getitem_delitem_other.
      * rewrite (filter_ext _
                   (fun k => History.hit k now
                               (Memory.with_cache self (OrderedDict.move_to_end key c)))).
        { cbn [fold_left]. apply IH.
          rewrite (keys_move_to_end _ _ _ Hk). now apply touch_mono. }
        intro k. unfold History.hit. cbn [Memory._cache Memory.with_cache].
        now rewrite getitem_move_to_end.
    + apply IH. exact Hinv.
Qed.

Lemma set_many_raised max_size expires_at mapping e :
  fold_left (Memory.set_many_step max_size expires_at) mapping (Raise e) = Raise e.
Proof.
  induction mapping as [| kv mapping IH]; simpl; [reflexivity | exact IH].
Qed.

(** One turn of [set_many] evicts at most the head and touches the key. *)
Lemma set_many_step_keys max_size expires_at c kv c1 :
  Memory.set_many_step max_size expires_at (Return c) kv = Return c1 ->
  exists c0,
    Subseq (OrderedDict.keys c0) (OrderedDict.keys c) /\
    c1 = OrderedDict.delitem (fst kv) c0 ++ [(fst kv, (snd kv, expires_at))].
Proof.
  unfold Memory.set_many_step. simpl.
  destruct ((Z.of_nat (length c) >=? max_size)
            && negb (OrderedDict.contains (fst kv) c)).
  - destruct c as [| kv0 rest]; [discriminate |].
    simpl. intro E. injection E as <-.
    exists rest. split; [apply Subseq_tail | apply move_to_end_setitem].
  - simpl. intro E. injection E as <-.
    exists c. split; [apply Subseq_refl | apply move_to_end_setitem].
Qed.

Lemma Memory_set_many_order max_size expires_at mapping :
  forall c c1 order,
    fold_left (Memory.set_many_step max_size expires_at) mapping (Return c) = Return c1 ->
    Subseq (OrderedDict.keys c) order ->
    Subseq (OrderedDict.keys c1) (fold_left touch (map fst mapping) order).
Proof.
  induction mapping as [| kv mapping IH]; intros c c1 order Hrun Hinv.
  - simpl in *. injection Hrun as <-. exact Hinv.
  - cbn [fold_left] in Hrun.
    destruct (Memory.set_many_step max_size expires_at (Return c) kv) as [c2 | e] eqn:Hstep.
    + destruct (set_many_step_keys _ _ _ _ _ Hstep) as [c0 [Hsub ->]].
      simpl. eapply IH; [exact Hrun |].
      rewrite keys_snoc. apply touch_mono.
      eapply Subseq_trans; [exact Hsub | exact Hinv].
    + now rewrite set_many_raised in Hrun.
Qed.

(** Every call keeps the map a sublist of the recency order of the log. *)
Lemma step_order c self self1 order :
  History.step c self = Return self1 ->
  recency_ok order self ->
  recency_ok (fold_left touch (History.touches c self) order) self1.
Proof.
  destruct c as [key now | key now | key value ttl ex nx now | key | | keys now
                | mapping ttl now | now]; simpl; intros Hstep Hinv.
  - injection Hstep as <-. now apply Memory_get_order.
  - injection Hstep as <-. now apply Memory_get_order.
  - destruct (Memory.set key value ttl ex nx now self) as [[r self2] | e] eqn:Hset;
      [| discriminate].
    simpl in Hstep. injection Hstep as <-.
    pose proof (Memory_set_order _ _ _ _ _ _ _ _ _ _ Hset Hinv) as Hord.
    now destruct r.
  - injection Hstep as <-. unfold Memory.delete, recency_ok in *.
    destruct (OrderedDict.contains key (Memory._cache self)); simpl; [| exact Hinv].
    eapply Subseq_trans; [apply Subseq_keys_delitem | exact Hinv].
  - injection Hstep as <-. apply Subseq_nil_l.
  - injection Hstep as <-.
    exact (Memory_get_many_order now self keys [] (Memory._cache self) order Hinv).
  - unfold Memory.set_many in Hstep.
    destruct (Memory._max_size self =? 0).
    + injection Hstep as <-. exact Hinv.
    + expiry_in Hstep.
      destruct (fold_left _ mapping (Return (Memory._cache self))) as [c1 | e] eqn:Hrun;
        [| discriminate].
      simpl in Hstep. injection Hstep as <-.
      unfold recency_ok. simpl. eapply Memory_set_many_order; [exact Hrun | exact Hinv].
  - injection Hstep as <-. unfold Memory._cleanup_expired, recency_ok in *. simpl.
    eapply Subseq_trans; [apply Subseq_keys_delitems | exact Hinv].
Qed.

Lemma run_order calls :
  forall self log self1 earlier,
    History.run calls self = Return (log, self1) ->
    recency_ok (lru_order earlier) self ->
    recency_ok (lru_order (earlier ++ log)) self1.
Proof.
  induction calls as [| c calls IH]; intros self log self1 earlier Hrun Hinv.
  - simpl in Hrun. injection Hrun as <- <-. now rewrite app_nil_r.
  - simpl in Hrun.
    destruct (History.step c self) as [self2 | e] eqn:Hstep; [| discriminate].
    simpl in Hrun.
    destruct (History.run calls self2) as [[log2 self3] | e] eqn:Hrest; [| discriminate].
    simpl in Hrun. injection Hrun as <- <-.
    rewrite app_assoc. eapply IH; [exact Hrest |].
    unfold lru_order. rewrite fold_left_app.
    now apply (step_order c self).
Qed.

(** ** The eviction scenario of capacity 3 *)

Lemma NoDup5_neq {A : Type} (a b c d e : A) :
  NoDup [a; b; c; d; e] ->
  a <> b /\ a <> c /\ a <> d /\ a <> e /\ b <> c /\ b <> d /\ b <> e /\
  c <> d /\ c <> e /\ d <> e.
Proof.
  intro Hnd.
  repeat match goal with
         | H : NoDup (_ :: _) |- _ => apply NoDup_cons_iff in H as [? H]
         end.
  simpl in *. repeat split; intro; subst; tauto.
Qed.

(** A write of a stored key keeps every entry of the map: the other
    entries are untouched and the key itself stays. *)
Lemma Memory_set_update_keeps_entries key value ttl ex nx now self r self1 :
  OrderedDict.contains key (Memory._cache self) = true ->
  Memory.set key value ttl ex nx now self = Return (r, self1) ->
  OrderedDict.contains key (Memory._cache self1) = true /\
  (forall k, k <> key ->
             OrderedDict.getitem k (Memory._cache self1)
             = OrderedDict.getitem k (Memory._cache self)).
Proof.
  intros Hin Hset. unfold Memory.set in Hset. rewrite Hin in Hset.
  pose proof Hin as Hk. rewrite contains_getitem in Hk.
  destruct (OrderedDict.getitem key (Memory._cache self)) as [[v e] |] eqn:Hget;
    [clear Hk | discriminate].
  destruct (Memory._max_size self =? 0).
  { injection Hset as _ <-. now split. }
  destruct (nx && true); [destruct (Memory.nx_blocks now e) |].
  - injection Hset as _ <-. now split.
  - expiry_in Hset. injection Hset as _ <-. cbn [Memory._cache Memory.with_cache]. split.
    + rewrite contains_getitem. now rewrite getitem_setitem_same.
    + intros k Hne. rewrite getitem_setitem_other by congruence.
      apply getitem_move_to_end.
  - expiry_in Hset. injection Hset as _ <-. cbn [Memory._cache Memory.with_cache]. split.
    + rewrite contains_getitem. now rewrite getitem_setitem_same.
    + intros k Hne. rewrite getitem_setitem_other by congruence.
      apply getitem_move_to_end.
Qed.

(** The evicted entry was touched before every entry that stays. *)
Lemma Memory_eviction_is_lru max_size calls log self key value ttl ex nx now self1 :
  History.run calls (Memory.init max_size) = Return (log, self) ->
  OrderedDict.contains key (Memory._cache self) = false ->
  Z.of_nat (length (Memory._cache self)) >= Memory._max_size self ->
  Memory.set key value ttl ex nx now self = Return (true, self1) ->
  exists victim entry rest expires_at,
    Memory._cache self = (victim, entry) :: rest /\
    expiry now ttl = Return expires_at /\
    Memory._cache self1 = rest ++ [(key, (value, expires_at))] /\
    forall other, In other (OrderedDict.keys rest) ->
                  History.touched_before log victim other.
Proof.
  intros Hrun Hnew Hfull Hset.
  assert (Hord : recency_ok (lru_order log) self).
  { apply (run_order calls (Memory.init max_size) log self [] Hrun). constructor. }
  unfold Memory.set in Hset. rewrite Hnew in Hset.
  destruct (Memory._max_size self =? 0); [discriminate |].
  rewrite andb_false_r in Hset.
  assert ((Z.of_nat (length (Memory._cache self)) >=? Memory._max_size self) = true)
    as Hge by (apply Z.geb_le; lia).
  rewrite Hge in Hset.
  rewrite contains_getitem in Hnew.
  unfold recency_ok in Hord.
  destruct (expiry now ttl) as [expires_at | err]; cbn [bind] in Hset; [| discriminate].
  destruct (Memory._cache self) as [| [victim entry] rest]; [discriminate |].
  simpl in Hset. injection Hset as <-.
  exists victim, entry, rest, expires_at. split; [reflexivity |].
  split; [reflexivity |]. split.
  - simpl. apply setitem_absent.
    simpl in Hnew. destruct (Key.eqb key victim); [discriminate |].
    destruct (OrderedDict.getitem key rest); [discriminate | reflexivity].
  - intros other Hother.
    apply lru_order_touched_before.
    apply (Subseq_before _ _ _ _ Hord).
    exists [], (OrderedDict.keys rest). now split.
Qed.

(** C3.  On the memory engine with capacity 3 and no TTLs, for distinct
    keys a, b, c, d, e: after set(a), set(b), set(c), set(d), get(a)
    returns [None] while get(b), get(c), get(d) return their values; a
    further get(b) followed by set(e) evicts c and keeps b.  In general,
    when a set of a new key at full capacity succeeds after any history of
    calls, it removes exactly the entry at the head of the map, and every
    entry that stays was touched (written, or read with a hit) later than
    the removed one.  A set of a stored key never removes or alters another
    entry. *)
Theorem C3_lru_eviction :
  (forall (a b c d e : CacheKey) (va vb vc vd ve : CacheValue) (ex : bool)
          (clock : nat -> Timestamp),
      NoDup [a; b; c; d; e] ->
      exists s1 s2 s3 s4 s10,
        Memory.set a va None ex false (clock 0%nat) (Memory.init 3) = Return (true, s1) /\
        Memory.set b vb None ex false (clock 1%nat) s1 = Return (true, s2) /\
        Memory.set c vc None ex false (clock 2%nat) s2 = Return (true, s3) /\
        Memory.set d vd None ex false (clock 3%nat) s3 = Return (true, s4) /\
        fst (Memory.get a (clock 4%nat) s4) = PyNone /\
        let s5 := snd (Memory.get a (clock 4%nat) s4) in
        fst (Memory.get b (clock 5%nat) s5) = vb /\
        let s6 := snd (Memory.get b (clock 5%nat) s5) in
        fst (Memory.get c (clock 6%nat) s6) = vc /\
        let s7 := snd (Memory.get c (clock 6%nat) s6) in
        fst (Memory.get d (clock 7%nat) s7) = vd /\
        let s8 := snd (Memory.get d (clock 7%nat) s7) in
        fst (Memory.get b (clock 8%nat) s8) = vb /\
        let s9 := snd (Memory.get b (clock 8%nat) s8) in
        Memory.set e ve None ex false (clock 9%nat) s9 = Return (true, s10) /\
        OrderedDict.keys (Memory._cache s10) = [d; b; e] /\
        fst (Memory.get c (clock 10%nat) s10) = PyNone /\
        fst (Memory.get b (clock 10%nat) s10) = vb)
  /\
  (forall max_size calls log self key value ttl ex nx now self1,
      History.run calls (Memory.init max_size) = Return (log, self) ->
      OrderedDict.contains key (Memory._cache self) = false ->
      Z.of_nat (length (Memory._cache self)) >= Memory._max_size self ->
      Memory.set key value ttl ex nx now self = Return (true, self1) ->
      exists victim entry rest expires_at,
        Memory._cache self = (victim, entry) :: rest /\
        expiry now ttl = Return expires_at /\
        Memory._cache self1 = rest ++ [(key, (value, expires_at))] /\
        forall other, In other (OrderedDict.keys rest) ->
                      History.touched_before log victim other)
  /\
  (forall key value ttl ex nx now self r self1,
      OrderedDict.contains key (Memory._cache self) = true ->
      Memory.set key value ttl ex nx now self = Return (r, self1) ->
      OrderedDict.contains key (Memory._cache self1) = true /\
      (forall k, k <> key ->
                 OrderedDict.getitem k (Memory._cache self1)
                 = OrderedDict.getitem k (Memory._cache self))).
Proof.
  split; [| split].
  - intros a b c d e va vb vc vd ve ex clock.
    intro Hnd.
    destruct (NoDup5_neq _ _ _ _ _ Hnd)
      as (Hab & Hac & Had & Hae & Hbc & Hbd & Hbe & Hcd & Hce & Hde).
    assert (Eab : Key.eqb a b = false) by eqb_false Hab.
    assert (Eac : Key.eqb a c = false) by eqb_false Hac.
    assert (Ead : Key.eqb a d = false) by eqb_false Had.
    assert (Eba : Key.eqb b a = false) by eqb_false Hab.
    assert (Ebc : Key.eqb b c = false) by eqb_false Hbc.
    assert (Ebd : Key.eqb b d = false) by eqb_false Hbd.
    assert (Eca : Key.eqb c a = false) by eqb_false Hac.
    assert (Ecb : Key.eqb c b = false) by eqb_false Hbc.
    assert (Ecd : Key.eqb c d = false) by eqb_false Hcd.
    assert (Eda : Key.eqb d a = false) by eqb_false Had.
    assert (Edb : Key.eqb d b = false) by eqb_false Hbd.
    assert (Edc : Key.eqb d c = false) by eqb_false Hcd.
    assert (Eeb : Key.eqb e b = false) by eqb_false Hbe.
    assert (Eec : Key.eqb e c = false) by eqb_false Hce.
    assert (Eed : Key.eqb e d = false) by eqb_false Hde.
    assert (Ebe : Key.eqb b e = false) by eqb_false Hbe.
    assert (Ece : Key.eqb c e = false) by eqb_false Hce.
    set (norm := fun c => Memory.mkMemoryBackend 3 c false (Some true)).
    assert (S1 : Memory.set a va None ex false (clock 0%nat) (Memory.init 3)
                 = Return (true, norm [(a, (va, None))])) by crunch.
    assert (S2 : Memory.set b vb None ex false (clock 1%nat) (norm [(a, (va, None))])
                 = Return (true, norm [(a, (va, None)); (b, (vb, None))])).
    { crunch. }
    assert (S3 : Memory.set c vc None ex false (clock 2%nat)
                   (norm [(a, (va, None)); (b, (vb, None))])
                 = Return (true, norm [(a, (va, None)); (b, (vb, None)); (c, (vc, None))])).
    { crunch. }
    assert (S4 : Memory.set d vd None ex false (clock 3%nat)
                   (norm [(a, (va, None)); (b, (vb, None)); (c, (vc, None))])
                 = Return (true, norm [(b, (vb, None)); (c, (vc, None)); (d, (vd, None))])).
    { crunch. }
    assert (G4 : Memory.get a (clock 4%nat)
                   (norm [(b, (vb, None)); (c, (vc, None)); (d, (vd, None))])
                 = (PyNone, norm [(b, (vb, None)); (c, (vc, None)); (d, (vd, None))])).
    { crunch. }
    assert (G5 : forall t, Memory.get b t
                   (norm [(b, (vb, None)); (c, (vc, None)); (d, (vd, None))])
                 = (vb, norm [(c, (vc, None)); (d, (vd, None)); (b, (vb, None))])).
    { intro t. crunch. }
    assert (G6 : Memory.get c (clock 6%nat)
                   (norm [(c, (vc, None)); (d, (vd, None)); (b, (vb, None))])
                 = (vc, norm [(d, (vd, None)); (b, (vb, None)); (c, (vc, None))])).
    { crunch. }
    assert (G7 : Memory.get d (clock 7%nat)
                   (norm [(d, (vd, None)); (b, (vb, None)); (c, (vc, None))])
                 = (vd, norm [(b, (vb, None)); (c, (vc, None)); (d, (vd, None))])).
    { crunch. }
    assert (S9 : Memory.set e ve None ex false (clock 9%nat)
                   (norm [(c, (vc, None)); (d, (vd, None)); (b, (vb, None))])
                 = Return (true, norm [(d, (vd, None)); (b, (vb, None)); (e, (ve, None))])).
    { crunch. }
    assert (G10c : fst (Memory.get c (clock 10%nat)
                          (norm [(d, (vd, None)); (b, (vb, None)); (e, (ve, None))])) = PyNone).
    { crunch. }
    assert (G10b : fst (Memory.get b (clock 10%nat)
                          (norm [(d, (vd, None)); (b, (vb, None)); (e, (ve, None))])) = vb).
    { crunch. }
    exists (norm [(a, (va, None))]).
    exists (norm [(a, (va, None)); (b, (vb, None))]).
    exists (norm [(a, (va, None)); (b, (vb, None)); (c, (vc, None))]).
    exists (norm [(b, (vb, None)); (c, (vc, None)); (d, (vd, None))]).
    exists (norm [(d, (vd, None)); (b, (vb, None)); (e, (ve, None))]).
    cbv zeta.
    rewrite S1, S2, S3, S4, G4. cbn [fst snd].
    rewrite G5. cbn [fst snd]. rewrite G6. cbn [fst snd]. rewrite G7. cbn [fst snd].
    rewrite G5. cbn [fst snd]. rewrite S9, G10c, G10b.
    repeat split.
  - exact Memory_eviction_is_lru.
  - exact Memory_set_update_keeps_entries.
Qed.

Lemma C3_witness :
  NoDup [KStr "a"; KStr "b"; KStr "c"; KStr "d"; KStr "e"] /\
  (exists s10 : Memory.MemoryBackend,
      OrderedDict.keys (Memory._cache s10) = [KStr "d"; KStr "b"; KStr "e"]) /\
  (exists victim,
      victim = (KStr "b") /\
      History.touched_before [KStr "a"; KStr "b"; KStr "a"] victim (KStr "a")) /\
  (forall k, k <> (KStr "a") ->
             OrderedDict.getitem k
               (Memory._cache
                  (Memory.mkMemoryBackend 1 [(KStr "a", (PyInt 2, None))] false (Some true)))
             = OrderedDict.getitem k
                 (Memory._cache
                    (Memory.mkMemoryBackend 1 [(KStr "a", (PyInt 1, None))] false (Some true)))).
Proof.
  destruct C3_lru_eviction as [Hscenario [Hlru Hupdate]].
  assert (Hnd : NoDup [KStr "a"; KStr "b"; KStr "c"; KStr "d"; KStr "e"]).
  { repeat constructor; simpl; intuition discriminate. }
  split; [exact Hnd |]. split; [| split].
  - destruct (Hscenario (KStr "a") (KStr "b") (KStr "c") (KStr "d") (KStr "e")
                (PyInt 1) (PyInt 2) (PyInt 3) (PyInt 4) (PyInt 5) false
                (fun n => inject_Z (Z.of_nat n)) Hnd)
      as (s1 & s2 & s3 & s4 & s10 & _ & _ & _ & _ & _ & _ & _ & _ & _ & _ & Hkeys & _).
    exists s10. exact Hkeys.
  - destruct (Hlru 2
                [History.CSet "a" (PyInt 1) None false false 0;
                 History.CSet "b" (PyInt 2) None false false 1;
                 History.CGet "a" 2]
                [KStr "a"; KStr "b"; KStr "a"]
                (Memory.mkMemoryBackend 2
                   [(KStr "b", (PyInt 2, None)); (KStr "a", (PyInt 1, None))]
                   false (Some true))
                (KStr "c") (PyInt 3) None false false 3%Q
                (Memory.mkMemoryBackend 2
                   [(KStr "a", (PyInt 1, None)); (KStr "c", (PyInt 3, None))]
                   false (Some true)))
      as (victim & entry & rest & expires_at & Hcache & _ & _ & Hbefore).
    + reflexivity.
    + reflexivity.
    + simpl. lia.
    + reflexivity.
    + simpl in Hcache. injection Hcache as Hv _ Hrest.
      exists victim. split; [now symmetry |].
      apply Hbefore. rewrite <- Hrest. simpl. now left.
  - apply (Hupdate (KStr "a") (PyInt 2) None false false 5%Q
             (Memory.mkMemoryBackend 1 [(KStr "a", (PyInt 1, None))] false (Some true))
             true
             (Memory.mkMemoryBackend 1 [(KStr "a", (PyInt 2, None))] false (Some true)));
      reflexivity.
Defined.

(** ** Truncation of clock differences *)

Lemma py_int_nonneg_floor (x : Q) : (0 <= x)%Q -> py_int x = Qfloor x.
Proof.
  destruct x as [n d]. unfold py_int, Qfloor, Qle. simpl. intro Hn.
  apply Z.quot_div_nonneg; lia.
Qed.

Lemma py_int_neg (x : Q) : (x < 0)%Q -> py_int x <= 0.
Proof.
  destruct x as [n d]. unfold py_int, Qlt. simpl. intro Hn.
  assert (Hq : 0 <= Z.quot (- n) (Z.pos d)) by (apply Z.quot_pos; lia).
  rewrite Z.quot_opp_l in Hq by lia. lia.
Qed.

Lemma py_int_below_one (x : Q) : (x < 1)%Q -> py_int x <= 0.
Proof.
  intro Hx. destruct (Qlt_le_dec x 0) as [Hneg | Hpos].
  - now apply py_int_neg.
  - rewrite py_int_nonneg_floor by exact Hpos.
    pose proof (Qfloor_le x) as Hfl.
    assert (Hlt : (inject_Z (Qfloor x) < 1)%Q) by lra.
    change 1%Q with (inject_Z 1) in Hlt.
    rewrite <- Zlt_Qlt in Hlt. lia.
Qed.

Lemma py_int_whole_seconds (x : Q) :
  (1 <= x)%Q ->
  1 <= py_int x /\ (inject_Z (py_int x) <= x)%Q /\ (x < inject_Z (py_int x) + 1)%Q.
Proof.
  intro Hx. rewrite py_int_nonneg_floor by lra.
  pose proof (Qfloor_le x) as Hfl. pose proof (Qlt_floor x) as Hlt.
  rewrite inject_Z_plus in Hlt. change (inject_Z 1) with 1%Q in Hlt.
  split; [| split; [exact Hfl | exact Hlt]].
  assert (Hone : (0 < inject_Z (Qfloor x))%Q) by lra.
  change 0%Q with (inject_Z 0) in Hone.
  rewrite <- Zlt_Qlt in Hone. lia.
Qed.

(** ** Scanning keys *)

Lemma py_slice_In {A : Type} (l : list A) (a b : Z) (x : A) :
  In x (py_slice l a b) -> In x l.
Proof.
  unfold py_slice. intro Hx. apply In_firstn in Hx. now apply In_skipn in Hx.
Qed.

Lemma File_insert_key_In k x sorted :
  In x (File.insert_key k sorted) <-> x = k \/ In x sorted.
Proof.
  induction sorted as [| y sorted IH]; simpl.
  - intuition congruence.
  - destruct (File.sql_leb k y); simpl; [| rewrite IH]; intuition congruence.
Qed.

Lemma File_order_by_key_In x ks : In x (File.order_by_key ks) <-> In x ks.
Proof.
  induction ks as [| k ks IH]; simpl; [reflexivity |].
  rewrite File_insert_key_In, IH. intuition congruence.
Qed.

Lemma fnmatch_filter_In fnmatch pattern all_keys matched k :
  fnmatch_filter fnmatch pattern all_keys = Return matched ->
  In k matched -> In k all_keys.
Proof.
  revert matched. induction all_keys as [| k0 rest IH]; simpl; intros matched Hrun Hk.
  - injection Hrun as <-. contradiction.
  - destruct (fnmatch_key fnmatch pattern k0) as [m | e]; [| discriminate].
    cbn [bind] in Hrun.
    destruct (fnmatch_filter fnmatch pattern rest) as [matched0 | e]; [| discriminate].
    cbn [bind] in Hrun. injection Hrun as <-.
    destruct m; [destruct Hk as [-> | Hk]; [now left |] |]; right; now apply (IH matched0).
Qed.

(** The file engine lists only keys of rows that pass its expiry filter. *)
Lemma File_keys_live fnmatch pattern cursor count max_keys now self page k :
  File.keys fnmatch pattern cursor count max_keys now self = Return page ->
  In k (page_keys page) ->
  exists row,
    In row (File.cache_entries self) /\ File.fetch_key (File.key row) = k /\
    File.sql_live now (File.expires_at row) = true.
Proof.
  unfold File.keys. cbv zeta.
  set (all_keys := map File.fetch_key _).
  intros Hpage Hk.
  assert (Hall : In k all_keys).
  { destruct (String.eqb pattern "*").
    - cbn [bind] in Hpage. injection Hpage as <-. cbn [page_keys] in Hk.
      now apply py_slice_In in Hk.
    - destruct (fnmatch_filter fnmatch pattern all_keys) as [matched | e] eqn:Hm;
        [| discriminate].
      cbn [bind] in Hpage. injection Hpage as <-. cbn [page_keys] in Hk.
      apply py_slice_In in Hk. now apply (fnmatch_filter_In _ _ _ _ _ Hm). }
  unfold all_keys in Hall.
  apply in_map_iff in Hall as [sk [Hfetch Hsk]].
  apply File_order_by_key_In, in_map_iff in Hsk as [row [Hkey Hrow]].
  apply filter_In in Hrow as [Hrow Hlive].
  exists row. subst sk. now repeat split.
Qed.

(** C4 does not hold on the memory engine.  An entry that expired at
    reading 50 and has not been swept is not live at reading 100 ([get]
    returns [None] for it), yet [keys] lists it: the scan of the memory
    engine takes every stored key and never reads the clock. *)
Theorem C4_memory_keys_lists_expired :
  forall fnmatch : string -> string -> bool,
    let self :=
      Memory.mkMemoryBackend 10
        [(KStr "session", (PyStr "v", Some 50%Q)); (KStr "user", (PyStr "u", None))]
        false (Some true) in
    Memory.is_expired 100 (Some 50%Q) = true /\
    fst (Memory.get "session" 100 self) = PyNone /\
    fst (Memory.exists_ "session" 100 self) = false /\
    Memory.keys fnmatch "*" 0 100 None self
    = Return (mkKeysPage [KStr "session"; KStr "user"] 0 false 2) /\
    File.keys fnmatch "*" 0 100 None 100
      (File.mkFileBackend 10
         [File.mkRow (File.SqlText "session") (PyStr "v") (Some 50%Q) 0 0;
          File.mkRow (File.SqlText "user") (PyStr "u") None 0 0] false (Some true))
    = Return (mkKeysPage [KStr "user"] 0 false 1).
Proof.
  intro fnmatch. repeat split.
Qed.

(** C5 does not hold.  [acquire] reads the key and then writes it with a
    plain [set]: the write passes [nx = False].  Two locks on one name that
    both read before either writes both report success, and the second
    write replaces the token of the first; the conditional write the claim
    describes would have been refused. *)
Theorem C5_acquire_write_is_unconditional :
  let backend := Memory.init 100 in
  let lock1 := Lock.init "job" 10 false None "owner-1" in
  let lock2 := Lock.init "job" 10 false None "owner-2" in
  Lock.name lock1 = "lock:job"%string /\
  (forall (self : Lock.DistributedLock) now (b : Memory.MemoryBackend),
      Lock.acquire_write self now b
      = (r <- Memory.set (Lock.name self) (PyStr (Lock.identifier self))
                (Some (Lock.timeout self)) false false now b ;;
         Return (Lock.with_locked self true, snd r))) /\
  exists b1 b2 b3 b4 held1 held2,
    Lock.acquire_read lock1 0 backend = (PyNone, b1) /\
    Lock.acquire_read lock2 0 b1 = (PyNone, b2) /\
    Lock.acquire_write lock1 0 b2 = Return (held1, b3) /\
    OrderedDict.getitem "lock:job" (Memory._cache b3)
      = Some (PyStr "owner-1", Some 10%Q) /\
    Memory.set "lock:job" (PyStr "owner-2") (Some 10) false true 0 b3
      = Return (false, b3) /\
    Lock.acquire_write lock2 0 b3 = Return (held2, b4) /\
    Lock._locked held1 = true /\ Lock._locked held2 = true /\
    OrderedDict.getitem "lock:job" (Memory._cache b4)
      = Some (PyStr "owner-2", Some 10%Q).
Proof.
  cbv zeta. split; [reflexivity |]. split; [reflexivity |].
  do 6 eexists. repeat split.
Qed.

(** C6 does not hold on the memory engine.  Its [close] neither sets the
    stop event nor joins the cleanup thread: the engine is unchanged and
    the thread stays alive.  The file engine's [close] sets the event and
    joins the thread with a timeout of one second, and a second [close]
    only sets the event again. *)
Theorem C6_memory_close_leaves_sweeper :
  (forall self, Memory.close self = ([], self)) /\
  Memory._stop_cleanup (snd (Memory.close (Memory.init 3))) = false /\
  Memory._cleanup_thread (snd (Memory.close (Memory.init 3))) = Some true /\
  File.close (File.init 3)
    = ([EventSet; ThreadJoin 1], File.mkFileBackend 3 [] true (Some false)) /\
  File.close (snd (File.close (File.init 3)))
    = ([EventSet], snd (File.close (File.init 3))) /\
  fst (Memory.del_ (Memory.init 3)) = [EventSet; ThreadJoin 1].
Proof.
  split.
  - intro self. unfold Memory.close. now destruct (Memory._cleanup_thread self) as [[|] |].
  - repeat split.
Qed.

(** C7 does not hold.  The default [ttl] of the base class, which the
    file engine keeps, answers from [exists] alone: for a live row it
    returns -1, the mark of an entry that never expires, whatever expiry
    the row has, as after [set("k", "v", ttl=100)] read ten seconds later.
    On the memory engine an entry written with [ttl=1] and read half a
    second later is live ([get] returns its value) and expires in the
    future, yet [ttl] returns -2, the mark of a missing key. *)
Theorem C7_ttl_misreports_live_entries :
  (forall (B : Type) (E : Base.BaseBackend B) key now (self : B),
      fst (Base.ttl key now self)
      = if fst (Base.exists_ key now self) then -1 else -2) /\
  (exists self1,
      File.set "k" (PyStr "v") (Some 100) false false 1700000000 (File.init 10)
      = Return (true, self1) /\
      File.select_key (File.SqlText "k") (File.cache_entries self1)
      = Some (File.mkRow (File.SqlText "k") (PyStr "v") (Some 1700000100%Q)
                1700000000 1700000000) /\
      fst (File.get "k" 1700000010 self1) = PyStr "v" /\
      fst (Base.ttl "k" 1700000010 self1) = -1) /\
  (exists self1,
      Memory.set "k" (PyStr "v") (Some 1) false false 1700000000 (Memory.init 10)
      = Return (true, self1) /\
      OrderedDict.getitem "k" (Memory._cache self1)
      = Some (PyStr "v", Some 1700000001%Q) /\
      fst (Memory.get "k" (3400000001 # 2) self1) = PyStr "v" /\
      Memory.ttl "k" (3400000001 # 2) self1 = -2).
Proof.
  split; [| split].
  - intros B E key now self. unfold Base.ttl.
    destruct (Base.exists_ key now self) as [found self1]. now destruct found.
  - eexists. split; [vm_compute; reflexivity |]. repeat split.
  - eexists. split; [vm_compute; reflexivity |]. repeat split.
Qed.

(** ** Batch operations of the memory engine against the base loops *)

Lemma Memory_with_cache_same self : Memory.with_cache self (Memory._cache self) = self.
Proof. now destruct self. Qed.

(** One [set] is one turn of the loop of [set_many]. *)
Lemma Memory_set_as_step k v ttl now self :
  Memory._max_size self <> 0 ->
  Memory.set k v ttl false false now self
  = (expires_at <- expiry now ttl ;;
     c1 <- Memory.set_many_step (Memory._max_size self) expires_at
             (Return (Memory._cache self)) (k, v) ;;
     Return (true, Memory.with_cache self c1)).
Proof.
  intro Hcap. unfold Memory.set, Memory.set_many_step.
  assert ((Memory._max_size self =? 0) = false) as -> by lia.
  cbn [andb fst snd bind].
  destruct (expiry now ttl) as [expires_at | err]; [| reflexivity].
  cbn [bind]. rewrite contains_getitem.
  destruct (OrderedDict.getitem k (Memory._cache self)) as [entry |] eqn:Hk.
  - rewrite andb_false_r. cbn [bind].
    now rewrite (setitem_move_to_end _ _ _ _ Hk), move_to_end_setitem.
  - rewrite andb_true_r.
    destruct (Z.of_nat (length (Memory._cache self)) >=? Memory._max_size self).
    + destruct (Memory._cache self) as [| [k0 v0] rest]; [reflexivity |].
      cbn [OrderedDict.popitem_first bind snd].
      simpl in Hk. destruct (Key.eqb k k0); [discriminate |].
      rewrite move_to_end_setitem, setitem_absent, delitem_absent by exact Hk.
      reflexivity.
    + cbn [bind].
      rewrite move_to_end_setitem, setitem_absent, delitem_absent by exact Hk.
      reflexivity.
Qed.

(** [set_many] computes the expiry once, before its loop, and each [set]
    of the sequential loop computes the same one. *)
Lemma Memory_set_many_sequential mapping ttl now expires_at :
  expiry now ttl = Return expires_at ->
  forall self : Memory.MemoryBackend,
    Memory.set_many mapping ttl now self = Base.set_many mapping ttl now self.
Proof.
  intros Hexp self. unfold Memory.set_many.
  destruct (Memory._max_size self =? 0) eqn:Hzero.
  - induction mapping as [| [k v] mapping IH]; [reflexivity |].
    cbn [Base.set_many]. simpl. unfold Memory.set. rewrite Hzero. exact IH.
  - apply Z.eqb_neq in Hzero. rewrite Hexp. cbn [bind].
    revert self Hzero.
    induction mapping as [| [k v] mapping IH]; intros self Hcap.
    + simpl. now rewrite Memory_with_cache_same.
    + cbn [Base.set_many fold_left]. simpl Base.set.
      rewrite (Memory_set_as_step k v ttl now self Hcap), Hexp. cbn [bind].
      destruct (Memory.set_many_step (Memory._max_size self)
                  expires_at (Return (Memory._cache self)) (k, v))
        as [c1 | e].
      * cbn [bind snd]. rewrite <- (IH (Memory.with_cache self c1) Hcap). reflexivity.
      * now rewrite set_many_raised.
Qed.

Lemma Memory_get_many_sequential now keys :
  forall result (self : Memory.MemoryBackend),
    (forall k e, In k keys ->
                 OrderedDict.getitem k (Memory._cache self) = Some (PyNone, e) ->
                 Memory.is_expired now e = true) ->
    (let r := fold_left (Memory.get_many_step now) keys (result, Memory._cache self) in
     (fst r, Memory.with_cache self (snd r)))
    = Base.get_many_loop keys now result self.
Proof.
  induction keys as [| key keys IH]; intros result self Hvals.
  - simpl. now rewrite Memory_with_cache_same.
  - cbn [fold_left Base.get_many_loop]. simpl Base.get. cbv zeta.
    assert (Hstep : Memory.get_many_step now (result, Memory._cache self) key
                    = match OrderedDict.getitem key (Memory._cache self) with
                      | None => (result, Memory._cache self)
                      | Some (value, expires_at) =>
                          if Memory.is_expired now expires_at
                          then (result, OrderedDict.delitem key (Memory._cache self))
                          else (OrderedDict.setitem key value result,
                                OrderedDict.move_to_end key (Memory._cache self))
                      end) by reflexivity.
    rewrite Hstep. clear Hstep. unfold Memory.get.
    destruct (OrderedDict.getitem key (Memory._cache self)) as [[v e] |] eqn:Hk.
    + destruct (Memory.is_expired now e) eqn:He.
      * cbn [is_none].
        rewrite <- (IH result
                      (Memory.with_cache self (OrderedDict.delitem key (Memory._cache self))));
          [reflexivity |].
        intros k e' Hin. cbn [Memory._cache Memory.with_cache]. intro Hget.
        destruct (Key.eqb key k) eqn:E.
        -- apply Key_eqb_eq in E. subst k. now rewrite getitem_delitem_same in Hget.
        -- apply Key_eqb_neq in E. rewrite getitem_delitem_other in Hget by exact E.
           apply (Hvals k e'); [now right | exact Hget].
      * assert (Hv : is_none v = false).
        { destruct v; try reflexivity.
          rewrite (Hvals key e) in He; [discriminate | now left | exact Hk]. }
        rewrite Hv.
        rewrite <- (IH (OrderedDict.setitem key v result)
                      (Memory.with_cache self (OrderedDict.move_to_end key (Memory._cache self))));
          [reflexivity |].
        intros k e' Hin. cbn [Memory._cache Memory.with_cache].
        rewrite getitem_move_to_end. apply Hvals. now right.
    + simpl is_none. cbv iota. apply IH.
      intros k e' Hin. apply Hvals. now right.
Qed.

(** What [get_many] puts in its result for a key. *)
Lemma Memory_get_many_result now keys :
  forall result (c : OrderedDict.t Memory.entry) k,
    OrderedDict.getitem k (fst (fold_left (Memory.get_many_step now) keys (result, c)))
    = if existsb (Key.eqb k) keys then
        match OrderedDict.getitem k c with
        | Some (v, e) =>
            if Memory.is_expired now e then OrderedDict.getitem k result else Some v
        | None => OrderedDict.getitem k result
        end
      else OrderedDict.getitem k result.
Proof.
  induction keys as [| key keys IH]; intros result c k; [reflexivity |].
  cbn [fold_left existsb]. unfold Memory.get_many_step at 2.
  destruct (OrderedDict.getitem key c) as [[v0 e0] |] eqn:Hkey.
  - destruct (Memory.is_expired now e0) eqn:He0.
    + rewrite IH. destruct (Key.eqb k key) eqn:E; cbn [orb].
      * apply Key_eqb_eq in E. subst k.
        rewrite getitem_delitem_same, Hkey, He0. now destruct (existsb (Key.eqb key) keys).
      * apply Key_eqb_neq in E.
        rewrite getitem_delitem_other by congruence. reflexivity.
    + rewrite IH, getitem_move_to_end. destruct (Key.eqb k key) eqn:E; cbn [orb].
      * apply Key_eqb_eq in E. subst k.
        rewrite Hkey, He0, getitem_setitem_same. now destruct (existsb (Key.eqb key) keys).
      * apply Key_eqb_neq in E.
        rewrite getitem_setitem_other by congruence. reflexivity.
  - rewrite IH. destruct (Key.eqb k key) eqn:E; cbn [orb]; [| reflexivity].
    apply Key_eqb_eq in E. subst k. rewrite Hkey. now destruct (existsb (Key.eqb key) keys).
Qed.

Lemma existsb_eqb_In k keys : existsb (Key.eqb k) keys = true <-> In k keys.
Proof.
  rewrite existsb_exists. split.
  - intros [x [Hx E]]. apply Key_eqb_eq in E. now subst x.
  - intro Hk. exists k. split; [exact Hk | apply Key_eqb_refl].
Qed.

(** [delete_many] counts the listed keys that are stored. *)
Lemma Memory_delete_many_count keys :
  NoDup keys ->
  forall count (self : Memory.MemoryBackend),
    fst (Base.delete_many_loop keys count self)
    = count + Z.of_nat (length (filter (fun k => OrderedDict.contains k (Memory._cache self))
                                  keys)).
Proof.
  induction 1 as [| key keys Hfresh _ IH]; intros count self.
  - simpl. lia.
  - cbn [Base.delete_many_loop filter]. simpl Base.delete. unfold Memory.delete.
    destruct (OrderedDict.contains key (Memory._cache self)) eqn:Hin.
    + rewrite IH. cbn [Memory._cache Memory.with_cache length].
      rewrite (filter_ext_in
                 (fun k => OrderedDict.contains k
                             (OrderedDict.delitem key (Memory._cache self)))
                 (fun k => OrderedDict.contains k (Memory._cache self))).
      * lia.
      * intros k Hk. rewrite !contains_getitem.
        rewrite getitem_delitem_other; [reflexivity |].
        intro E. subst k. contradiction.
    + apply IH.
Qed.

Lemma filter_split_one (p : CacheKey -> bool) (key : CacheKey) (l : list CacheKey) :
  NoDup l -> In key l -> p key = true ->
  length (filter p l)
  = S (length (filter (fun k => p k && negb (Key.eqb key k)) l)).
Proof.
  induction 1 as [| x l Hfresh Hnd IH]; [intros [] |].
  intros [-> | Hin] Hp; cbn [filter].
  - rewrite Hp, Key_eqb_refl. cbn [andb negb length]. f_equal.
    f_equal. apply filter_ext_in. intros k Hk.
    assert (Key.eqb key k = false) as -> by (apply Key_eqb_neq; congruence).
    now rewrite andb_true_r.
  - assert (Key.eqb key x = false) as -> by (apply Key_eqb_neq; congruence).
    rewrite andb_true_r. destruct (p x); cbn [length]; now rewrite (IH Hin Hp).
Qed.

(** [delete_many] counts each listed key that is stored once, however
    often the list names it. *)
Lemma Memory_delete_many_count_any keys :
  forall count (self : Memory.MemoryBackend),
    fst (Base.delete_many_loop keys count self)
    = count + Z.of_nat (length (filter (fun k => OrderedDict.contains k (Memory._cache self))
                                  (nodup Key.eq_dec keys))).
Proof.
  induction keys as [| key keys IH]; intros count self.
  - simpl. lia.
  - cbn [Base.delete_many_loop nodup]. simpl Base.delete. unfold Memory.delete.
    destruct (OrderedDict.contains key (Memory._cache self)) eqn:Hin.
    + rewrite IH. cbn [Memory._cache Memory.with_cache].
      assert (Hext : forall l,
                 filter (fun k => OrderedDict.contains k
                                    (OrderedDict.delitem key (Memory._cache self))) l
                 = filter (fun k => OrderedDict.contains k (Memory._cache self)
                                    && negb (Key.eqb key k)) l).
      { intro l. apply filter_ext. intro k. rewrite !contains_getitem.
        destruct (Key.eqb key k) eqn:E.
        - apply Key_eqb_eq in E. subst k.
          rewrite getitem_delitem_same. now rewrite andb_false_r.
        - apply Key_eqb_neq in E. rewrite getitem_delitem_other by congruence.
          now rewrite andb_true_r. }
      rewrite Hext.
      destruct (in_dec Key.eq_dec key keys) as [Hdup | Hfresh].
      * rewrite (filter_split_one (fun k => OrderedDict.contains k (Memory._cache self))
                   key (nodup Key.eq_dec keys));
          [cbv beta; lia | apply NoDup_nodup | now apply nodup_In | exact Hin].
      * cbn [filter]. rewrite Hin. cbn [length].
        rewrite (filter_ext_in
                   (fun k => OrderedDict.contains k (Memory._cache self)
                             && negb (Key.eqb key k))
                   (fun k => OrderedDict.contains k (Memory._cache self))); [lia |].
        intros k Hk. apply nodup_In in Hk.
        assert (Key.eqb key k = false) as -> by (apply Key_eqb_neq; congruence).
        now rewrite andb_true_r.
    + rewrite IH.
      destruct (in_dec Key.eq_dec key keys) as [Hdup | Hfresh]; [reflexivity |].
      cbn [filter]. now rewrite Hin.
Qed.

(** C8, as the engines have it.  On the memory engine, at one clock
    reading: [set_many] with a time to live that converts to a float is
    the sequential application of [set]; [get_many] is the sequential
    application of [get] (the loop of the base class) provided no requested
    unexpired entry stores [None]; its result maps a requested key whose
    unexpired entry holds a value other than [None] to that value, and has
    no key that was not requested or that has no unexpired entry;
    [delete_many], which is the loop of the base class over [delete],
    returns the number of distinct listed keys that were stored, expired
    ones included. *)
Theorem C8_batch_operations :
  (forall mapping ttl now expires_at (self : Memory.MemoryBackend),
      expiry now ttl = Return expires_at ->
      Memory.set_many mapping ttl now self = Base.set_many mapping ttl now self)
  /\
  (forall keys now (self : Memory.MemoryBackend),
      (forall k e, In k keys ->
                   OrderedDict.getitem k (Memory._cache self) = Some (PyNone, e) ->
                   Memory.is_expired now e = true) ->
      Memory.get_many keys now self = Base.get_many keys now self)
  /\
  (forall keys now (self : Memory.MemoryBackend) k,
      (forall v e, In k keys ->
                   OrderedDict.getitem k (Memory._cache self) = Some (v, e) ->
                   Memory.is_expired now e = false ->
                   v <> PyNone ->
                   OrderedDict.getitem k (fst (Memory.get_many keys now self)) = Some v) /\
      (~ In k keys \/ History.hit k now self = false ->
       OrderedDict.getitem k (fst (Memory.get_many keys now self)) = None))
  /\
  (forall keys (self : Memory.MemoryBackend),
      fst (Base.delete_many keys self)
      = Z.of_nat (length (filter (fun k => OrderedDict.contains k (Memory._cache self))
                            (nodup Key.eq_dec keys)))).
Proof.
  split; [| split; [| split]].
  - intros mapping ttl now expires_at self Hexp.
    now apply (Memory_set_many_sequential mapping ttl now expires_at).
  - intros keys now self Hvals.
    exact (Memory_get_many_sequential now keys [] self Hvals).
  - intros keys now self k. unfold Memory.get_many. cbn [fst].
    rewrite Memory_get_many_result. split.
    + intros v e Hin Hk He _.
      apply existsb_eqb_In in Hin. now rewrite Hin, Hk, He.
    + intros [Hout | Hmiss].
      * destruct (existsb (Key.eqb k) keys) eqn:E; [| reflexivity].
        apply existsb_eqb_In in E. contradiction.
      * unfold History.hit in Hmiss.
        destruct (existsb (Key.eqb k) keys); [| reflexivity].
        destruct (OrderedDict.getitem k (Memory._cache self)) as [[v e] |]; [| reflexivity].
        apply negb_false_iff in Hmiss. now rewrite Hmiss.
  - intros keys self. unfold Base.delete_many.
    now rewrite (Memory_delete_many_count_any keys 0 self).
Qed.

Lemma C8_witness :
  Memory.set_many [(KStr "a", PyInt 1); (KStr "b", PyInt 2)] (Some 60) 100 (Memory.init 5)
  = Base.set_many [(KStr "a", PyInt 1); (KStr "b", PyInt 2)] (Some 60) 100%Q (Memory.init 5)
  /\
  Memory.get_many [KStr "a"; KStr "b"; KStr "z"] 100
    (Memory.mkMemoryBackend 5
       [(KStr "a", (PyInt 1, None)); (KStr "b", (PyInt 2, Some 50%Q))] false (Some true))
  = Base.get_many [KStr "a"; KStr "b"; KStr "z"] 100%Q
      (Memory.mkMemoryBackend 5
         [(KStr "a", (PyInt 1, None)); (KStr "b", (PyInt 2, Some 50%Q))] false (Some true))
  /\
  OrderedDict.getitem "a"
    (fst (Memory.get_many [KStr "a"; KStr "b"; KStr "z"] 100
            (Memory.mkMemoryBackend 5
               [(KStr "a", (PyInt 1, None)); (KStr "b", (PyInt 2, Some 50%Q))]
               false (Some true))))
  = Some (PyInt 1)
  /\
  OrderedDict.getitem "b"
    (fst (Memory.get_many [KStr "a"; KStr "b"; KStr "z"] 100
            (Memory.mkMemoryBackend 5
               [(KStr "a", (PyInt 1, None)); (KStr "b", (PyInt 2, Some 50%Q))]
               false (Some true))))
  = None
  /\
  fst (Base.delete_many [KStr "a"; KStr "z"; KStr "a"]
         (Memory.mkMemoryBackend 5
            [(KStr "a", (PyInt 1, None)); (KStr "b", (PyInt 2, Some 50%Q))]
            false (Some true)))
  = 1.
Proof.
  destruct C8_batch_operations as (Hset & Hget & Hres & Hdel).
  split; [| split; [| split; [| split]]].
  - apply (Hset _ (Some 60) 100%Q (Some 160%Q)). reflexivity.
  - apply Hget. intros k e Hin Hk. simpl in Hk.
    destruct (Key.eqb k "a"); [discriminate |].
    destruct (Key.eqb k "b"); discriminate.
  - apply (proj1 (Hres _ _ _ _) (PyInt 1) None);
      [simpl; auto | reflexivity | reflexivity | discriminate].
  - apply (proj2 (Hres _ _ _ _)). right. reflexivity.
  - apply (Hdel [KStr "a"; KStr "z"; KStr "a"]).
Defined.

(** C8 as stated fails on the memory engine.  [delete_many] counts an
    entry that has expired and is no longer live; and [set_many] of two
    pairs into an engine of capacity 1 leaves only the second stored. *)
Lemma C8_counterexample :
  let holds_expired :=
    Memory.mkMemoryBackend 5 [(KStr "k", (PyStr "v", Some 50%Q))] false (Some true) in
  fst (Memory.get "k" 100 holds_expired) = PyNone /\
  fst (Base.delete_many [KStr "k"] holds_expired) = 1 /\
  Memory.set_many [(KStr "a", PyInt 1); (KStr "b", PyInt 2)] None 100 (Memory.init 1)
  = Return (Memory.mkMemoryBackend 1 [(KStr "b", (PyInt 2, None))] false (Some true)).
Proof. repeat split. Qed.

(** ** The lock *)

Lemma value_eqb_eq (a b : CacheValue) : value_eqb a b = true <-> a = b.
Proof.
  destruct a, b; simpl; try (split; [discriminate | intro E; discriminate E]);
    try (split; reflexivity).
  - rewrite String.eqb_eq. split; congruence.
  - rewrite Z.eqb_eq. split; congruence.
  - rewrite Bool.eqb_true_iff. split; congruence.
Qed.

(** C9.  On every engine, [release] of a lock that never acquired makes no
    call on the backend and returns it unchanged.  [release] of a lock
    that did acquire reads the key and calls [delete] only when the value
    read is its own token; otherwise the backend is left as the read left
    it.  On the memory engine a live record that holds another token is
    still stored after [release], whereas a live record with the lock's own
    token is removed. *)
Theorem C9_release_ownership :
  (forall (B : Type) (E : Base.BaseBackend B) (self : Lock.DistributedLock)
          (now : Timestamp) (backend : B),
      Lock._locked self = false ->
      Lock.release self now backend = (self, backend))
  /\
  (forall (B : Type) (E : Base.BaseBackend B) (self : Lock.DistributedLock)
          (now : Timestamp) (backend : B),
      Lock._locked self = true ->
      (fst (Base.get (Lock.name self) now backend) = PyStr (Lock.identifier self) /\
       Lock.release self now backend
       = (Lock.with_locked self false,
          snd (Base.delete (Lock.name self)
                 (snd (Base.get (Lock.name self) now backend)))))
      \/
      (fst (Base.get (Lock.name self) now backend) <> PyStr (Lock.identifier self) /\
       Lock.release self now backend
       = (self, snd (Base.get (Lock.name self) now backend))))
  /\
  (forall (self : Lock.DistributedLock) (now : Timestamp)
          (backend : Memory.MemoryBackend) v e,
      OrderedDict.getitem (Lock.name self) (Memory._cache backend) = Some (v, e) ->
      Memory.is_expired now e = false ->
      (v <> PyStr (Lock.identifier self) ->
       fst (Lock.release self now backend) = self /\
       OrderedDict.getitem (Lock.name self)
         (Memory._cache (snd (Lock.release self now backend))) = Some (v, e)) /\
      (v = PyStr (Lock.identifier self) -> Lock._locked self = true ->
       Lock._locked (fst (Lock.release self now backend)) = false /\
       OrderedDict.getitem (Lock.name self)
         (Memory._cache (snd (Lock.release self now backend))) = None)).
Proof.
  split; [| split].
  - intros B E self now backend Hfree. unfold Lock.release. now rewrite Hfree.
  - intros B E self now backend Hheld. unfold Lock.release. rewrite Hheld. cbn [negb].
    destruct (Base.get (Lock.name self) now backend) as [current backend1]. cbn [fst snd].
    destruct (value_eqb current (PyStr (Lock.identifier self))) eqn:Hown.
    + left. apply value_eqb_eq in Hown. split; [exact Hown |].
      now destruct (Base.delete (Lock.name self) backend1).
    + right. split; [| reflexivity].
      intro Heq. apply value_eqb_eq in Heq. congruence.
  - intros self now backend v e Hk He. unfold Lock.release. simpl Base.get. simpl Base.delete.
    unfold Memory.get. rewrite Hk, He. split.
    + intro Hother.
      assert (value_eqb v (PyStr (Lock.identifier self)) = false) as Hneq.
      { destruct (value_eqb v (PyStr (Lock.identifier self))) eqn:Hv; [| reflexivity].
        apply value_eqb_eq in Hv. contradiction. }
      destruct (Lock._locked self); cbn [negb]; [| now split].
      rewrite Hneq. cbn [fst snd Memory._cache Memory.with_cache].
      split; [reflexivity |]. now rewrite getitem_move_to_end.
    + intros -> Hheld. rewrite Hheld. cbn [negb].
      assert (value_eqb (PyStr (Lock.identifier self)) (PyStr (Lock.identifier self)) = true)
        as -> by now apply value_eqb_eq.
      unfold Memory.delete. cbn [Memory._cache Memory.with_cache].
      rewrite contains_getitem, getitem_move_to_end, Hk.
      cbn [fst snd Lock._locked Lock.with_locked Memory._cache Memory.with_cache].
      split; [reflexivity | apply getitem_delitem_same].
Qed.

Lemma C9_witness :
  let held :=
    Memory.mkMemoryBackend 5
      [(KStr "lock:job", (PyStr "owner-1", Some 110%Q))] false (Some true) in
  let stranger := Lock.init "job" 10 true None "owner-2" in
  let owner := Lock.with_locked (Lock.init "job" 10 true None "owner-1") true in
  Lock.release stranger 105 held = (stranger, held) /\
  OrderedDict.getitem "lock:job"
    (Memory._cache (snd (Lock.release (Lock.with_locked stranger true) 105 held)))
  = Some (PyStr "owner-1", Some 110%Q) /\
  OrderedDict.getitem "lock:job" (Memory._cache (snd (Lock.release owner 105 held))) = None.
Proof.
  cbv zeta. destruct C9_release_ownership as (Hfree & _ & Hmem).
  split; [| split].
  - apply Hfree. reflexivity.
  - apply (proj1 (Hmem (Lock.with_locked (Lock.init "job" 10 true None "owner-2") true)
                    105%Q
                    (Memory.mkMemoryBackend 5
                       [(KStr "lock:job", (PyStr "owner-1", Some 110%Q))] false (Some true))
                    (PyStr "owner-1") (Some 110%Q) eq_refl eq_refl)).
    discriminate.
  - apply (proj2 (Hmem (Lock.with_locked (Lock.init "job" 10 true None "owner-1") true)
                    105%Q
                    (Memory.mkMemoryBackend 5
                       [(KStr "lock:job", (PyStr "owner-1", Some 110%Q))] false (Some true))
                    (PyStr "owner-1") (Some 110%Q) eq_refl eq_refl));
      reflexivity.
Defined.

(** ** A stored [None] on the memory engine *)

(** C10 does not hold in one place.  After a successful [set(key, None)]
    on a memory engine of any positive capacity, [get(key)] returns
    [None], [exists(key)] is false and [delete(key)] returns true, as the
    claim says; [get_many], however, does not omit the key: its result is
    [{key: None}], where the loop of the base class over [get], which this
    method replaces, gives the empty dictionary. *)
Theorem C10_get_many_returns_stored_none :
  forall (key : CacheKey) (capacity : positive) (now t : Timestamp),
    exists self1,
      Memory.set key PyNone None false false now (Memory.init (Zpos capacity))
      = Return (true, self1) /\
      fst (Memory.get key t self1) = PyNone /\
      fst (Memory.exists_ key t self1) = false /\
      fst (Memory.delete key self1) = true /\
      fst (Memory.get_many [key] t self1) = [(key, PyNone)] /\
      fst (Base.get_many [key] t self1) = [].
Proof.
  intros key capacity now t.
  exists (Memory.with_cache (Memory.init (Zpos capacity)) [(key, (PyNone, None))]).
  assert (Hset : Memory.set key PyNone None false false now (Memory.init (Zpos capacity))
                 = Return (true,
                           Memory.with_cache (Memory.init (Zpos capacity))
                             [(key, (PyNone, None))])).
  { unfold Memory.set. cbn [Memory._max_size Memory.init Memory._cache Z.eqb andb
                             OrderedDict.contains expiry bind length Z.of_nat].
    now destruct capacity. }
  split; [exact Hset |].
  unfold Memory.get, Memory.exists_, Memory.delete, Memory.get_many, Base.get_many.
  cbn [Memory._cache Memory.with_cache OrderedDict.getitem OrderedDict.contains
       fold_left Memory.get_many_step Base.get_many_loop].
  simpl Base.get. unfold Memory.get.
  cbn [Memory._cache Memory.with_cache OrderedDict.getitem].
  rewrite Key_eqb_refl. cbn [Memory.is_expired fst snd is_none negb OrderedDict.setitem].
  repeat split.
Qed.

(** * Further properties of the engines *)

(** ** The memory engine stays a dictionary within its capacity *)

Lemma contains_In_keys {V : Type} (k : CacheKey) (d : OrderedDict.t V) :
  OrderedDict.contains k d = true <-> In k (OrderedDict.keys d).
Proof.
  rewrite contains_getitem. pose proof (getitem_None_keys k d) as Hnone.
  destruct (OrderedDict.getitem k d).
  - split; [intros _ | reflexivity].
    destruct (in_dec Key.eq_dec k (OrderedDict.keys d)) as [Hin | Hout]; [exact Hin |].
    apply Hnone in Hout. discriminate.
  - split; [discriminate |]. intro Hin. now apply Hnone in Hin.
Qed.

Lemma keys_length {V : Type} (d : OrderedDict.t V) :
  length (OrderedDict.keys d) = length d.
Proof. apply length_map. Qed.

Lemma remove_key_length_le k l : (length (remove_key k l) <= length l)%nat.
Proof.
  unfold remove_key. induction l as [| x l IH]; simpl; [lia |].
  destruct (Key.eqb k x); simpl; lia.
Qed.

Lemma remove_key_length_lt k l : In k l -> (length (remove_key k l) < length l)%nat.
Proof.
  induction l as [| x l IH]; [intros [] |].
  pose proof (remove_key_length_le k l) as Hle.
  unfold remove_key in *. simpl.
  intros [-> | Hin].
  - rewrite Key_eqb_refl. simpl. lia.
  - specialize (IH Hin). destruct (Key.eqb k x); simpl; lia.
Qed.

Lemma NoDup_remove_key k l : NoDup l -> NoDup (remove_key k l).
Proof. apply NoDup_filter. Qed.

Lemma NoDup_touch k l : NoDup l -> NoDup (touch l k).
Proof.
  intro Hnd. unfold touch. apply NoDup_app.
  - now apply NoDup_remove_key.
  - repeat constructor. intros [].
  - intros x Hx [<- | []]. apply remove_key_In in Hx. tauto.
Qed.

Lemma touch_length_present k l : In k l -> (length (touch l k) <= length l)%nat.
Proof.
  intro Hin. unfold touch. rewrite length_app. simpl.
  pose proof (remove_key_length_lt k l Hin). lia.
Qed.

Lemma touch_length_any k l : (length (touch l k) <= S (length l))%nat.
Proof.
  unfold touch. rewrite length_app. simpl.
  pose proof (remove_key_length_le k l). lia.
Qed.

(** A write that succeeds puts the entry at the end of the map it found,
    after evicting the head when the key is new and the map is full. *)
Lemma Memory_set_cases key value ttl ex nx now self r self1 :
  Memory.set key value ttl ex nx now self = Return (r, self1) ->
  (r = false /\ self1 = self) \/
  (r = true /\ Memory._max_size self <> 0 /\
   exists c0 expires_at,
     expiry now ttl = Return expires_at /\
     self1 = Memory.with_cache self
               (OrderedDict.delitem key c0 ++ [(key, (value, expires_at))]) /\
     ((c0 = Memory._cache self /\
       (OrderedDict.contains key c0 = true \/
        Z.of_nat (length c0) < Memory._max_size self)) \/
      (OrderedDict.contains key (Memory._cache self) = false /\
       Memory._max_size self <= Z.of_nat (length (Memory._cache self)) /\
       exists kv, Memory._cache self = kv :: c0))).
Proof.
  unfold Memory.set. intro Hset.
  destruct (Memory._max_size self =? 0) eqn:Hzero.
  { injection Hset as <- <-. now left. }
  apply Z.eqb_neq in Hzero.
  rewrite contains_getitem in Hset.
  destruct (OrderedDict.getitem key (Memory._cache self)) as [[v e] |] eqn:Hk.
  - assert (Hin : OrderedDict.contains key (Memory._cache self) = true)
      by now rewrite contains_getitem, Hk.
    assert (Hgo : (expires_at <- expiry now ttl ;;
                   Return (true, Memory.with_cache self
                      (OrderedDict.setitem key (value, expires_at)
                         (OrderedDict.move_to_end key (Memory._cache self)))))
                  = Return (r, self1) ->
                  r = true /\ Memory._max_size self <> 0 /\
                  exists c0 expires_at,
                    expiry now ttl = Return expires_at /\
                    self1 = Memory.with_cache self
                      (OrderedDict.delitem key c0 ++ [(key, (value, expires_at))]) /\
                    ((c0 = Memory._cache self /\
                      (OrderedDict.contains key c0 = true \/
                       Z.of_nat (length c0) < Memory._max_size self)) \/
                     (OrderedDict.contains key (Memory._cache self) = false /\
                      Memory._max_size self <= Z.of_nat (length (Memory._cache self)) /\
                      exists kv, Memory._cache self = kv :: c0))).
    { intro H. destruct (expiry now ttl) as [expires_at | err]; [| discriminate].
      cbn [bind] in H. injection H as <- <-.
      split; [reflexivity |]. split; [exact Hzero |].
      exists (Memory._cache self), expires_at.
      rewrite (setitem_move_to_end _ _ _ _ Hk).
      split; [reflexivity |]. split; [reflexivity |].
      left. split; [reflexivity | now left]. }
    destruct (nx && true); [destruct (Memory.nx_blocks now e) |].
    + injection Hset as <- <-. now left.
    + right. now apply Hgo.
    + right. now apply Hgo.
  - rewrite andb_false_r in Hset.
    assert (Hout : OrderedDict.contains key (Memory._cache self) = false)
      by now rewrite contains_getitem, Hk.
    destruct (expiry now ttl) as [expires_at | err]; [| discriminate].
    cbn [bind] in Hset.
    destruct (Z.of_nat (length (Memory._cache self)) >=? Memory._max_size self) eqn:Hfull.
    + apply Z.geb_le in Hfull.
      destruct (Memory._cache self) as [| kv rest] eqn:Hc; [discriminate |].
      simpl in Hset. injection Hset as <- <-. right.
      split; [reflexivity |]. split; [exact Hzero |].
      exists rest, expires_at.
      assert (Hrest : OrderedDict.getitem key rest = None).
      { destruct kv as [k0 v0]. simpl in Hk.
        destruct (Key.eqb key k0); [discriminate | exact Hk]. }
      rewrite setitem_absent, delitem_absent by exact Hrest.
      split; [reflexivity |]. split; [reflexivity |]. right.
      split; [exact Hout |]. split; [exact Hfull | now exists kv].
    + injection Hset as <- <-. right.
      split; [reflexivity |]. split; [exact Hzero |].
      exists (Memory._cache self), expires_at.
      rewrite setitem_absent, delitem_absent by exact Hk.
      split; [reflexivity |]. split; [reflexivity |].
      left. split; [reflexivity |].
      right. rewrite Z.geb_leb in Hfull. apply Z.leb_gt in Hfull. exact Hfull.
Qed.

Lemma Subseq_length {A : Type} (l1 l2 : list A) :
  Subseq l1 l2 -> (length l1 <= length l2)%nat.
Proof. induction 1; simpl; lia. Qed.

Lemma Subseq_NoDup {A : Type} (l1 l2 : list A) :
  Subseq l1 l2 -> NoDup l2 -> NoDup l1.
Proof.
  induction 1 as [| x l1 l2 Hsub IH | x l1 l2 Hsub IH]; intro Hnd.
  - constructor.
  - apply IH. now inversion Hnd.
  - inversion Hnd as [| y l Hout Hrest]; subst. constructor; [| now apply IH].
    intro Hin. apply Hout. now apply (Subseq_In l1 l2).
Qed.

Lemma Memory_wf_keys self (c : OrderedDict.t Memory.entry) :
  0 <= Memory._max_size self ->
  NoDup (OrderedDict.keys c) ->
  Z.of_nat (length (OrderedDict.keys c)) <= Memory._max_size self ->
  Memory_wf (Memory.with_cache self c).
Proof.
  intros Hcap Hnd Hlen. unfold Memory_wf, Memory.len_. simpl.
  rewrite <- keys_length. now repeat split.
Qed.

Lemma Memory_wf_sub self (c : OrderedDict.t Memory.entry) :
  Memory_wf self ->
  Subseq (OrderedDict.keys c) (OrderedDict.keys (Memory._cache self)) ->
  Memory_wf (Memory.with_cache self c).
Proof.
  intros (Hnd & Hcap & Hlen) Hsub. apply Memory_wf_keys.
  - exact Hcap.
  - now apply (Subseq_NoDup _ _ Hsub).
  - apply Subseq_length in Hsub. unfold Memory.len_ in Hlen.
    rewrite !keys_length in Hsub. rewrite keys_length. lia.
Qed.

Lemma Memory_wf_move key v self :
  Memory_wf self ->
  OrderedDict.getitem key (Memory._cache self) = Some v ->
  Memory_wf (Memory.with_cache self (OrderedDict.move_to_end key (Memory._cache self))).
Proof.
  intros (Hnd & Hcap & Hlen) Hk. apply Memory_wf_keys; [exact Hcap | |].
  - rewrite (keys_move_to_end _ _ _ Hk). now apply NoDup_touch.
  - rewrite (keys_move_to_end _ _ _ Hk).
    assert (Hin : In key (OrderedDict.keys (Memory._cache self))).
    { apply contains_In_keys. now rewrite contains_getitem, Hk. }
    pose proof (touch_length_present key _ Hin) as Hle.
    unfold Memory.len_ in Hlen. rewrite keys_length in Hle. lia.
Qed.

Lemma Memory_get_wf key now self :
  Memory_wf self -> Memory_wf (snd (Memory.get key now self)).
Proof.
  intro Hwf. unfold Memory.get.
  destruct (OrderedDict.getitem key (Memory._cache self)) as [[v e] |] eqn:Hk;
    [| exact Hwf].
  destruct (Memory.is_expired now e); simpl.
  - apply Memory_wf_sub; [exact Hwf | apply Subseq_keys_delitem].
  - now apply (Memory_wf_move key (v, e)).
Qed.

Lemma Memory_set_wf key value ttl ex nx now self r self1 :
  Memory.set key value ttl ex nx now self = Return (r, self1) ->
  Memory_wf self -> Memory_wf self1.
Proof.
  intros Hset Hwf.
  apply Memory_set_cases in Hset as [[_ ->] | (_ & Hzero & c0 & e1 & _ & -> & Hcase)];
    [exact Hwf |].
  destruct Hwf as (Hnd & Hcap & Hlen). unfold Memory.len_ in Hlen.
  apply Memory_wf_keys; [exact Hcap | |]; rewrite keys_snoc.
  - apply NoDup_touch.
    destruct Hcase as [[-> _] | (_ & _ & kv & Hc)]; [exact Hnd |].
    rewrite Hc in Hnd. simpl in Hnd. now inversion Hnd.
  - destruct Hcase as [[-> [Hin | Hroom]] | (_ & _ & kv & Hc)].
    + apply contains_In_keys in Hin.
      pose proof (touch_length_present key _ Hin) as Hle.
      rewrite keys_length in Hle. unfold Memory.entry in *. lia.
    + pose proof (touch_length_any key (OrderedDict.keys (Memory._cache self))) as Hle.
      rewrite keys_length in Hle. unfold Memory.entry in *. lia.
    + pose proof (touch_length_any key (OrderedDict.keys c0)) as Hle.
      rewrite keys_length in Hle. rewrite Hc in Hlen. simpl length in Hlen.
      unfold Memory.entry in *. lia.
Qed.

Lemma Memory_set_many_wf mapping ttl now :
  forall self self1,
    Memory.set_many mapping ttl now self = Return self1 ->
    Memory_wf self -> Memory_wf self1.
Proof.
  intros self self1.
  destruct (expiry now ttl) as [expires_at | err] eqn:Hexp.
  2:{ unfold Memory.set_many. rewrite Hexp.
      destruct (Memory._max_size self =? 0); [| discriminate].
      intros Hrun Hwf. now injection Hrun as <-. }
  rewrite (Memory_set_many_sequential _ _ _ _ Hexp). revert self.
  induction mapping as [| [k v] mapping IH]; intros self Hrun Hwf.
  - simpl in Hrun. now injection Hrun as <-.
  - cbn [Base.set_many] in Hrun. simpl Base.set in Hrun.
    destruct (Memory.set k v ttl false false now self) as [[r self2] | e] eqn:Hset;
      [| discriminate].
    cbn [bind snd] in Hrun. apply (IH self2 Hrun).
    now apply (Memory_set_wf _ _ _ _ _ _ _ _ _ Hset).
Qed.

Lemma Memory_get_many_wf now keys self :
  Memory_wf self -> Memory_wf (snd (Memory.get_many keys now self)).
Proof.
  unfold Memory.get_many. cbn [snd].
  assert (Hgen : forall result c,
             Memory_wf (Memory.with_cache self c) ->
             Memory_wf (Memory.with_cache self
                          (snd (fold_left (Memory.get_many_step now) keys (result, c))))).
  { induction keys as [| key keys IH]; intros result c Hwf; [exact Hwf |].
    cbn [fold_left]. unfold Memory.get_many_step at 2.
    destruct (OrderedDict.getitem key c) as [[v e] |] eqn:Hk; [| now apply IH].
    destruct (Memory.is_expired now e); apply IH.
    - apply (Memory_wf_sub (Memory.with_cache self c)); [exact Hwf |].
      apply Subseq_keys_delitem.
    - now apply (Memory_wf_move key (v, e) (Memory.with_cache self c)). }
  intro Hwf. apply Hgen. now rewrite Memory_with_cache_same.
Qed.

(** With positive capacity a write returns whenever its time to live
    converts to a float. *)
Lemma Memory_set_returns key value ttl ex nx now self expires_at :
  0 < Memory._max_size self ->
  expiry now ttl = Return expires_at ->
  exists r self1, Memory.set key value ttl ex nx now self = Return (r, self1).
Proof.
  intros Hcap Hexp. unfold Memory.set. rewrite Hexp. cbn [bind].
  assert ((Memory._max_size self =? 0) = false) as -> by lia.
  match goal with |- context [if ?b then Return (false, self) else _] => destruct b end;
    [now eauto |].
  destruct (OrderedDict.contains key (Memory._cache self)); [now eauto |].
  destruct (Z.of_nat (length (Memory._cache self)) >=? Memory._max_size self) eqn:Hfull;
    [| now eauto].
  destruct (Memory._cache self) as [| kv c]; [simpl in Hfull; lia |].
  simpl. now eauto.
Qed.

Lemma step_wf c self self1 :
  History.step c self = Return self1 -> Memory_wf self -> Memory_wf self1.
Proof.
  destruct c as [key now | key now | key value ttl ex nx now | key | | keys now
                | mapping ttl now | now]; simpl; intros Hstep Hwf.
  - injection Hstep as <-. now apply Memory_get_wf.
  - injection Hstep as <-. now apply Memory_get_wf.
  - destruct (Memory.set key value ttl ex nx now self) as [[r self2] | e] eqn:Hset;
      [| discriminate].
    simpl in Hstep. injection Hstep as <-.
    now apply (Memory_set_wf _ _ _ _ _ _ _ _ _ Hset).
  - injection Hstep as <-. unfold Memory.delete.
    destruct (OrderedDict.contains key (Memory._cache self)); [| exact Hwf].
    apply Memory_wf_sub; [exact Hwf | apply Subseq_keys_delitem].
  - injection Hstep as <-. apply Memory_wf_sub; [exact Hwf | apply Subseq_nil_l].
  - injection Hstep as <-. now apply Memory_get_many_wf.
  - now apply (Memory_set_many_wf _ _ _ _ _ Hstep).
  - injection Hstep as <-.
    apply Memory_wf_sub; [exact Hwf | apply Subseq_keys_delitems].
Qed.

(** On a well-formed engine a call whose time to live converts returns. *)
Lemma Memory_set_returns_wf key value ttl ex nx now self expires_at :
  Memory_wf self ->
  expiry now ttl = Return expires_at ->
  exists r self1, Memory.set key value ttl ex nx now self = Return (r, self1).
Proof.
  intros (_ & Hmax & _) Hexp.
  destruct (Z.eq_dec (Memory._max_size self) 0) as [Hz | Hnz].
  - unfold Memory.set. rewrite Hz. cbn [Z.eqb]. now eauto.
  - apply (Memory_set_returns _ _ _ _ _ _ _ expires_at); [lia | exact Hexp].
Qed.

Lemma step_returns c self :
  Memory_wf self -> History.ttl_converts c = true ->
  exists self1, History.step c self = Return self1.
Proof.
  intros Hwf Hconv.
  destruct c as [key now | key now | key value ttl ex nx now | key | | keys now
                | mapping ttl now | now]; simpl; try (now eauto).
  - cbn [History.ttl_converts] in Hconv.
    destruct (expiry now ttl) as [expires_at | err] eqn:Hexp; [| discriminate].
    destruct (Memory_set_returns_wf key value ttl ex nx now self expires_at Hwf Hexp)
      as (r & self1 & ->).
    simpl. now eauto.
  - cbn [History.ttl_converts] in Hconv.
    destruct (expiry now ttl) as [expires_at | err] eqn:Hexp; [| discriminate].
    rewrite (Memory_set_many_sequential _ _ _ _ Hexp). revert self Hwf.
    induction mapping as [| [k v] mapping IH]; intros self Hwf; [simpl; now eauto |].
    cbn [Base.set_many]. simpl Base.set.
    destruct (Memory_set_returns_wf k v ttl false false now self expires_at Hwf Hexp)
      as (r & self1 & Hset).
    rewrite Hset. cbn [bind snd]. apply IH.
    now apply (Memory_set_wf _ _ _ _ _ _ _ _ _ Hset).
Qed.

Lemma step_max_size c self self1 :
  History.step c self = Return self1 ->
  Memory._max_size self1 = Memory._max_size self.
Proof.
  destruct c as [key now | key now | key value ttl ex nx now | key | | keys now
                | mapping ttl now | now]; simpl; intro Hstep;
    try (injection Hstep as <-; reflexivity).
  - injection Hstep as <-. unfold Memory.get.
    destruct (OrderedDict.getitem _ _) as [[v e] |]; [| reflexivity].
    now destruct (Memory.is_expired now e).
  - injection Hstep as <-. unfold Memory.get.
    destruct (OrderedDict.getitem _ _) as [[v e] |]; [| reflexivity].
    now destruct (Memory.is_expired now e).
  - destruct (Memory.set key value ttl ex nx now self) as [[r self2] | e] eqn:Hset;
      [| discriminate].
    simpl in Hstep. injection Hstep as <-.
    apply Memory_set_cases in Hset as [[_ ->] | (_ & _ & c0 & e1 & _ & -> & _)]; reflexivity.
  - injection Hstep as <-. unfold Memory.delete.
    now destruct (OrderedDict.contains key (Memory._cache self)).
  - unfold Memory.set_many in Hstep.
    destruct (Memory._max_size self =? 0); [now injection Hstep as <- |].
    destruct (expiry now ttl) as [expires_at | err]; [| discriminate].
    cbn [bind] in Hstep.
    destruct (fold_left _ mapping _) as [c1 | e]; [| discriminate].
    simpl in Hstep. now injection Hstep as <-.
Qed.

(** However a well-formed engine (one key per entry, no more entries than
    a capacity that is not negative) is used, a history of calls that
    returns leaves an engine that stores no more entries than its capacity
    and no two entries under one key; and the history does return when the
    time to live of every write converts to a float (the sum
    [time.time() + ttl] raises [OverflowError] otherwise). *)
Theorem Memory_capacity_invariant :
  forall calls self,
    Memory_wf self ->
    (forall log self1,
        History.run calls self = Return (log, self1) ->
        Memory.len_ self1 <= Memory._max_size self /\
        NoDup (OrderedDict.keys (Memory._cache self1)) /\
        Memory._max_size self1 = Memory._max_size self) /\
    (forallb History.ttl_converts calls = true ->
     exists log self1, History.run calls self = Return (log, self1)).
Proof.
  induction calls as [| c calls IH]; intros self Hwf.
  - split.
    + intros log self1 Hrun. injection Hrun as _ <-.
      destruct Hwf as (Hnd & _ & Hlen). now repeat split.
    + intros _. now exists [], self.
  - split.
    + intros log self1 Hrun. cbn [History.run] in Hrun.
      destruct (History.step c self) as [self2 | err] eqn:Hstep; [| discriminate].
      cbn [bind] in Hrun.
      destruct (History.run calls self2) as [[log2 self3] | err] eqn:Hrest;
        [| discriminate].
      cbn [bind fst snd] in Hrun. injection Hrun as _ <-.
      destruct (IH self2 (step_wf c self self2 Hstep Hwf)) as [Hinv _].
      specialize (Hinv log2 self3 Hrest).
      rewrite <- (step_max_size _ _ _ Hstep). exact Hinv.
    + cbn [forallb]. intro Hconv. apply andb_prop in Hconv as [Hc Hrest].
      destruct (step_returns c self Hwf Hc) as [self2 Hstep].
      destruct (IH self2 (step_wf c self self2 Hstep Hwf)) as [_ Hret].
      destruct (Hret Hrest) as (log2 & self3 & Hrun).
      exists (History.touches c self ++ log2), self3.
      cbn [History.run]. rewrite Hstep. cbn [bind]. rewrite Hrun. reflexivity.
Qed.

Lemma Memory_capacity_invariant_witness :
  exists log self1,
    History.run
      [History.CSet "a" (PyInt 1) (Some 60) false false 0;
       History.CSetMany [(KStr "b", PyInt 2); (KStr "c", PyInt 3)] None 1]
      (Memory.init 2)
    = Return (log, self1) /\
    Memory.len_ self1 <= 2.
Proof.
  assert (Hwf : Memory_wf (Memory.init 2)).
  { unfold Memory_wf, Memory.len_. simpl. repeat split; [constructor | lia | lia]. }
  destruct (Memory_capacity_invariant
              [History.CSet "a" (PyInt 1) (Some 60) false false 0;
               History.CSetMany [(KStr "b", PyInt 2); (KStr "c", PyInt 3)] None 1]
              (Memory.init 2) Hwf)
    as [Hinv Hret].
  destruct (Hret ltac:(vm_compute; reflexivity)) as (log & self1 & Hrun).
  exists log, self1. split; [exact Hrun |].
  now destruct (Hinv log self1 Hrun) as (Hlen & _).
Defined.

(** ** The background sweep of the memory engine *)

Lemma delitem_filter {V : Type} (k : CacheKey) (d : OrderedDict.t V) :
  OrderedDict.delitem k d = filter (fun kv => negb (Key.eqb k (fst kv))) d.
Proof.
  induction d as [| [k' v'] d IH]; simpl; [reflexivity |].
  destruct (Key.eqb k k'); simpl; now rewrite IH.
Qed.

Lemma delitems_filter {V : Type} (ks : list CacheKey) :
  forall d : OrderedDict.t V,
    fold_left (fun c k => OrderedDict.delitem k c) ks d
    = filter (fun kv => negb (existsb (Key.eqb (fst kv)) ks)) d.
Proof.
  induction ks as [| k ks IH]; intro d; simpl.
  - induction d as [| kv d IHd]; simpl; [reflexivity | now rewrite <- IHd].
  - rewrite IH, delitem_filter.
    induction d as [| [k' v'] d IHd]; simpl; [reflexivity |].
    rewrite (Key_eqb_sym k' k).
    destruct (Key.eqb k k'); simpl; [exact IHd |].
    destruct (existsb (Key.eqb k') ks); simpl; [exact IHd | now rewrite IHd].
Qed.

Lemma getitem_In {V : Type} (k : CacheKey) (v : V) (d : OrderedDict.t V) :
  NoDup (OrderedDict.keys d) -> In (k, v) d -> OrderedDict.getitem k d = Some v.
Proof.
  induction d as [| [k' v'] d IH]; simpl; [tauto |].
  intros Hnd [Heq | Hin].
  - injection Heq as -> ->. now rewrite Key_eqb_refl.
  - inversion Hnd as [| x l Hout Hrest]; subst.
    destruct (Key.eqb k k') eqn:E; [| now apply IH].
    apply Key_eqb_eq in E. subst k'. exfalso. apply Hout.
    change k with (fst (k, v)). now apply in_map.
Qed.

Lemma getitem_Some_In {V : Type} (k : CacheKey) (v : V) (d : OrderedDict.t V) :
  OrderedDict.getitem k d = Some v -> In (k, v) d.
Proof.
  induction d as [| [k' v'] d IH]; simpl; [discriminate |].
  destruct (Key.eqb k k') eqn:E.
  - apply Key_eqb_eq in E. subst k'. intro Hv. injection Hv as ->. now left.
  - intro Hv. right. now apply IH.
Qed.

Lemma getitem_filter {V : Type} (p : CacheKey * V -> bool) (k : CacheKey)
  (d : OrderedDict.t V) :
  NoDup (OrderedDict.keys d) ->
  OrderedDict.getitem k (filter p d)
  = match OrderedDict.getitem k d with
    | Some v => if p (k, v) then Some v else None
    | None => None
    end.
Proof.
  induction d as [| [k' v'] d IH]; simpl; [reflexivity |].
  intro Hnd. inversion Hnd as [| x l Hout Hrest]; subst.
  destruct (Key.eqb k k') eqn:E.
  - apply Key_eqb_eq in E. subst k'.
    destruct (p (k, v')); simpl.
    + now rewrite Key_eqb_refl.
    + rewrite (IH Hrest).
      assert (OrderedDict.getitem k d = None) as -> by now apply getitem_None_keys.
      reflexivity.
  - destruct (p (k', v')); simpl; [rewrite E |]; now apply IH.
Qed.

(** The sweep removes exactly the expired entries. *)
Lemma Memory_sweep_filter now self :
  NoDup (OrderedDict.keys (Memory._cache self)) ->
  Memory._cache (Memory._cleanup_expired now self)
  = filter (fun kv => negb (Memory.is_expired now (snd (snd kv)))) (Memory._cache self).
Proof.
  intro Hnd. unfold Memory._cleanup_expired. simpl. rewrite delitems_filter.
  apply filter_ext_in. intros [k [v e]] Hin. simpl. f_equal.
  destruct (Memory.is_expired now e) eqn:He.
  - apply existsb_exists. exists k. split; [| apply Key_eqb_refl].
    apply in_map_iff. exists (k, (v, e)). split; [reflexivity |].
    apply filter_In. now split.
  - destruct (existsb (Key.eqb k) _) eqn:Hex; [| reflexivity].
    apply existsb_exists in Hex as [k' [Hk' Heq]].
    apply Key_eqb_eq in Heq. subst k'.
    apply in_map_iff in Hk' as [[k2 [v2 e2]] [Hfst Hin2]]. simpl in Hfst. subst k2.
    apply filter_In in Hin2 as [Hin2 He2]. simpl in He2.
    pose proof (getitem_In _ _ _ Hnd Hin) as H1.
    pose proof (getitem_In _ _ _ Hnd Hin2) as H2.
    rewrite H1 in H2. injection H2 as _ <-. congruence.
Qed.

(** The sweep of the memory engine removes exactly the entries that have
    expired at its reading of the clock and keeps the others in their
    order; no later read can tell whether it has run. *)
Theorem Memory_sweep_exact :
  forall now self,
    NoDup (OrderedDict.keys (Memory._cache self)) ->
    Memory._cache (Memory._cleanup_expired now self)
    = filter (fun kv => negb (Memory.is_expired now (snd (snd kv)))) (Memory._cache self)
    /\
    forall key t,
      (now <= t)%Q ->
      fst (Memory.get key t (Memory._cleanup_expired now self))
      = fst (Memory.get key t self) /\
      Memory.ttl key t (Memory._cleanup_expired now self) = Memory.ttl key t self.
Proof.
  intros now self Hnd. split; [now apply Memory_sweep_filter |].
  intros key t Ht. unfold Memory.get, Memory.ttl.
  rewrite (Memory_sweep_filter now self Hnd), (getitem_filter _ _ _ Hnd).
  destruct (OrderedDict.getitem key (Memory._cache self)) as [[v e] |]; [| now split].
  cbn [negb snd]. destruct (Memory.is_expired now e) eqn:He; cbn [negb].
  2: { destruct (Memory.is_expired t e); now split. }
  destruct e as [e |]; [| discriminate]. simpl in He. apply Qgt_bool_true in He.
  assert (Hlate : Memory.is_expired t (Some e) = true)
    by (simpl; apply Qgt_bool_true; lra).
  rewrite Hlate. split; [reflexivity |].
  assert (Hle : py_int (float_sub e t) <= 0).
  { apply py_int_below_one. unfold float_sub.
    assert (round53 (e - t) <= 0)%Q by (apply round53_nonpos; lra). lra. }
  destruct (py_int (float_sub e t) >? 0) eqn:Hpos; [| reflexivity].
  apply Z.gtb_lt in Hpos. lia.
Qed.

Lemma Memory_sweep_exact_witness :
  Memory._cache
    (Memory._cleanup_expired 100
       (Memory.mkMemoryBackend 5
          [(KStr "a", (PyInt 1, Some 50%Q)); (KStr "b", (PyInt 2, None));
           (KStr "c", (PyInt 3, Some 150%Q))] false (Some true)))
  = [(KStr "b", (PyInt 2, None)); (KStr "c", (PyInt 3, Some 150%Q))].
Proof.
  refine (proj1 (Memory_sweep_exact 100
                   (Memory.mkMemoryBackend 5
                      [(KStr "a", (PyInt 1, Some 50%Q)); (KStr "b", (PyInt 2, None));
                       (KStr "c", (PyInt 3, Some 150%Q))] false (Some true)) _)).
  repeat constructor; simpl; intuition discriminate.
Defined.

(** ** Deleting a key *)

Lemma File_select_delete_other k k' rows :
  k <> k' ->
  File.select_key k' (File.delete_key k rows) = File.select_key k' rows.
Proof.
  intro Hne. unfold File.select_key, File.delete_key.
  induction rows as [| r rows IH]; simpl; [reflexivity |].
  destruct (File.sql_eqb k (File.key r)) eqn:E; simpl.
  - apply sql_eqb_eq in E.
    assert (File.sql_eqb k' (File.key r) = false) as ->
        by (apply sql_eqb_neq; congruence).
    exact IH.
  - destruct (File.sql_eqb k' (File.key r)); [reflexivity | exact IH].
Qed.

(** On the memory engine [delete] reports whether the key was stored,
    expired or not; afterwards the key is absent for every read, a second
    [delete] returns false, and every other key keeps its entry.  On the
    file engine [delete(key)] does the same for the row whose key column
    holds the text [str(key)], the row that [get(key)] reads: it reports
    whether there was one, [get(key)] then returns [None], a second
    [delete] returns false, and the row of every other key column value
    is kept. *)
Theorem delete_removes_only_the_key :
  (forall key self,
      fst (Memory.delete key self) = OrderedDict.contains key (Memory._cache self) /\
      (forall t, fst (Memory.get key t (snd (Memory.delete key self))) = PyNone) /\
      (forall t, Memory.ttl key t (snd (Memory.delete key self)) = -2) /\
      fst (Memory.delete key (snd (Memory.delete key self))) = false /\
      (forall k, k <> key ->
                 OrderedDict.getitem k (Memory._cache (snd (Memory.delete key self)))
                 = OrderedDict.getitem k (Memory._cache self)))
  /\
  (forall key self,
      (fst (File.delete key self) = true <->
       exists row,
         File.select_key (File.bind_str key) (File.cache_entries self) = Some row) /\
      (forall t, fst (File.get key t (snd (File.delete key self))) = PyNone) /\
      fst (File.delete key (snd (File.delete key self))) = false /\
      (forall k, k <> File.bind_str key ->
                 File.select_key k (File.cache_entries (snd (File.delete key self)))
                 = File.select_key k (File.cache_entries self))).
Proof.
  split.
  - intros key self.
    assert (Hgone : OrderedDict.getitem key (Memory._cache (snd (Memory.delete key self)))
                    = None).
    { unfold Memory.delete. rewrite contains_getitem.
      destruct (OrderedDict.getitem key (Memory._cache self)) eqn:Hk; simpl;
        [apply getitem_delitem_same | exact Hk]. }
    split; [| split; [| split; [| split]]].
    + unfold Memory.delete. now destruct (OrderedDict.contains key (Memory._cache self)).
    + intro t. now rewrite Memory_get_absent.
    + intro t. unfold Memory.ttl. now rewrite Hgone.
    + unfold Memory.delete at 1. now rewrite contains_getitem, Hgone.
    + intros k Hne. unfold Memory.delete.
      destruct (OrderedDict.contains key (Memory._cache self)); simpl; [| reflexivity].
      apply getitem_delitem_other. congruence.
  - intros key self. unfold File.delete. cbv zeta.
    cbn [fst snd File.cache_entries File.with_table].
    set (sk := File.bind_str key).
    split; [| split; [| split]].
    + unfold File.select_key. split.
      * intro Hpos. apply Z.gtb_lt in Hpos.
        destruct (filter (fun r => File.sql_eqb sk (File.key r)) (File.cache_entries self))
          as [| row rest] eqn:Hf; [simpl in Hpos; lia |].
        assert (Hin : In row (filter (fun r => File.sql_eqb sk (File.key r))
                                (File.cache_entries self))) by (rewrite Hf; now left).
        apply filter_In in Hin as [Hin Hkey].
        destruct (find (fun r => File.sql_eqb sk (File.key r)) (File.cache_entries self))
          as [found |] eqn:Hfind; [now exists found |].
        now rewrite (find_none _ _ Hfind row Hin) in Hkey.
      * intros [row Hrow]. apply find_some in Hrow as [Hin Hkey].
        now apply (filter_length_pos _ _ row).
    + intro t. rewrite File_get_absent; [reflexivity |]. apply File_select_delete_same.
    + assert (filter (fun r => File.sql_eqb sk (File.key r))
                (File.delete_key sk (File.cache_entries self)) = []) as ->; [| reflexivity].
      destruct (filter _ (File.delete_key sk (File.cache_entries self)))
        as [| row rest] eqn:Hf; [reflexivity |].
      assert (Hin : In row (filter (fun r => File.sql_eqb sk (File.key r))
                              (File.delete_key sk (File.cache_entries self))))
        by (rewrite Hf; now left).
      apply filter_In in Hin as [Hin Hkey].
      apply File_delete_key_keys in Hin as [Hne _].
      apply sql_eqb_eq in Hkey. congruence.
    + intros k Hne. apply File_select_delete_other. congruence.
Qed.

Lemma delete_removes_only_the_key_witness :
  let table :=
    File.with_table (File.init 4)
      [File.mkRow (File.SqlText "7") (PyInt 1) None 3 3;
       File.mkRow (File.SqlText "job") (PyInt 2) (Some 5%Q) 4 4] in
  fst (File.delete (KInt 7) table) = true /\
  File.select_key (File.SqlText "job")
    (File.cache_entries (snd (File.delete (KInt 7) table)))
  = File.select_key (File.SqlText "job") (File.cache_entries table).
Proof.
  intro table.
  destruct (proj2 delete_removes_only_the_key (KInt 7) table)
    as (Hreported & _ & _ & Hothers).
  split.
  - apply Hreported. eexists. reflexivity.
  - apply Hothers. discriminate.
Defined.

(** ** Pages of keys and the scanning loops *)

Lemma py_slice_window {A : Type} (l : list A) (a c : Z) :
  0 <= a -> 0 <= c ->
  py_slice l a (a + c) = firstn (Z.to_nat c) (skipn (Z.to_nat a) l).
Proof.
  intros Ha Hc. unfold py_slice, slice_index.
  assert ((a <? 0) = false) as -> by lia.
  assert ((a + c <? 0) = false) as -> by lia.
  set (len := Z.of_nat (length l)).
  destruct (Z_lt_le_dec a len) as [Hin | Hout].
  - rewrite (Z.min_l a len) by lia.
    assert (Hlen : length (skipn (Z.to_nat a) l) = Z.to_nat (len - a)).
    { rewrite length_skipn. unfold len. lia. }
    destruct (Z_le_gt_dec (a + c) len) as [Hfit | Hover].
    + rewrite Z.min_l by lia. f_equal. lia.
    + rewrite Z.min_r by lia.
      rewrite <- Hlen, firstn_all. symmetry. apply firstn_all2. lia.
  - rewrite !Z.min_r by lia. rewrite Z.sub_diag. simpl.
    rewrite skipn_all2 by (unfold len in Hout; lia).
    now rewrite firstn_nil.
Qed.

Lemma page_window (matched : list CacheKey) (cursor count : Z) :
  0 <= cursor -> 0 < count ->
  let end_idx := cursor + count in
  let page := py_slice matched cursor end_idx in
  let next_cursor := if end_idx <? Z.of_nat (length matched) then end_idx else 0 in
  page = firstn (Z.to_nat count) (skipn (Z.to_nat cursor) matched) /\
  (next_cursor >? 0) = (cursor + count <? Z.of_nat (length matched)) /\
  ((next_cursor >? 0) = true -> next_cursor = cursor + count).
Proof.
  intros Hcur Hcount. cbv zeta.
  split; [apply py_slice_window; lia |].
  destruct (cursor + count <? Z.of_nat (length matched)) eqn:Hmore.
  - split; [apply Z.gtb_lt; lia | reflexivity].
  - split; [reflexivity | discriminate].
Qed.

Lemma Memory_pages fnmatch pattern count clock self l :
  0 < count ->
  Memory_matched fnmatch pattern self = Return l ->
  pages_of (H := MemoryKeySpace fnmatch) pattern count clock self l.
Proof.
  intros Hcount Hl now cursor _ Hcur. simpl. unfold Memory.keys.
  unfold Memory_matched in Hl. rewrite Hl. cbn [bind].
  eexists. split; [reflexivity |]. simpl. now apply page_window.
Qed.

Lemma File_pages fnmatch pattern count clock self l :
  0 < count ->
  (forall now, In now clock -> File_matched fnmatch pattern now self = Return l) ->
  pages_of (H := FileKeySpace fnmatch) pattern count clock self l.
Proof.
  intros Hcount Hl now cursor Hnow Hcur. simpl. unfold File.keys.
  specialize (Hl now Hnow). unfold File_matched in Hl. cbv zeta in Hl.
  rewrite Hl. cbn [bind].
  eexists. split; [reflexivity |]. simpl. now apply page_window.
Qed.

Lemma pages_of_later {B : Type} `{KeySpace B} pattern count now clock
  (backend : B) l :
  pages_of pattern count (now :: clock) backend l ->
  pages_of pattern count clock backend l.
Proof. intros Hpages t cursor Ht. apply Hpages. now right. Qed.

(** Scanning by pages of 100 from a cursor collects the rest of the list,
    one reading of the clock for each page. *)
Lemma scan_pattern_collects {B : Type} `{Base.BaseBackend B} `{KeySpace B}
  (pattern : string) (backend : B) (l : list CacheKey) :
  forall clock cursor all_keys,
    pages_of pattern 100 clock backend l ->
    clock <> [] ->
    0 <= cursor ->
    Z.of_nat (length l) - cursor <= 100 * Z.of_nat (length clock) ->
    Invalidator.scan_pattern clock pattern None backend cursor all_keys
    = Some (Invalidator.Collected (all_keys ++ skipn (Z.to_nat cursor) l)).
Proof.
  induction clock as [| now later IH]; intros cursor all_keys Hpages Hne Hcur Hlen;
    [congruence |].
  destruct (Hpages now cursor (or_introl eq_refl) Hcur)
    as (page & Hpage & Hkeys & Hmore & Hnext).
  cbn [Invalidator.scan_pattern]. rewrite Hpage, orb_false_r, Hkeys.
  rewrite Hmore in *.
  destruct (cursor + 100 <? Z.of_nat (length l)) eqn:Hlt; cbn [negb].
  - rewrite (Hnext eq_refl).
    assert (Hlater : later <> []).
    { intros ->. simpl in Hlen. lia. }
    rewrite IH; [| now apply (pages_of_later _ _ now) | exact Hlater | lia
                 | cbn [length] in Hlen; lia].
    f_equal. f_equal. rewrite <- app_assoc. f_equal.
    rewrite <- (firstn_skipn (Z.to_nat 100) (skipn (Z.to_nat cursor) l)) at 2.
    f_equal. rewrite skipn_skipn. f_equal. lia.
  - f_equal. f_equal. f_equal. apply firstn_all2. rewrite length_skipn. lia.
Qed.

Lemma scan_all_as_pattern {B : Type} `{Base.BaseBackend B} `{KeySpace B}
  (backend : B) :
  forall clock cursor all_keys,
    Invalidator.scan_all clock backend cursor all_keys
    = Invalidator.scan_pattern clock "*" None backend cursor all_keys.
Proof.
  induction clock as [| now later IH]; intros cursor all_keys; [reflexivity |].
  cbn [Invalidator.scan_all Invalidator.scan_pattern].
  destruct (keys "*" cursor 100 None now backend) as [page | e]; [| reflexivity].
  rewrite orb_false_r.
  destruct (has_more page); cbn [negb]; [apply IH | reflexivity].
Qed.

Lemma Memory_scan_pattern_all (fnmatch : string -> string -> bool) (pattern : string)
  (clock : list Timestamp) (self : Memory.MemoryBackend) (l : list CacheKey) :
  clock <> [] ->
  Z.of_nat (length l) <= 100 * Z.of_nat (length clock) ->
  Memory_matched fnmatch pattern self = Return l ->
  Invalidator.scan_pattern (H0 := MemoryKeySpace fnmatch) clock pattern None self 0 []
  = Some (Invalidator.Collected l).
Proof.
  intros Hne Hlen Hl.
  rewrite (scan_pattern_collects (H0 := MemoryKeySpace fnmatch) pattern self l);
    [reflexivity | | exact Hne | lia | lia].
  apply Memory_pages; [lia | exact Hl].
Qed.

Lemma Memory_scan_all (fnmatch : string -> string -> bool) (clock : list Timestamp)
  (self : Memory.MemoryBackend) :
  clock <> [] ->
  Z.of_nat (length (Memory._cache self)) <= 100 * Z.of_nat (length clock) ->
  Invalidator.scan_all (H0 := MemoryKeySpace fnmatch) clock self 0 []
  = Some (Invalidator.Collected (OrderedDict.keys (Memory._cache self))).
Proof.
  intros Hne Hlen. rewrite scan_all_as_pattern.
  apply Memory_scan_pattern_all; [exact Hne | rewrite keys_length; lia | reflexivity].
Qed.

Lemma File_scan_pattern_all (fnmatch : string -> string -> bool) (pattern : string)
  (clock : list Timestamp) (self : File.FileBackend) (l : list CacheKey) :
  clock <> [] ->
  Z.of_nat (length l) <= 100 * Z.of_nat (length clock) ->
  (forall now, In now clock -> File_matched fnmatch pattern now self = Return l) ->
  Invalidator.scan_pattern (H0 := FileKeySpace fnmatch) clock pattern None self 0 []
  = Some (Invalidator.Collected l).
Proof.
  intros Hne Hlen Hl.
  rewrite (scan_pattern_collects (H0 := FileKeySpace fnmatch) pattern self l);
    [reflexivity | | exact Hne | lia | lia].
  apply File_pages; [lia | exact Hl].
Qed.

(** The scanning loops of the invalidator ask for pages of 100 keys, each
    page with its own reading of the clock, and follow the cursor to the
    last page.  Given as many readings as there are pages, they collect
    every key the engine matches, each once and in the order of the
    engine: on the memory engine all stored keys that match the pattern,
    expired ones included; on the file engine the matching keys of the
    unexpired rows in ascending order, when these are the same keys at the
    reading of every page.  The list matched is the one [keys] computes
    without raising: [fnmatch] raises [TypeError] on a key that is not a
    [str] when the pattern is not ["*"]. *)
Theorem scan_collects_every_key :
  forall (fnmatch : string -> string -> bool) (pattern : string)
         (clock : list Timestamp) (l : list CacheKey),
    clock <> [] ->
    Z.of_nat (length l) <= 100 * Z.of_nat (length clock) ->
    (forall self : Memory.MemoryBackend,
        Memory_matched fnmatch pattern self = Return l ->
        Invalidator.scan_pattern (H0 := MemoryKeySpace fnmatch)
          clock pattern None self 0 []
        = Some (Invalidator.Collected l)) /\
    (forall self : Memory.MemoryBackend,
        OrderedDict.keys (Memory._cache self) = l ->
        Invalidator.scan_all (H0 := MemoryKeySpace fnmatch) clock self 0 []
        = Some (Invalidator.Collected l)) /\
    (forall self : File.FileBackend,
        (forall now, In now clock -> File_matched fnmatch pattern now self = Return l) ->
        Invalidator.scan_pattern (H0 := FileKeySpace fnmatch)
          clock pattern None self 0 []
        = Some (Invalidator.Collected l)) /\
    (forall self : File.FileBackend,
        (forall now, In now clock -> File_matched fnmatch "*" now self = Return l) ->
        Invalidator.scan_all (H0 := FileKeySpace fnmatch) clock self 0 []
        = Some (Invalidator.Collected l)).
Proof.
  intros fnmatch pattern clock l Hne Hlen. split; [| split; [| split]].
  - intros self Hl. now apply Memory_scan_pattern_all.
  - intros self <-. apply Memory_scan_all; [exact Hne |].
    rewrite keys_length in Hlen. exact Hlen.
  - intros self Hl. now apply File_scan_pattern_all.
  - intros self Hl. rewrite scan_all_as_pattern. now apply File_scan_pattern_all.
Qed.

Lemma scan_collects_every_key_witness :
  Invalidator.scan_all (H0 := MemoryKeySpace (fun _ _ => true)) [1000%Q; 1001%Q]
    (Memory.mkMemoryBackend 200
       (map (fun i => (KInt (Z.of_nat i), (PyInt 1, None))) (seq 0 150))
       false (Some true))
    0 []
  = Some (Invalidator.Collected (map (fun i => KInt (Z.of_nat i)) (seq 0 150)))
  /\
  Invalidator.scan_pattern (H0 := FileKeySpace (fun _ _ => true)) [1000%Q; 1001%Q]
    "1*" None
    (File.mkFileBackend 200
       (map (fun i => File.mkRow (File.SqlText (decimal (1000 + Z.of_nat i)))
                        (PyInt 1) (Some 5000%Q) 0 0) (seq 0 150))
       false (Some true))
    0 []
  = Some (Invalidator.Collected
            (map (fun i => KStr (decimal (1000 + Z.of_nat i))) (seq 0 150))).
Proof.
  split.
  - refine (proj1 (proj2 (scan_collects_every_key (fun _ _ => true) "*"
                            [1000%Q; 1001%Q]
                            (map (fun i => KInt (Z.of_nat i)) (seq 0 150)) _ _))
              (Memory.mkMemoryBackend 200
                 (map (fun i => (KInt (Z.of_nat i), (PyInt 1, None))) (seq 0 150))
                 false (Some true)) _).
    + discriminate.
    + vm_compute. discriminate.
    + vm_compute. reflexivity.
  - refine (proj1 (proj2 (proj2 (scan_collects_every_key (fun _ _ => true) "1*"
                            [1000%Q; 1001%Q]
                            (map (fun i => KStr (decimal (1000 + Z.of_nat i))) (seq 0 150))
                            _ _)))
              (File.mkFileBackend 200
                 (map (fun i => File.mkRow (File.SqlText (decimal (1000 + Z.of_nat i)))
                                  (PyInt 1) (Some 5000%Q) 0 0) (seq 0 150))
                 false (Some true)) _).
    + discriminate.
    + vm_compute. discriminate.
    + intros now [<- | [<- | []]]; vm_compute; reflexivity.
Defined.

(** ** Invalidation in batches *)

Section DeleteMany.
Context {B : Type} `{Base.BaseBackend B}.

Lemma delete_many_loop_shift (ks : list CacheKey) :
  forall (count d : Z) (self : B),
    Base.delete_many_loop ks (count + d) self
    = (fst (Base.delete_many_loop ks count self) + d,
       snd (Base.delete_many_loop ks count self)).
Proof.
  induction ks as [| k ks IH]; intros count d self; [reflexivity |].
  cbn [Base.delete_many_loop].
  destruct (Base.delete k self) as [deleted self1].
  destruct deleted.
  - replace (count + d + 1) with (count + 1 + d) by lia. apply IH.
  - apply IH.
Qed.

Lemma delete_many_loop_app (l1 l2 : list CacheKey) :
  forall (count : Z) (self : B),
    Base.delete_many_loop (l1 ++ l2) count self
    = Base.delete_many_loop l2 (fst (Base.delete_many_loop l1 count self))
        (snd (Base.delete_many_loop l1 count self)).
Proof.
  induction l1 as [| k l1 IH]; intros count self; [reflexivity |].
  cbn [app Base.delete_many_loop].
  destruct (Base.delete k self) as [deleted self1]. apply IH.
Qed.

Lemma delete_many_app (l1 l2 : list CacheKey) (self : B) :
  Base.delete_many (l1 ++ l2) self
  = (fst (Base.delete_many l1 self)
     + fst (Base.delete_many l2 (snd (Base.delete_many l1 self))),
     snd (Base.delete_many l2 (snd (Base.delete_many l1 self)))).
Proof.
  unfold Base.delete_many. rewrite delete_many_loop_app.
  rewrite <- (Z.add_0_l (fst (Base.delete_many_loop l1 0 self))) at 1.
  rewrite delete_many_loop_shift. f_equal. lia.
Qed.

End DeleteMany.

Lemma py_range0_covers (stop step : Z) :
  0 <= stop -> 0 < step ->
  exists m : nat,
    Invalidator.py_range0 stop step = map (fun j => Z.of_nat j * step) (seq 0 m) /\
    stop <= Z.of_nat m * step.
Proof.
  intros Hstop Hstep. unfold Invalidator.py_range0.
  assert ((step >? 0) = true) as -> by lia.
  exists (Z.to_nat ((stop + step - 1) / step)). split; [reflexivity |].
  assert (Hq : 0 <= (stop + step - 1) / step) by (apply Z.div_pos; lia).
  rewrite Z2Nat.id by exact Hq.
  pose proof (Z.mul_succ_div_gt (stop + step - 1) step Hstep) as Hgt. nia.
Qed.

Section Batches.
Context {B : Type} `{Base.BaseBackend B}.

(** The turns of the loop from batch [a] on delete what one [delete_many]
    of the remaining keys deletes. *)
Lemma invalidate_batches_as_one (all_keys : list CacheKey) (size : Z) (now : Timestamp) :
  0 < size ->
  forall (m a : nat) (total : Z) (self : Invalidator.CacheInvalidator) (backend : B),
    Z.of_nat (length all_keys) <= Z.of_nat (a + m) * size ->
    let rest := skipn (Z.to_nat (Z.of_nat a * size)) all_keys in
    let r := fold_left (Invalidator.invalidate_batch all_keys size now)
               (map (fun j => Z.of_nat j * size) (seq a m)) (total, self, backend) in
    fst (fst r) = total + fst (Base.delete_many rest backend) /\
    snd r = snd (Base.delete_many rest backend).
Proof.
  intros Hsize. induction m as [| m IH]; intros a total self backend Hcover; cbv zeta.
  - cbn [seq map fold_left fst snd].
    rewrite skipn_all2 by (rewrite Nat.add_0_r in Hcover; lia).
    cbn. split; [lia | reflexivity].
  - cbn [seq map fold_left].
    set (rest := skipn (Z.to_nat (Z.of_nat a * size)) all_keys).
    destruct (Base.delete_many (firstn (Z.to_nat size) rest) backend)
      as [count backend1] eqn:Hbatch.
    assert (Hturn : Invalidator.invalidate_batch all_keys size now (total, self, backend)
                      (Z.of_nat a * size)
                    = (total + count,
                       Invalidator._log_invalidation now "keys"
                         (Invalidator.DKeys (firstn (Z.to_nat size) rest)) count self,
                       backend1)).
    { unfold Invalidator.invalidate_batch. rewrite py_slice_window by lia.
      fold rest. now rewrite Hbatch. }
    rewrite Hturn. clear Hturn.
    specialize (IH (S a) (total + count)
                  (Invalidator._log_invalidation now "keys"
                     (Invalidator.DKeys (firstn (Z.to_nat size) rest)) count self)
                  backend1).
    cbv zeta in IH.
    destruct IH as [Htotal Hstate]; [lia |].
    assert (Hnext : skipn (Z.to_nat (Z.of_nat (S a) * size)) all_keys
                    = skipn (Z.to_nat size) rest).
    { unfold rest. rewrite skipn_skipn. f_equal. lia. }
    rewrite Hnext in Htotal, Hstate.
    assert (Hsplit : Base.delete_many rest backend
                     = Base.delete_many
                         (firstn (Z.to_nat size) rest ++ skipn (Z.to_nat size) rest) backend)
      by now rewrite firstn_skipn.
    rewrite Hsplit, delete_many_app, Hbatch. cbn [fst snd].
    split; [rewrite Htotal; lia | exact Hstate].
Qed.

End Batches.

Lemma invalidate_keys_cases :
  forall (B : Type) (E : Base.BaseBackend B)
         (all_keys : list CacheKey) (size : option Z) (now : Timestamp)
         (self : Invalidator.CacheInvalidator) (backend : B),
    let effective :=
      match size with Some b => b | None => Invalidator.batch_size self end in
    let r := Invalidator.invalidate_keys all_keys size now self backend in
    (0 < effective ->
     fst (fst r) = Success (fst (Base.delete_many all_keys backend)) /\
     snd r = snd (Base.delete_many all_keys backend)) /\
    (effective = 0 -> all_keys <> [] ->
     r = (Failure ValueError, self, backend)) /\
    (effective < 0 -> fst (fst r) = Success 0 /\ snd r = backend).
Proof.
  intros B E all_keys size now self backend effective r. subst r.
  unfold Invalidator.invalidate_keys. fold effective.
  split; [| split].
  - intro Hpos. destruct all_keys as [| k0 ks]; [now split |].
    assert ((effective =? 0) = false) as -> by lia.
    destruct (py_range0_covers (Z.of_nat (length (k0 :: ks))) effective) as [m [-> Hm]];
      [lia | exact Hpos |].
    pose proof (invalidate_batches_as_one (k0 :: ks) effective now Hpos m 0%nat 0 self backend
                  Hm) as Hone.
    cbv zeta in Hone. change (Z.to_nat (Z.of_nat 0 * effective)) with 0%nat in Hone.
    rewrite skipn_O in Hone.
    destruct (fold_left _ _ (0, self, backend)) as [[total self1] backend1].
    cbn [fst snd] in *. destruct Hone as [-> ->]. now split.
  - intros Hzero Hne. destruct all_keys as [| k0 ks]; [congruence |].
    now rewrite Hzero.
  - intro Hneg. destruct all_keys as [| k0 ks]; [now split |].
    assert ((effective =? 0) = false) as -> by lia.
    unfold Invalidator.py_range0.
    assert ((effective >? 0) = false) as -> by lia.
    now split.
Qed.

(** On every engine, with a positive batch size [invalidate_keys] deletes
    what one [delete_many] of the whole list deletes and returns its count,
    however the list is cut into batches.  With a batch size of 0 and a
    list that is not empty it raises [ValueError]; with a negative batch
    size it reports 0; in both cases it deletes nothing. *)
Theorem invalidate_keys_batching :
  forall (B : Type) (E : Base.BaseBackend B)
         (all_keys : list CacheKey) (size : option Z) (now : Timestamp)
         (self : Invalidator.CacheInvalidator) (backend : B),
    let effective :=
      match size with Some b => b | None => Invalidator.batch_size self end in
    let r := Invalidator.invalidate_keys all_keys size now self backend in
    (0 < effective ->
     fst (fst r) = Success (fst (Base.delete_many all_keys backend)) /\
     snd r = snd (Base.delete_many all_keys backend)) /\
    (effective = 0 -> all_keys <> [] ->
     r = (Failure ValueError, self, backend)) /\
    (effective < 0 -> fst (fst r) = Success 0 /\ snd r = backend).
Proof. exact invalidate_keys_cases. Qed.

Lemma invalidate_keys_batching_witness :
  fst (fst (Invalidator.invalidate_keys [KStr "a"; KStr "b"; KStr "c"] (Some 2) 0
              (Invalidator.mkInvalidator 100 false [] 0)
              (Memory.mkMemoryBackend 5
                 [(KStr "a", (PyInt 1, None)); (KStr "c", (PyInt 3, None))]
                 false (Some true))))
  = Success 2.
Proof.
  refine (proj1 (proj1 (invalidate_keys_batching Memory.MemoryBackend MemoryEngine
                          [KStr "a"; KStr "b"; KStr "c"] (Some 2) 0%Q
                          (Invalidator.mkInvalidator 100 false [] 0)
                          (Memory.mkMemoryBackend 5
                             [(KStr "a", (PyInt 1, None)); (KStr "c", (PyInt 3, None))]
                             false (Some true))) _)).
  simpl. lia.
Defined.

Lemma filter_all_false {A : Type} (p : A -> bool) (l : list A) :
  (forall x, In x l -> p x = false) -> filter p l = [].
Proof.
  induction l as [| x l IH]; intro Hall; simpl; [reflexivity |].
  rewrite (Hall x) by now left. apply IH. intros y Hy. apply Hall. now right.
Qed.

Lemma filter_all_true {A : Type} (p : A -> bool) (l : list A) :
  (forall x, In x l -> p x = true) -> filter p l = l.
Proof.
  induction l as [| x l IH]; intro Hall; simpl; [reflexivity |].
  rewrite (Hall x) by now left. f_equal. apply IH. intros y Hy. apply Hall. now right.
Qed.

Lemma Memory_delete_many_cache (ks : list CacheKey) :
  forall count (self : Memory.MemoryBackend),
    Memory._cache (snd (Base.delete_many_loop ks count self))
    = fold_left (fun c k => OrderedDict.delitem k c) ks (Memory._cache self) /\
    Memory._max_size (snd (Base.delete_many_loop ks count self)) = Memory._max_size self.
Proof.
  induction ks as [| k ks IH]; intros count self; [now split |].
  cbn [Base.delete_many_loop fold_left]. simpl Base.delete. unfold Memory.delete.
  rewrite contains_getitem.
  destruct (OrderedDict.getitem k (Memory._cache self)) eqn:Hk.
  - destruct (IH (count + 1)
                (Memory.with_cache self (OrderedDict.delitem k (Memory._cache self))))
      as [Hc Hm].
    now split.
  - rewrite (delitem_absent _ _ Hk). apply IH.
Qed.

(** On a memory engine [invalidate_all] with a batch size that is not
    negative leaves the map empty and returns the number of entries it
    held, expired ones included; with a batch size of 0 this goes through
    the [ValueError] of the batch loop and the fall-back to [clear].  With
    a negative batch size it reports 0 and removes nothing. *)
Theorem Memory_invalidate_all :
  forall (fnmatch : string -> string -> bool) (now : Timestamp)
         (inv : Invalidator.CacheInvalidator) (self : Memory.MemoryBackend)
         (clock : list Timestamp),
    NoDup (OrderedDict.keys (Memory._cache self)) ->
    clock <> [] ->
    Memory.len_ self <= 100 * Z.of_nat (length clock) ->
    (0 <= Invalidator.batch_size inv ->
     exists inv1 self1,
       Invalidator.invalidate_all (H0 := MemoryKeySpace fnmatch) clock now inv self
       = Some (Memory.len_ self, inv1, self1) /\
       Memory._cache self1 = [] /\
       Memory._max_size self1 = Memory._max_size self) /\
    (Invalidator.batch_size inv < 0 ->
     exists inv1,
       Invalidator.invalidate_all (H0 := MemoryKeySpace fnmatch) clock now inv self
       = Some (0, inv1, self)).
Proof.
  intros fnmatch now inv self clock Hnd Hne Hfuel. unfold Memory.len_ in *.
  pose proof (Memory_scan_all fnmatch clock self Hne Hfuel) as Hscan.
  pose proof (invalidate_keys_cases Memory.MemoryBackend MemoryEngine
                (OrderedDict.keys (Memory._cache self)) None now inv self) as Hbatch.
  cbv zeta in Hbatch. destruct Hbatch as (Hpos & Hzero & Hneg).
  unfold Invalidator.invalidate_all. rewrite Hscan.
  set (all_keys := OrderedDict.keys (Memory._cache self)) in *.
  assert (Hcount : fst (Base.delete_many all_keys self) = Z.of_nat (length (Memory._cache self))).
  { unfold Base.delete_many. rewrite (Memory_delete_many_count all_keys Hnd 0 self).
    rewrite filter_all_true.
    - unfold all_keys. now rewrite keys_length.
    - intros k Hk. now apply contains_In_keys. }
  assert (Hempty : Memory._cache (snd (Base.delete_many all_keys self)) = []).
  { unfold Base.delete_many.
    rewrite (proj1 (Memory_delete_many_cache all_keys 0 self)), delitems_filter.
    apply filter_all_false. intros [k v] Hin. simpl.
    apply negb_false_iff, existsb_exists. exists k.
    split; [| apply Key_eqb_refl].
    unfold all_keys. change k with (fst (k, v)). now apply in_map. }
  split.
  - intro Hsize.
    destruct (Z.eq_dec (Invalidator.batch_size inv) 0) as [Hz | Hnz].
    + destruct (Memory._cache self) as [| kv rest] eqn:Hc.
      * simpl. destruct self as [m c s t]. simpl in Hc. subst c.
        eexists. eexists. split; [reflexivity | now split].
      * rewrite (Hzero Hz) by (unfold all_keys; discriminate).
        exists (Invalidator._log_invalidation now "all" Invalidator.DAllCleared
                  (Z.of_nat (length all_keys)) inv), (Memory.clear self).
        split; [| split; reflexivity].
        unfold all_keys. now rewrite keys_length.
    + destruct (Hpos ltac:(lia)) as [Hres Hstate].
      destruct (Invalidator.invalidate_keys all_keys None now inv self)
        as [[res inv1] self1].
      cbn [fst snd] in Hres, Hstate. subst res self1.
      eexists. eexists. split; [rewrite Hcount; reflexivity |].
      split; [exact Hempty |].
      apply (proj2 (Memory_delete_many_cache all_keys 0 self)).
  - intro Hsize. destruct (Hneg Hsize) as [Hres Hstate].
    destruct (Invalidator.invalidate_keys all_keys None now inv self)
      as [[res inv1] self1].
    cbn [fst snd] in Hres, Hstate. subst res self1.
    eexists. reflexivity.
Qed.

Lemma Memory_invalidate_all_witness :
  exists inv1 self1,
    Invalidator.invalidate_all (H0 := MemoryKeySpace (fun _ _ => true)) [10%Q] 10
      (Invalidator.mkInvalidator 100 false [] 0)
      (Memory.mkMemoryBackend 5
         [(KStr "a", (PyInt 1, None)); (KStr "b", (PyInt 2, Some 5%Q))]
         false (Some true))
    = Some (2, inv1, self1) /\
    Memory._cache self1 = [].
Proof.
  destruct (proj1 (Memory_invalidate_all (fun _ _ => true) 10%Q
                     (Invalidator.mkInvalidator 100 false [] 0)
                     (Memory.mkMemoryBackend 5
                        [(KStr "a", (PyInt 1, None)); (KStr "b", (PyInt 2, Some 5%Q))]
                        false (Some true)) [10%Q]
                     ltac:(repeat constructor; simpl; intuition discriminate)
                     ltac:(discriminate)
                     ltac:(unfold Memory.len_; simpl; lia))
             ltac:(simpl; lia))
    as (inv1 & self1 & Hrun & Hempty & _).
  exists inv1, self1. now split.
Defined.

(** ** The manager and the caching decorator over the memory engine *)

Lemma Memory_get_max key now self :
  Memory._max_size (snd (Memory.get key now self)) = Memory._max_size self.
Proof.
  unfold Memory.get.
  destruct (OrderedDict.getitem key (Memory._cache self)) as [[v e] |]; [| reflexivity].
  now destruct (Memory.is_expired now e).
Qed.

Lemma Memory_get_keeps key k now self :
  k <> key ->
  OrderedDict.getitem k (Memory._cache (snd (Memory.get key now self)))
  = OrderedDict.getitem k (Memory._cache self).
Proof.
  intro Hne. unfold Memory.get.
  destruct (OrderedDict.getitem key (Memory._cache self)) as [[v e] |]; [| reflexivity].
  destruct (Memory.is_expired now e); simpl.
  - apply getitem_delitem_other. congruence.
  - apply getitem_move_to_end.
Qed.

(** A read that finds a value leaves the entry stored as it was. *)
Lemma Memory_get_value_stored key now self :
  fst (Memory.get key now self) <> PyNone ->
  exists e,
    OrderedDict.getitem key (Memory._cache self)
    = Some (fst (Memory.get key now self), e) /\
    Memory.is_expired now e = false /\
    OrderedDict.getitem key (Memory._cache (snd (Memory.get key now self)))
    = Some (fst (Memory.get key now self), e).
Proof.
  unfold Memory.get.
  destruct (OrderedDict.getitem key (Memory._cache self)) as [[v e] |] eqn:Hk;
    [| intro Hv; now elim Hv].
  destruct (Memory.is_expired now e) eqn:He; simpl; [intro Hv; now elim Hv |].
  intros _. exists e. split; [reflexivity |]. split; [exact He |].
  now rewrite getitem_move_to_end.
Qed.

(** [get_or_set] and the [cache] decorator on a memory engine of positive
    capacity.  A value found is returned without calling the factory.
    After a miss the factory is called and its value written with the
    [ttl], [ex] and [nx] of the call (the decorator writes with [nx] off,
    and only a value that is not [None]).  When the time to live converts
    to a float and, should [nx] be set, the read has left no entry under
    the key that is unexpired at the write, the value is stored with the
    expiry [expires_at] that [set] computes; a value that is not [None] is
    then served to later calls without a new computation at every reading
    of the clock up to [expires_at].  A computed [None] is never served:
    [get_or_set] stores it and the decorator stores nothing, and the next
    call computes again. *)
Theorem memoization_on_memory :
  forall key factory ttl ex nx t_get t_set expires_at (self : Memory.MemoryBackend),
    0 < Memory._max_size self ->
    (fst (Memory.get key t_get self) <> PyNone ->
     Manager.get_or_set key factory ttl ex nx t_get t_set self
     = (Success (fst (Memory.get key t_get self), false), snd (Memory.get key t_get self))) /\
    (fst (Memory.get key t_get self) = PyNone ->
     expiry t_set ttl = Return expires_at ->
     (nx = true ->
      forall v e,
        OrderedDict.getitem key (Memory._cache (snd (Memory.get key t_get self)))
        = Some (v, e) ->
        Memory.nx_blocks t_set e = false) ->
     exists self1,
       Manager.get_or_set key factory ttl ex nx t_get t_set self
       = (Success (factory tt, true), self1) /\
       OrderedDict.getitem key (Memory._cache self1) = Some (factory tt, expires_at) /\
       (factory tt <> PyNone ->
        forall factory' ttl' ex' nx' t t',
          (forall e, expires_at = Some e -> (t <= e)%Q) ->
          fst (Manager.get_or_set key factory' ttl' ex' nx' t t' self1)
          = Success (factory tt, false)) /\
       (factory tt = PyNone ->
        forall factory' ttl' ex' nx' t t' e',
          expiry t' ttl' = Return e' ->
          fst (Manager.get_or_set key factory' ttl' ex' nx' t t' self1)
          = Success (factory' tt, true))) /\
    (forall prefix built,
        KStr (prefix ++ built) = key ->
        fst (Memory.get key t_get self) = PyNone ->
        expiry t_set ttl = Return expires_at ->
        exists self1,
          Decorators.wrapper prefix built factory ttl t_get t_set self
          = (Success (factory tt, true), self1) /\
          (factory tt = PyNone -> self1 = snd (Memory.get key t_get self)) /\
          (factory tt <> PyNone ->
           OrderedDict.getitem key (Memory._cache self1) = Some (factory tt, expires_at) /\
           forall func' ttl' t t',
             (forall e, expires_at = Some e -> (t <= e)%Q) ->
             fst (Decorators.wrapper prefix built func' ttl' t t' self1)
             = Success (factory tt, false))).
Proof.
  intros key factory ttl ex nx t_get t_set expires_at self Hcap.
  assert (Hlive : forall t, (forall e, expires_at = Some e -> (t <= e)%Q) ->
                            Memory.is_expired t expires_at = false).
  { intros t Ht. destruct expires_at as [e |]; simpl; [| reflexivity].
    apply Qgt_bool_false. now apply Ht. }
  split; [| split].
  - intro Hhit. unfold Manager.get_or_set. simpl Base.get.
    destruct (Memory.get key t_get self) as [v self0]. simpl in *.
    destruct v; [now elim Hhit | reflexivity ..].
  - intros Hmiss Hexp Hnx. unfold Manager.get_or_set at 1. simpl Base.get. simpl Base.set.
    pose proof (Memory_get_max key t_get self) as Hmax0.
    destruct (Memory.get key t_get self) as [v self0] eqn:Hget.
    cbn [fst snd] in *. subst v. cbn [is_none negb].
    destruct (Memory_set_writes key (factory tt) ttl ex nx t_set self0 expires_at)
      as [self1 [Hset [Hstored Hmax]]]; [lia | exact Hexp | exact Hnx |].
    rewrite Hset. exists self1. split; [reflexivity |]. split; [exact Hstored |].
    split.
    + intros Hvalue factory' ttl' ex' nx' t t' Ht.
      unfold Manager.get_or_set. simpl Base.get. unfold Memory.get.
      rewrite Hstored, (Hlive t Ht).
      assert (is_none (factory tt) = false) as ->; [| reflexivity].
      destruct (factory tt); [now elim Hvalue | reflexivity ..].
    + intros Hvalue factory' ttl' ex' nx' t t' e' Hexp'.
      unfold Manager.get_or_set. simpl Base.get. simpl Base.set.
      pose proof (Memory_get_max key t self1) as Hmax1.
      assert (Hnone : fst (Memory.get key t self1) = PyNone).
      { unfold Memory.get. rewrite Hstored, Hvalue.
        now destruct (Memory.is_expired t expires_at). }
      destruct (Memory.get key t self1) as [v self2]. cbn [fst snd] in *. subst v.
      cbn [is_none negb].
      destruct (Memory_set_returns key (factory' tt) ttl' ex' nx' t' self2 e')
        as (r & s2 & ->); [lia | exact Hexp' | reflexivity].
  - intros prefix built Hkey Hmiss Hexp. unfold Decorators.wrapper at 1. rewrite Hkey.
    simpl Base.get. simpl Base.set.
    pose proof (Memory_get_max key t_get self) as Hmax0.
    destruct (Memory.get key t_get self) as [v self0] eqn:Hget.
    cbn [fst snd] in *. subst v. cbn [is_none negb].
    destruct (is_none (factory tt)) eqn:Hnone; cbn [negb].
    + exists self0. split; [reflexivity |]. split; [reflexivity |].
      intro Hv. destruct (factory tt); [now elim Hv | discriminate ..].
    + destruct (Memory_set_writes key (factory tt) ttl false false t_set self0 expires_at)
        as [self1 [Hset [Hstored Hmax]]]; [lia | exact Hexp | discriminate |].
      rewrite Hset. exists self1. split; [reflexivity |]. split.
      * intro Hv. rewrite Hv in Hnone. discriminate.
      * intros _. split; [exact Hstored |]. intros func' ttl' t t' Ht.
        unfold Decorators.wrapper. rewrite Hkey. simpl Base.get.
        unfold Memory.get. rewrite Hstored, (Hlive t Ht).
        now rewrite Hnone.
Qed.

Lemma memoization_on_memory_witness :
  exists self1,
    Manager.get_or_set "k" (fun _ => PyInt 7) (Some 60) false true 1 1
      (Memory.mkMemoryBackend 3 [(KStr "k", (PyInt 1, Some 0%Q))] false (Some true))
    = (Success (PyInt 7, true), self1) /\
    fst (Manager.get_or_set "k" (fun _ => PyInt 8) None false false 30 30 self1)
    = Success (PyInt 7, false).
Proof.
  destruct (proj1 (proj2 (memoization_on_memory (KStr "k") (fun _ => PyInt 7) (Some 60)
                            false true 1%Q 1%Q (Some 61%Q)
                            (Memory.mkMemoryBackend 3 [(KStr "k", (PyInt 1, Some 0%Q))]
                               false (Some true))
                            ltac:(simpl; lia)))
              eq_refl ltac:(vm_compute; reflexivity)
              ltac:(intros _ v e H; vm_compute in H; discriminate))
    as (self1 & Hrun & _ & Hlater & _).
  exists self1. split; [exact Hrun |].
  apply (Hlater ltac:(discriminate) (fun _ => PyInt 8) None false false 30%Q 30%Q).
  intros e He. injection He as <-. apply Qle_bool_iff. reflexivity.
Defined.

(** [increment] and [decrement] on a memory engine of positive capacity.
    With [n] the stored integer (a stored boolean counts as 0 or 1, a
    missing, expired or [None] entry as 0) the call returns [n + delta] and
    stores it with no expiry, whatever expiry the entry had: every later
    read returns it and its [ttl] is -1.  A [decrement] by the same amount
    then returns [n] again.  On any other stored value the call fails with
    [ValueError] after the read, and writes nothing. *)
Theorem increment_counter :
  forall key delta t_get t_set (self : Memory.MemoryBackend),
    0 < Memory._max_size self ->
    let current := fst (Memory.get key t_get self) in
    (forall n,
        Manager.as_int (if is_none current then PyInt 0 else current) = Some n ->
        exists self1,
          Manager.increment key delta t_get t_set self = (Success (n + delta), self1) /\
          (forall t, fst (Memory.get key t self1) = PyInt (n + delta)) /\
          (forall t, Memory.ttl key t self1 = -1) /\
          (forall t t', fst (Manager.decrement key delta t t' self1) = Success n)) /\
    (Manager.as_int (if is_none current then PyInt 0 else current) = None ->
     Manager.increment key delta t_get t_set self
     = (Failure ValueError, snd (Memory.get key t_get self))).
Proof.
  intros key delta t_get t_set self Hcap current. subst current.
  assert (Hcap0 : 0 < Memory._max_size (snd (Memory.get key t_get self)))
    by now rewrite Memory_get_max.
  split.
  - intros n Hn. unfold Manager.increment at 1. simpl Base.get. simpl Base.set.
    destruct (Memory.get key t_get self) as [v self0] eqn:Hget.
    cbn [fst snd] in *. rewrite Hn.
    destruct (Memory_set_writes key (PyInt (n + delta)) None false false t_set self0 None
                Hcap0 eq_refl)
      as [self1 [Hset [Hstored Hmax]]]; [discriminate |].
    rewrite Hset. exists self1.
    assert (Hread : forall t,
               Memory.get key t self1
               = (PyInt (n + delta),
                  Memory.with_cache self1
                    (OrderedDict.move_to_end key (Memory._cache self1)))).
    { intro t. unfold Memory.get. now rewrite Hstored. }
    split; [reflexivity |]. split; [| split].
    + intro t. now rewrite Hread.
    + intro t. unfold Memory.ttl. now rewrite Hstored.
    + intros t t'. unfold Manager.decrement, Manager.increment.
      simpl Base.get. simpl Base.set. rewrite Hread.
      cbn [is_none Manager.as_int].
      destruct (Memory_set_returns key (PyInt (n + delta + - delta)) None false false t'
                  (Memory.with_cache self1
                     (OrderedDict.move_to_end key (Memory._cache self1))) None)
        as (r & s2 & ->).
      * cbn [Memory._max_size Memory.with_cache]. lia.
      * reflexivity.
      * cbn [fst]. f_equal. lia.
  - intro Hn. unfold Manager.increment. simpl Base.get.
    destruct (Memory.get key t_get self) as [v self0]. cbn [fst snd] in *.
    now rewrite Hn.
Qed.

Lemma increment_counter_witness :
  exists self1,
    Manager.increment "hits" 5 0 0 (Memory.init 2) = (Success (0 + 5), self1) /\
    (forall t, fst (Memory.get "hits" t self1) = PyInt (0 + 5)) /\
    (forall t, Memory.ttl "hits" t self1 = -1) /\
    (forall t t', fst (Manager.decrement "hits" 5 t t' self1) = Success 0).
Proof.
  exact (proj1 (increment_counter (KStr "hits") 5 0%Q 0%Q (Memory.init 2)
                  ltac:(simpl; lia)) 0 eq_refl).
Defined.

(** The manager's [ttl].  On the memory engine, at one clock reading, it
    returns [n] exactly when the key holds a value a read would return and
    the engine's own [ttl] is the positive number [n]; an entry without
    expiry, one with less than a second left, a stored [None] and a missing
    key all give [None].  On the file engine, which has no [_cache], it
    always returns [None]. *)
Theorem manager_ttl_reports :
  (forall key now (self : Memory.MemoryBackend) n,
      fst (Manager.ttl key now now self) = Some n <->
      fst (Memory.get key now self) <> PyNone /\
      Memory.ttl key now self = n /\ 0 < n) /\
  (forall key t_exists now (self : File.FileBackend),
      fst (Manager.ttl key t_exists now self) = None).
Proof.
  split.
  - intros key now self n. unfold Manager.ttl. simpl Base.exists_.
    unfold Memory.exists_. cbv zeta. simpl _cache_attr.
    destruct (is_none (fst (Memory.get key now self))) eqn:Hnone; cbn [negb fst snd].
    + split; [discriminate |].
      intros [Hv _]. destruct (fst (Memory.get key now self));
        [now elim Hv | discriminate ..].
    + assert (Hv : fst (Memory.get key now self) <> PyNone)
        by (intro E; rewrite E in Hnone; discriminate).
      destruct (Memory_get_value_stored key now self Hv) as (e & Hk & He & Hk1).
      rewrite Hk1. unfold Memory.ttl. rewrite Hk.
      destruct e as [e |]; cbn [fst].
      * destruct (py_int (float_sub e now) >? 0) eqn:Hpos.
        -- apply Z.gtb_lt in Hpos. split.
           ++ intro E. injection E as <-. repeat split; [exact Hv | lia].
           ++ intros (_ & <- & _). reflexivity.
        -- split; [discriminate |]. intros (_ & <- & Hn). lia.
      * split; [discriminate |]. intros (_ & <- & Hn). lia.
  - intros key t_exists now self. unfold Manager.ttl. simpl Base.exists_.
    destruct (File.exists_ key t_exists self) as [found s0].
    destruct found; reflexivity.
Qed.

(** ** The health probe on the memory engine *)

(** Reading and then deleting the newest entry gives back the map without
    it, expired or not. *)
Lemma Memory_get_delete_last key v e t self (c : OrderedDict.t Memory.entry) :
  OrderedDict.getitem key c = None ->
  Memory._cache self = c ++ [(key, ((v, e) : Memory.entry))] ->
  Memory._cache (snd (Memory.delete key (snd (Memory.get key t self)))) = c.
Proof.
  intros Hk Hc.
  assert (Hlast : OrderedDict.getitem key (c ++ [(key, ((v, e) : Memory.entry))])
                  = Some (v, e)).
  { rewrite getitem_app, Hk. simpl. now rewrite Key_eqb_refl. }
  assert (Hdel : OrderedDict.delitem key (c ++ [(key, ((v, e) : Memory.entry))]) = c).
  { rewrite delitem_app. rewrite delitem_absent by exact Hk. simpl.
    rewrite Key_eqb_refl. apply app_nil_r. }
  unfold Memory.get. rewrite Hc, Hlast.
  destruct (Memory.is_expired t e); cbn [snd]; unfold Memory.delete;
    cbn [Memory._cache Memory.with_cache]; rewrite contains_getitem.
  - rewrite Hdel, Hk. reflexivity.
  - rewrite getitem_move_to_end, Hlast. cbn [snd Memory._cache Memory.with_cache].
    unfold OrderedDict.move_to_end. rewrite Hlast, Hdel.
    rewrite delitem_app. rewrite delitem_absent by exact Hk. simpl.
    rewrite Key_eqb_refl. apply app_nil_r.
Qed.

Lemma check_health_projections {B : Type} `{Base.BaseBackend B}
  (t_set t_get : Timestamp) (self : B) :
  Base.check_health t_set t_get self
  = match Base.set "__health_check__" (PyStr "ok") (Some 1) false false t_set self with
    | Raise _ => (false, self)
    | Return (_, self1) =>
        (value_eqb (fst (Base.get "__health_check__" t_get self1)) (PyStr "ok"),
         snd (Base.delete "__health_check__"
                (snd (Base.get "__health_check__" t_get self1))))
    end.
Proof.
  unfold Base.check_health.
  destruct (Base.set _ _ _ _ _ _ _) as [[r self1] | e]; [| reflexivity].
  destruct (Base.get _ _ _) as [v self2]. cbn [fst snd].
  now destruct (Base.delete _ _).
Qed.

(** The probe is written with a time to live of one second. *)
Lemma expiry_one (t : Timestamp) : expiry t (Some 1) = Return (Some (round53 (t + 1))).
Proof.
  unfold expiry, add_seconds.
  assert (float_of_int 1 = Return 1%Q) as -> by (vm_compute; reflexivity).
  reflexivity.
Qed.

(** [check_health] on the memory engine, with [t_set] and [t_get] the clock
    readings of its write and of its read.  With positive capacity the
    answer is [True] exactly when the read comes no later than the expiry
    the write stores, the float sum of [t_set] and one second; for a
    binary64 reading [t_set] from 2^30 up to 2^31 - 1 seconds (a multiple
    of 2^-22) the sum is exact and the answer is [True] exactly when the
    read comes no later than one second after the write; and the probe
    key is never left behind.  With capacity 0 the write is refused and
    the answer is [False].  When the probe key is not in use, an engine
    with room is left as it was, while a full engine loses its least
    recently used entry to the probe. *)
Theorem check_health_memory :
  forall t_set t_get (self : Memory.MemoryBackend),
    let probe := (KStr "__health_check__") in
    let after := snd (Base.check_health t_set t_get self) in
    (0 < Memory._max_size self ->
     exists e,
       add_seconds t_set 1 = Return e /\
       (fst (Base.check_health t_set t_get self) = true <-> (t_get <= e)%Q) /\
       (forall m : Z,
           2 ^ 52 <= m -> m + 2 ^ 22 < 2 ^ 53 ->
           (t_set == m # Z.to_pos (2 ^ 22))%Q ->
           (fst (Base.check_health t_set t_get self) = true
            <-> (t_get <= t_set + 1)%Q)) /\
       OrderedDict.getitem probe (Memory._cache after) = None) /\
    (OrderedDict.getitem probe (Memory._cache self) = None ->
     (Memory._max_size self = 0 ->
      Base.check_health t_set t_get self = (false, self)) /\
     (0 < Memory._max_size self ->
      Memory.len_ self < Memory._max_size self ->
      Memory._cache after = Memory._cache self) /\
     (0 < Memory._max_size self ->
      Memory._max_size self <= Memory.len_ self ->
      Memory._cache after = tl (Memory._cache self))).
Proof.
  intros t_set t_get self probe after. subst after.
  rewrite check_health_projections. simpl Base.set. simpl Base.get. simpl Base.delete.
  fold probe. split.
  - intro Hcap.
    destruct (Memory_set_writes probe (PyStr "ok") (Some 1) false false t_set self
                (Some (round53 (t_set + 1))) Hcap (expiry_one t_set))
      as [self1 [Hset [Hstored _]]]; [discriminate |].
    exists (round53 (t_set + 1)).
    assert (Hsum : add_seconds t_set 1 = Return (round53 (t_set + 1))).
    { pose proof (expiry_one t_set) as He. unfold expiry in He.
      destruct (add_seconds t_set 1) as [e | err]; [| discriminate].
      cbn [bind] in He. now injection He as ->. }
    split; [exact Hsum |].
    rewrite Hset. cbn [fst snd].
    unfold Memory.get. rewrite Hstored. cbn [Memory.is_expired].
    assert (Hexact : forall m : Z,
               2 ^ 52 <= m -> m + 2 ^ 22 < 2 ^ 53 ->
               (t_set == m # Z.to_pos (2 ^ 22))%Q ->
               (round53 (t_set + 1) == t_set + 1)%Q).
    { intros m Hlo Hhi Hm.
      apply (round53_exact (t_set + 1) (m + 2 ^ 22) 22); [lia | lia |].
      rewrite Hm. unfold Qeq, Qplus. cbn [Qnum Qden].
      change (Z.to_pos (2 ^ 22)) with 4194304%positive.
      change (2 ^ 22) with 4194304. lia. }
    assert (Hiff : forall b : bool,
               Qgt_bool t_get (round53 (t_set + 1)) = negb b ->
               b = true <-> (t_get <= round53 (t_set + 1))%Q).
    { intros [|] Hb; cbn [negb] in Hb.
      - apply Qgt_bool_false in Hb. tauto.
      - apply Qgt_bool_true in Hb. split; [discriminate | lra]. }
    destruct (Qgt_bool t_get (round53 (t_set + 1))) eqn:Hexp; cbn [fst snd value_eqb].
    + split; [now apply Hiff |]. split.
      * intros m Hlo Hhi Hm. rewrite <- (Hexact m Hlo Hhi Hm). now apply Hiff.
      * unfold Memory.delete. cbn [Memory._cache Memory.with_cache].
        rewrite contains_getitem, getitem_delitem_same. cbn [snd].
        cbn [Memory._cache Memory.with_cache]. apply getitem_delitem_same.
    + split; [now apply Hiff |]. split.
      * intros m Hlo Hhi Hm. rewrite <- (Hexact m Hlo Hhi Hm). now apply Hiff.
      * unfold Memory.delete. cbn [Memory._cache Memory.with_cache].
        rewrite contains_getitem, getitem_move_to_end, Hstored. cbn [snd].
        cbn [Memory._cache Memory.with_cache]. apply getitem_delitem_same.
  - intro Hk. split; [| split].
    + intro Hzero. unfold Memory.set. rewrite Hzero. cbn [Z.eqb].
      rewrite (Memory_get_absent probe t_get self Hk). cbn [fst snd].
      unfold Memory.delete. rewrite contains_getitem, Hk. reflexivity.
    + intros Hcap Hroom. unfold Memory.set.
      assert ((Memory._max_size self =? 0) = false) as -> by lia.
      rewrite contains_getitem, Hk, expiry_one. cbn [andb bind].
      assert ((Z.of_nat (length (Memory._cache self)) >=? Memory._max_size self) = false)
        as -> by (unfold Memory.len_ in Hroom; lia).
      rewrite setitem_absent by exact Hk. cbn [snd].
      apply Memory_get_delete_last
        with (v := PyStr "ok") (e := Some (round53 (t_set + 1)));
        [exact Hk | reflexivity].
    + intros Hcap Hfull. unfold Memory.set.
      assert ((Memory._max_size self =? 0) = false) as -> by lia.
      rewrite contains_getitem, Hk, expiry_one. cbn [andb bind].
      assert ((Z.of_nat (length (Memory._cache self)) >=? Memory._max_size self) = true)
        as -> by (unfold Memory.len_ in Hfull; lia).
      destruct (Memory._cache self) as [| [k0 v0] c] eqn:Hc;
        [unfold Memory.len_ in Hfull; rewrite Hc in Hfull; simpl in Hfull; lia |].
      cbn [OrderedDict.getitem] in Hk.
      destruct (Key.eqb probe k0); [discriminate |].
      cbn [OrderedDict.popitem_first bind snd tl].
      rewrite setitem_absent by exact Hk.
      apply Memory_get_delete_last
        with (v := PyStr "ok") (e := Some (round53 (t_set + 1)));
        [exact Hk | reflexivity].
Qed.

Lemma check_health_memory_witness :
  fst (Base.check_health (3400000001 # 2) (3400000003 # 2) (Memory.init 2)) = true
  <-> ((3400000003 # 2) <= (3400000001 # 2) + 1)%Q.
Proof.
  destruct (proj1 (check_health_memory (3400000001 # 2) (3400000003 # 2) (Memory.init 2))
              ltac:(simpl; lia))
    as (e & _ & _ & Hexact & _).
  apply (Hexact (3400000001 * 2 ^ 21)); [vm_compute; discriminate | reflexivity |].
  reflexivity.
Defined.

(** ** Acquiring a lock on the memory engine *)

(** One turn of the loop of [acquire] that finds a value under the lock
    key: nothing is written and the record stays. *)
Lemma Lock_poll_held (self : Lock.DistributedLock) start now
  (backend : Memory.MemoryBackend) v e :
  OrderedDict.getitem (Lock.name self) (Memory._cache backend) = Some (v, e) ->
  v <> PyNone ->
  Memory.is_expired now e = false ->
  exists backend1,
    Lock.acquire_poll self start now backend
    = Return (if negb (Lock.blocking self) then Lock.Refused
              else match Lock.blocking_timeout self with
                   | Some limit =>
                       if Qle_bool limit (now - start) then Lock.Refused else Lock.Sleep
                   | None => Lock.Sleep
                   end, self, backend1) /\
    Memory._max_size backend1 = Memory._max_size backend /\
    OrderedDict.getitem (Lock.name self) (Memory._cache backend1) = Some (v, e).
Proof.
  intros Hk Hv He.
  exists (Memory.with_cache backend
            (OrderedDict.move_to_end (Lock.name self) (Memory._cache backend))).
  split; [| split; [reflexivity |]].
  - unfold Lock.acquire_poll, Lock.acquire_read. simpl Base.get.
    unfold Memory.get. rewrite Hk, He.
    assert (is_none v = false) as -> by (destruct v; [now elim Hv | reflexivity ..]).
    destruct (negb (Lock.blocking self)); [reflexivity |].
    destruct (Lock.blocking_timeout self) as [limit |]; [| reflexivity].
    now destruct (Qle_bool limit (now - start)).
  - cbn [Memory._cache Memory.with_cache]. now rewrite getitem_move_to_end.
Qed.

(** [acquire] on a memory engine of positive capacity, for safety
    timeouts that convert to a float.  When a read of the lock key finds
    nothing, the first turn acquires: it returns [True], sets [_locked]
    and stores the token with the expiry [e], the float sum of the reading
    and the safety timeout.  At every reading up to [e], a non-blocking
    [acquire] of another lock of the same name returns [False] at once,
    stays unlocked and leaves the holder's token in place.  At a reading
    after [e] the other lock acquires and its token replaces the
    holder's. *)
Theorem lock_held_until_timeout :
  forall (lock1 lock2 : Lock.DistributedLock) start t0 later
         (backend : Memory.MemoryBackend) e,
    0 < Memory._max_size backend ->
    fst (Memory.get (Lock.name lock1) t0 backend) = PyNone ->
    Lock.name lock2 = Lock.name lock1 ->
    add_seconds t0 (Lock.timeout lock1) = Return e ->
    exists held,
      Lock.acquire lock1 start (t0 :: later) backend
      = Return (Some true, Lock.with_locked lock1 true, held) /\
      OrderedDict.getitem (KStr (Lock.name lock1)) (Memory._cache held)
      = Some (PyStr (Lock.identifier lock1), Some e) /\
      (forall start2 t later2,
          (t <= e)%Q ->
          Lock.blocking lock2 = false ->
          exists held1,
            Lock.acquire lock2 start2 (t :: later2) held
            = Return (Some false, lock2, held1) /\
            fst (Memory.get (Lock.name lock1) t held1)
            = PyStr (Lock.identifier lock1)) /\
      (forall start2 t later2 e2,
          (e < t)%Q ->
          add_seconds t (Lock.timeout lock2) = Return e2 ->
          exists taken,
            Lock.acquire lock2 start2 (t :: later2) held
            = Return (Some true, Lock.with_locked lock2 true, taken) /\
            OrderedDict.getitem (KStr (Lock.name lock1)) (Memory._cache taken)
            = Some (PyStr (Lock.identifier lock2), Some e2)).
Proof.
  intros lock1 lock2 start t0 later backend e Hcap Hfree Hname Hsum.
  assert (Hcap0 : 0 < Memory._max_size (snd (Memory.get (Lock.name lock1) t0 backend)))
    by now rewrite Memory_get_max.
  assert (Hexp1 : expiry t0 (Some (Lock.timeout lock1)) = Return (Some e))
    by (unfold expiry; now rewrite Hsum).
  destruct (Memory_set_writes (Lock.name lock1) (PyStr (Lock.identifier lock1))
              (Some (Lock.timeout lock1)) false false t0
              (snd (Memory.get (Lock.name lock1) t0 backend)) (Some e) Hcap0 Hexp1)
    as [held [Hset [Hstored Hmax]]]; [discriminate |].
  exists held. split; [| split; [exact Hstored | split]].
  - unfold Lock.acquire. cbn [Lock.acquire_loop].
    unfold Lock.acquire_poll, Lock.acquire_read, Lock.acquire_write. simpl Base.get.
    simpl Base.set.
    destruct (Memory.get (Lock.name lock1) t0 backend) as [v backend0].
    cbn [fst snd] in *. subst v. cbn [is_none]. rewrite Hset. reflexivity.
  - intros start2 t later2 Hlive Hnonblocking.
    destruct (Lock_poll_held lock2 start2 t held (PyStr (Lock.identifier lock1)) (Some e))
      as (held1 & Hpoll & _ & Hkept).
    + now rewrite Hname.
    + discriminate.
    + simpl. now apply Qgt_bool_false.
    + exists held1. split.
      * unfold Lock.acquire. cbn [Lock.acquire_loop]. rewrite Hpoll, Hnonblocking.
        reflexivity.
      * rewrite Hname in Hkept.
        apply (Memory_get_hit _ _ _ _ _ Hkept). simpl. now apply Qgt_bool_false.
  - intros start2 t later2 e2 Hdead Hsum2.
    assert (Hexp : Memory.is_expired t (Some e) = true)
      by (simpl; now apply Qgt_bool_true).
    assert (Hcap1 : 0 < Memory._max_size (snd (Memory.get (Lock.name lock1) t held)))
      by (rewrite Memory_get_max; lia).
    assert (Hexp2 : expiry t (Some (Lock.timeout lock2)) = Return (Some e2))
      by (unfold expiry; now rewrite Hsum2).
    destruct (Memory_set_writes (Lock.name lock1) (PyStr (Lock.identifier lock2))
                (Some (Lock.timeout lock2)) false false t
                (snd (Memory.get (Lock.name lock1) t held)) (Some e2) Hcap1 Hexp2)
      as [taken [Hset2 [Hstored2 _]]]; [discriminate |].
    exists taken. split; [| exact Hstored2].
    unfold Lock.acquire. cbn [Lock.acquire_loop].
    unfold Lock.acquire_poll, Lock.acquire_read, Lock.acquire_write. simpl Base.get.
    simpl Base.set. rewrite Hname.
    pose proof (Memory_get_expired _ _ _ _ _ Hstored Hexp) as Hmiss.
    destruct (Memory.get (Lock.name lock1) t held) as [v held0].
    cbn [fst snd] in *. subst v. cbn [is_none]. rewrite Hset2. reflexivity.
Qed.

Lemma lock_held_until_timeout_witness :
  exists held,
    Lock.acquire (Lock.init "job" 10 false None "owner-1") 0 [0%Q] (Memory.init 4)
    = Return (Some true,
              Lock.with_locked (Lock.init "job" 10 false None "owner-1") true, held) /\
    (forall start2 t later2,
        (t <= 10)%Q ->
        exists held1,
          Lock.acquire (Lock.init "job" 10 false None "owner-2") start2 (t :: later2) held
          = Return (Some false, Lock.init "job" 10 false None "owner-2", held1)) /\
    (exists taken,
        Lock.acquire (Lock.init "job" 10 false None "owner-2") 11 [11%Q] held
        = Return (Some true,
                  Lock.with_locked (Lock.init "job" 10 false None "owner-2") true, taken)).
Proof.
  destruct (lock_held_until_timeout
              (Lock.init "job" 10 false None "owner-1")
              (Lock.init "job" 10 false None "owner-2")
              0%Q 0%Q [] (Memory.init 4) 10%Q ltac:(simpl; lia) eq_refl eq_refl
              ltac:(vm_compute; reflexivity))
    as (held & Hacq & _ & Hrefuse & Htake).
  exists held. split; [exact Hacq |]. split.
  - intros start2 t later2 Hlive.
    destruct (Hrefuse start2 t later2 Hlive eq_refl) as (held1 & Hres & _).
    now exists held1.
  - destruct (Htake 11%Q 11%Q [] 21%Q ltac:(reflexivity) ltac:(vm_compute; reflexivity))
      as (taken & Hres & _).
    now exists taken.
Defined.

(** A blocking [acquire] against a record that stays unexpired over all the
    clock readings of its turns never acquires and never writes.  With a
    [blocking_timeout] it returns [False] as soon as a reading lies that
    long after the start, provided there is one; with none it is still
    polling when the readings end. *)
Theorem lock_blocking_wait :
  forall (lock : Lock.DistributedLock) start clock
         (backend : Memory.MemoryBackend) v e,
    OrderedDict.getitem (Lock.name lock) (Memory._cache backend) = Some (v, e) ->
    v <> PyNone ->
    (forall t, In t clock -> Memory.is_expired t e = false) ->
    Lock.blocking lock = true ->
    exists backend1,
      Lock.acquire lock start clock backend
      = Return (match Lock.blocking_timeout lock with
                | Some limit =>
                    if existsb (fun t => Qle_bool limit (t - start)) clock
                    then Some false else None
                | None => None
                end, lock, backend1) /\
      OrderedDict.getitem (Lock.name lock) (Memory._cache backend1) = Some (v, e).
Proof.
  intros lock start clock backend v e Hk Hv Hlive Hblocking.
  unfold Lock.acquire. revert backend Hk.
  induction clock as [| t clock IH]; intros backend Hk.
  - exists backend. split; [| exact Hk]. cbn [Lock.acquire_loop existsb].
    now destruct (Lock.blocking_timeout lock).
  - destruct (Lock_poll_held lock start t backend v e Hk Hv)
      as (backend1 & Hpoll & _ & Hkept); [apply Hlive; now left |].
    destruct (IH (fun t' Ht' => Hlive t' (or_intror Ht')) backend1 Hkept)
      as (backend2 & Hloop & Hkept2).
    cbn [Lock.acquire_loop existsb]. rewrite Hpoll, Hblocking. cbn [negb bind].
    destruct (Lock.blocking_timeout lock) as [limit |].
    + destruct (Qle_bool limit (t - start)); cbn [orb].
      * exists backend1. now split.
      * exists backend2. now split.
    + exists backend2. now split.
Qed.

Lemma lock_blocking_wait_witness :
  exists backend1,
    Lock.acquire (Lock.init "job" 10 true (Some 1%Q) "owner-2") 0 [0%Q; (1 # 2)%Q; 1%Q]
      (Memory.with_cache (Memory.init 4)
         [(KStr "lock:job", (PyStr "owner-1", Some 10%Q))])
    = Return (Some false, Lock.init "job" 10 true (Some 1%Q) "owner-2", backend1).
Proof.
  destruct (lock_blocking_wait (Lock.init "job" 10 true (Some 1%Q) "owner-2") 0%Q
              [0%Q; (1 # 2)%Q; 1%Q]
              (Memory.with_cache (Memory.init 4)
                 [(KStr "lock:job", (PyStr "owner-1", Some 10%Q))])
              (PyStr "owner-1") (Some 10%Q) eq_refl ltac:(discriminate)
              ltac:(intros t [<- | [<- | [<- | []]]]; reflexivity) eq_refl)
    as (backend1 & Hres & _).
  exists backend1. exact Hres.
Defined.

(** ** Eviction in the file engine *)

Lemma File_insert_by_access_perm r sorted :
  Permutation (File.insert_by_access r sorted) (r :: sorted).
Proof.
  induction sorted as [| x sorted IH]; simpl; [apply Permutation_refl |].
  destruct (Qle_bool (File.last_access r) (File.last_access x));
    [apply Permutation_refl |].
  eapply Permutation_trans; [apply perm_skip, IH | apply perm_swap].
Qed.

Lemma File_order_perm rows : Permutation (File.order_by_last_access rows) rows.
Proof.
  induction rows as [| r rows IH]; simpl; [apply perm_nil |].
  eapply Permutation_trans; [apply File_insert_by_access_perm | now apply perm_skip].
Qed.

(** [ORDER BY last_access ASC] gives the rows oldest access first. *)
Lemma File_order_sorted rows :
  ForallOrdPairs (fun a b => (File.last_access a <= File.last_access b)%Q)
    (File.order_by_last_access rows).
Proof.
  induction rows as [| r rows IH]; simpl; [constructor |].
  induction IH as [| x sorted Hx Hsorted IHs]; simpl.
  - constructor; constructor.
  - destruct (Qle_bool (File.last_access r) (File.last_access x)) eqn:Hle.
    + apply Qle_bool_iff in Hle. constructor; [| now constructor].
      constructor; [exact Hle |].
      eapply Forall_impl; [| exact Hx]. intros y Hy. cbv beta in *. lra.
    + assert (Hlt : (File.last_access x < File.last_access r)%Q).
      { apply Qnot_le_lt. intro Hc. apply Qle_bool_iff in Hc. congruence. }
      constructor; [| exact IHs].
      apply Forall_forall. intros y Hy. apply File_insert_by_access_In in Hy as [-> | Hy].
      * lra.
      * rewrite Forall_forall in Hx. now apply Hx.
Qed.

Lemma ForallOrdPairs_app_In {A : Type} (R : A -> A -> Prop) (l1 l2 : list A) a b :
  ForallOrdPairs R (l1 ++ l2) -> In a l1 -> In b l2 -> R a b.
Proof.
  induction l1 as [| x l1 IH]; simpl; intros Hs Ha Hb; [contradiction |].
  inversion Hs as [| x' l' Hx Hrest]; subst.
  destruct Ha as [-> | Ha].
  - rewrite Forall_forall in Hx. apply Hx, in_or_app. now right.
  - now apply IH.
Qed.

Lemma Permutation_filter_same {A : Type} (p : A -> bool) (l1 l2 : list A) :
  Permutation l1 l2 -> Permutation (filter p l1) (filter p l2).
Proof.
  induction 1 as [| x l1 l2 _ IH | x y l | l1 l2 l3 _ IH1 _ IH2]; simpl.
  - apply perm_nil.
  - destruct (p x); [now apply perm_skip | exact IH].
  - destruct (p x), (p y); try apply Permutation_refl. apply perm_swap.
  - eapply Permutation_trans; eassumption.
Qed.

Lemma NoDup_map_filter {A K : Type} (f : A -> K) (p : A -> bool) (l : list A) :
  NoDup (map f l) -> NoDup (map f (filter p l)).
Proof.
  induction l as [| x l IH]; simpl; intro Hnd; [constructor |].
  inversion Hnd as [| y ys Hx Hrest]; subst.
  destruct (p x); simpl; [| now apply IH].
  constructor; [| now apply IH].
  intro Hin. apply Hx. apply in_map_iff in Hin as (z & Hz & Hin).
  apply filter_In in Hin as [Hin _]. apply in_map_iff. now exists z.
Qed.

Lemma File_insert_or_replace_NoDup r rows :
  NoDup (map File.key rows) ->
  NoDup (map File.key (File.insert_or_replace r rows)).
Proof.
  intro Hnd. unfold File.insert_or_replace. rewrite map_app. simpl.
  apply NoDup_app_remove_l with (l := []). simpl.
  apply Permutation_NoDup with (l := File.key r :: map File.key (File.delete_key (File.key r) rows)).
  - apply Permutation_cons_append.
  - constructor.
    + intro Hin. apply in_map_iff in Hin as (z & Hz & Hin).
      apply File_delete_key_keys in Hin as [Hne _]. congruence.
    + unfold File.delete_key. now apply NoDup_map_filter.
Qed.

Lemma NoDup_app_disjoint {A : Type} (l1 l2 : list A) a :
  NoDup (l1 ++ l2) -> In a l1 -> In a l2 -> False.
Proof.
  induction l1 as [| x l1 IH]; simpl; intros Hnd H1 H2; [contradiction |].
  inversion Hnd as [| y ys Hx Hrest]; subst.
  destruct H1 as [-> | H1]; [| now apply IH].
  apply Hx, in_or_app. now right.
Qed.

Lemma existsb_sql_In k keys : existsb (File.sql_eqb k) keys = true <-> In k keys.
Proof.
  rewrite existsb_exists. split.
  - intros [x [Hx E]]. apply sql_eqb_eq in E. now subst x.
  - intro Hin. exists k. split; [exact Hin | apply sql_eqb_refl].
Qed.

(** With unique keys, [_evict_if_needed] over capacity keeps the rows that
    come after the first [to_delete] ones in the order of last access. *)
Lemma File_evict_keeps_tail max_size rows rows1 :
  File._evict_if_needed max_size rows = Return rows1 ->
  NoDup (map File.key rows) ->
  Z.of_nat (length rows) > max_size ->
  Permutation rows1
    (skipn (Z.to_nat (Z.of_nat (length rows) - max_size))
       (File.order_by_last_access rows)).
Proof.
  intros Hrun Hnd Hover. unfold File._evict_if_needed in Hrun. cbv zeta in Hrun.
  assert ((Z.of_nat (length rows) >? max_size) = true) as Hgt by lia.
  rewrite Hgt in Hrun.
  destruct (Z.of_nat (length rows) - max_size >? 2 ^ 63 - 1); [discriminate |].
  injection Hrun as <-.
  set (n := Z.to_nat (Z.of_nat (length rows) - max_size)).
  set (sorted := File.order_by_last_access rows).
  set (p := fun r : File.Row =>
              negb (existsb (File.sql_eqb (File.key r)) (map File.key (firstn n sorted)))).
  eapply Permutation_trans;
    [apply Permutation_filter_same, Permutation_sym, File_order_perm |].
  fold sorted.
  assert (Hnds : NoDup (map File.key (firstn n sorted) ++ map File.key (skipn n sorted))).
  { rewrite <- map_app, firstn_skipn.
    eapply Permutation_NoDup; [| exact Hnd].
    apply Permutation_map, Permutation_sym, File_order_perm. }
  rewrite <- (firstn_skipn n sorted) at 1. rewrite filter_app.
  rewrite (filter_all_false p (firstn n sorted)).
  - rewrite (filter_all_true p (skipn n sorted)); [apply Permutation_refl |].
    intros r Hr. unfold p. apply negb_true_iff.
    destruct (existsb _ _) eqn:Hex; [| reflexivity].
    apply existsb_sql_In in Hex. exfalso.
    apply (NoDup_app_disjoint _ _ (File.key r) Hnds Hex). now apply in_map.
  - intros r Hr. unfold p. apply negb_false_iff, existsb_sql_In. now apply in_map.
Qed.

Lemma File_evict_cases max_size rows rows1 :
  File._evict_if_needed max_size rows = Return rows1 ->
  (Z.of_nat (length rows) <= max_size /\ rows1 = rows) \/
  (Z.of_nat (length rows) > max_size /\ exists p, rows1 = filter p rows).
Proof.
  unfold File._evict_if_needed. cbv zeta. intro Hrun.
  destruct (Z.of_nat (length rows) >? max_size) eqn:Hover.
  - right. split; [lia |].
    destruct (Z.of_nat (length rows) - max_size >? 2 ^ 63 - 1); [discriminate |].
    injection Hrun as <-. eexists. reflexivity.
  - left. injection Hrun as <-. split; [lia | reflexivity].
Qed.

(** A successful [set] on the file engine, whose table has one row per key
    (the primary key).  The key and the time to live were bound, and with
    [inserted] the table after the insert of the new row: the table still
    has one row per key, and it holds the smaller of the number of rows of
    [inserted] and the capacity (no row when the capacity is 0 or
    negative).  Only rows of [inserted] remain, and eviction goes by last
    access: every evicted row was last accessed no later than every row
    that is kept. *)
Theorem File_eviction_lru :
  forall k v ttl ex nx now (self self1 : File.FileBackend),
    NoDup (map File.key (File.cache_entries self)) ->
    File.set k v ttl ex nx now self = Return (true, self1) ->
    exists sk expires_at,
      File.bind_key k = Return sk /\
      expiry now ttl = Return expires_at /\
      let inserted :=
        File.insert_or_replace (File.mkRow sk v expires_at now now)
          (File.cache_entries self) in
      NoDup (map File.key (File.cache_entries self1)) /\
      File.len_ self1
      = Z.min (Z.of_nat (length inserted)) (Z.max 0 (File._max_size self)) /\
      (forall r, In r (File.cache_entries self1) -> In r inserted) /\
      (forall evicted kept,
          In evicted inserted ->
          ~ In evicted (File.cache_entries self1) ->
          In kept (File.cache_entries self1) ->
          (File.last_access evicted <= File.last_access kept)%Q).
Proof.
  intros k v ttl ex nx now self self1 Hnd Hset.
  unfold File.set, File.set_body in Hset.
  destruct (expiry now ttl) as [expires_at | err]; [| discriminate].
  cbn [bind] in Hset.
  destruct (File.bind_key k) as [sk | err]; [| discriminate].
  cbn [bind] in Hset. cbv zeta in Hset.
  exists sk, expires_at. split; [reflexivity |]. split; [reflexivity |].
  intro inserted. fold inserted in Hset.
  destruct (nx && _) in Hset; [discriminate |].
  destruct (File._evict_if_needed (File._max_size self) inserted) as [rows1 | err]
    eqn:Hevict; [| discriminate].
  cbn [bind] in Hset. injection Hset as <-.
  unfold File.len_. cbn [File.cache_entries File.with_table].
  assert (Hndi : NoDup (map File.key inserted))
    by now apply File_insert_or_replace_NoDup.
  assert (Hsub : forall r, In r rows1 -> In r inserted).
  { intros r Hr.
    destruct (File_evict_cases _ _ _ Hevict) as [[_ ->] | [_ [p ->]]]; [exact Hr |].
    now apply filter_In in Hr. }
  split; [| split; [| split; [exact Hsub |]]].
  - destruct (File_evict_cases _ _ _ Hevict) as [[_ ->] | [_ [p ->]]]; [exact Hndi |].
    now apply NoDup_map_filter.
  - destruct (File_evict_cases _ _ _ Hevict) as [[Hfits ->] | [Hover _]]; [lia |].
    rewrite (Permutation_length (File_evict_keeps_tail _ _ _ Hevict Hndi Hover)).
    rewrite length_skipn, File_order_length. lia.
  - intros evicted kept Hin Hout Hkept.
    destruct (File_evict_cases _ _ _ Hevict) as [[Hfits ->] | [Hover _]];
      [contradiction |].
    pose proof (File_evict_keeps_tail _ _ _ Hevict Hndi Hover) as Hperm.
    set (n := Z.to_nat (Z.of_nat (length inserted) - File._max_size self)) in *.
    apply (ForallOrdPairs_app_In
             (fun a b => (File.last_access a <= File.last_access b)%Q)
             (firstn n (File.order_by_last_access inserted))
             (skipn n (File.order_by_last_access inserted))).
    + rewrite firstn_skipn. apply File_order_sorted.
    + apply File_order_In in Hin. rewrite <- (firstn_skipn n) in Hin.
      apply in_app_or in Hin as [Hin | Hin]; [exact Hin |].
      exfalso. apply Hout. eapply Permutation_in; [apply Permutation_sym, Hperm | exact Hin].
    + eapply Permutation_in; [exact Hperm | exact Hkept].
Qed.

Lemma File_eviction_lru_witness :
  File.set "b" (PyInt 2) None false false 5
    (File.with_table (File.init 1) [File.mkRow (File.SqlText "a") (PyInt 1) None 3 3])
  = Return (true,
            File.with_table (File.init 1)
              [File.mkRow (File.SqlText "b") (PyInt 2) None 5 5]) /\
  File.len_ (File.with_table (File.init 1)
               [File.mkRow (File.SqlText "b") (PyInt 2) None 5 5])
  = Z.min 2 (Z.max 0 1).
Proof.
  assert (Hset : File.set "b" (PyInt 2) None false false 5
                   (File.with_table (File.init 1)
                      [File.mkRow (File.SqlText "a") (PyInt 1) None 3 3])
                 = Return (true,
                           File.with_table (File.init 1)
                             [File.mkRow (File.SqlText "b") (PyInt 2) None 5 5]))
    by (vm_compute; reflexivity).
  split; [exact Hset |].
  destruct (File_eviction_lru (KStr "b") (PyInt 2) None false false 5%Q
              (File.with_table (File.init 1)
                 [File.mkRow (File.SqlText "a") (PyInt 1) None 3 3])
              (File.with_table (File.init 1)
                 [File.mkRow (File.SqlText "b") (PyInt 2) None 5 5])
              ltac:(repeat constructor; simpl; tauto) Hset)
    as (sk & expires_at & Hsk & Hexp & _ & Hlen & _).
  injection Hsk as <-. injection Hexp as <-. exact Hlen.
Defined.

(** ** Invalidation by pattern on the memory engine *)

Lemma fnmatch_filter_Subseq fnmatch pattern (all_keys : list CacheKey) :
  forall matched,
    fnmatch_filter fnmatch pattern all_keys = Return matched ->
    Subseq matched all_keys.
Proof.
  induction all_keys as [| k rest IH]; simpl; intros matched Hrun.
  - injection Hrun as <-. constructor.
  - destruct (fnmatch_key fnmatch pattern k) as [m | e]; [| discriminate].
    cbn [bind] in Hrun.
    destruct (fnmatch_filter fnmatch pattern rest) as [matched0 | e]; [| discriminate].
    cbn [bind] in Hrun. injection Hrun as <-.
    destruct m; constructor; now apply IH.
Qed.

(** [fnmatch] raises on no key that is a [str]. *)
Lemma fnmatch_filter_str fnmatch pattern (all_keys : list CacheKey) :
  forallb Key.is_str all_keys = true ->
  exists matched, fnmatch_filter fnmatch pattern all_keys = Return matched.
Proof.
  induction all_keys as [| k rest IH]; simpl; intro Hstr; [now eexists |].
  apply andb_prop in Hstr as [Hk Hrest].
  destruct (IH Hrest) as [matched0 ->].
  destruct k as [s | z | b]; try discriminate.
  simpl. now eexists.
Qed.

Lemma Memory_matched_keys fnmatch pattern (self : Memory.MemoryBackend) matched :
  Memory_matched fnmatch pattern self = Return matched ->
  NoDup (OrderedDict.keys (Memory._cache self)) ->
  NoDup matched /\
  (forall k, In k matched -> In k (OrderedDict.keys (Memory._cache self))).
Proof.
  unfold Memory_matched. intros Hm Hnd.
  assert (Hsub : Subseq matched (OrderedDict.keys (Memory._cache self))).
  { destruct (String.eqb pattern "*").
    - injection Hm as <-. apply Subseq_refl.
    - now apply (fnmatch_filter_Subseq fnmatch pattern). }
  split; [now apply (Subseq_NoDup _ _ Hsub) |].
  intros k Hk. now apply (Subseq_In _ _ _ Hsub).
Qed.

(** [invalidate_pattern] without [max_keys] (and so [invalidate_prefix]) on
    a memory engine, with a positive batch size, when the pattern is ["*"]
    or every stored key is a [str] ([fnmatch] raises [TypeError] on other
    keys).  The scan matches a list of keys without raising, and given a
    reading of the clock for each of its pages the call removes the
    entries whose keys match the pattern, expired ones included, returns
    their number, and leaves every other entry as it was. *)
Theorem Memory_invalidate_pattern :
  forall (fnmatch : string -> string -> bool) (pattern : string) (now : Timestamp)
         (inv : Invalidator.CacheInvalidator) (self : Memory.MemoryBackend)
         (clock : list Timestamp),
    NoDup (OrderedDict.keys (Memory._cache self)) ->
    pattern = "*"%string \/
    forallb Key.is_str (OrderedDict.keys (Memory._cache self)) = true ->
    clock <> [] ->
    0 < Invalidator.batch_size inv ->
    exists matched,
      Memory_matched fnmatch pattern self = Return matched /\
      (Z.of_nat (length matched) <= 100 * Z.of_nat (length clock) ->
       exists inv1 self1,
         Invalidator.invalidate_pattern (H0 := MemoryKeySpace fnmatch)
           clock pattern None now inv self
         = Some (Success (Z.of_nat (length matched)), inv1, self1) /\
         Memory._max_size self1 = Memory._max_size self /\
         (forall k, In k matched ->
                    OrderedDict.getitem k (Memory._cache self1) = None) /\
         (forall k, ~ In k matched ->
                    OrderedDict.getitem k (Memory._cache self1)
                    = OrderedDict.getitem k (Memory._cache self))).
Proof.
  intros fnmatch pattern now inv self clock Hnd Hstr Hne Hsize.
  assert (Hm : exists matched, Memory_matched fnmatch pattern self = Return matched).
  { unfold Memory_matched. destruct Hstr as [-> | Hstr].
    - now eexists.
    - destruct (String.eqb pattern "*"); [now eexists |].
      now apply fnmatch_filter_str. }
  destruct Hm as [matched Hm]. exists matched. split; [exact Hm |]. intro Hlen.
  destruct (Memory_matched_keys fnmatch pattern self matched Hm Hnd) as [Hndm Hsub].
  unfold Invalidator.invalidate_pattern.
  rewrite (Memory_scan_pattern_all fnmatch pattern clock self matched Hne Hlen Hm).
  pose proof (invalidate_keys_cases Memory.MemoryBackend MemoryEngine
                matched None now inv self) as Hbatch.
  cbv zeta in Hbatch. destruct Hbatch as (Hpos & _ & _).
  destruct (Hpos Hsize) as [Hres Hstate].
  destruct (Invalidator.invalidate_keys matched None now inv self) as [[res inv1] self1].
  cbn [fst snd] in Hres, Hstate. subst res self1.
  assert (Hcount : fst (Base.delete_many matched self) = Z.of_nat (length matched)).
  { unfold Base.delete_many. rewrite (Memory_delete_many_count matched Hndm 0 self).
    rewrite filter_all_true; [reflexivity |].
    intros k Hk. now apply contains_In_keys, Hsub. }
  assert (Hcache : Memory._cache (snd (Base.delete_many matched self))
                   = filter (fun kv => negb (existsb (Key.eqb (fst kv)) matched))
                       (Memory._cache self)).
  { unfold Base.delete_many.
    now rewrite (proj1 (Memory_delete_many_cache matched 0 self)), delitems_filter. }
  eexists. eexists. split; [rewrite Hcount; reflexivity |].
  split; [apply (proj2 (Memory_delete_many_cache matched 0 self)) |].
  split.
  - intros k Hk. rewrite Hcache, getitem_filter by exact Hnd.
    destruct (OrderedDict.getitem k (Memory._cache self)); [| reflexivity].
    cbn [fst]. now rewrite (proj2 (existsb_eqb_In k matched) Hk).
  - intros k Hk. rewrite Hcache, getitem_filter by exact Hnd.
    destruct (OrderedDict.getitem k (Memory._cache self)); [| reflexivity].
    cbn [fst]. destruct (existsb (Key.eqb k) matched) eqn:Hex; [| reflexivity].
    apply existsb_eqb_In in Hex. contradiction.
Qed.

Lemma Memory_invalidate_pattern_witness :
  exists inv1 self1,
    Invalidator.invalidate_pattern
      (H0 := MemoryKeySpace (fun k _ => String.prefix "user:" k)) [10%Q] "user:*" None 10
      (Invalidator.mkInvalidator 100 false [] 0)
      (Memory.mkMemoryBackend 5
         [(KStr "user:1", (PyInt 1, None)); (KStr "job", (PyInt 2, Some 5%Q))]
         false (Some true))
    = Some (Success 1, inv1, self1) /\
    OrderedDict.getitem "job" (Memory._cache self1) = Some (PyInt 2, Some 5%Q).
Proof.
  destruct (Memory_invalidate_pattern (fun k _ => String.prefix "user:" k) "user:*" 10%Q
              (Invalidator.mkInvalidator 100 false [] 0)
              (Memory.mkMemoryBackend 5
                 [(KStr "user:1", (PyInt 1, None)); (KStr "job", (PyInt 2, Some 5%Q))]
                 false (Some true)) [10%Q]
              ltac:(repeat constructor; simpl; intuition discriminate)
              ltac:(right; reflexivity) ltac:(discriminate) ltac:(simpl; lia))
    as (matched & Hm & Hrun).
  vm_compute in Hm. injection Hm as <-.
  destruct (Hrun ltac:(simpl; lia)) as (inv1 & self1 & Hres & _ & _ & Hkept).
  exists inv1, self1. split; [exact Hres |].
  rewrite (Hkept (KStr "job")); [reflexivity |].
  simpl. intuition discriminate.
Defined.

(** ** The sweep of the file engine *)

Lemma File_select_filter (g : File.Row -> bool) (k : File.SqlKey) (rows : list File.Row) :
  NoDup (map File.key rows) ->
  File.select_key k (filter g rows)
  = match File.select_key k rows with
    | Some r => if g r then Some r else None
    | None => None
    end.
Proof.
  unfold File.select_key.
  induction rows as [| r rows IH]; simpl; intro Hnd; [reflexivity |].
  inversion Hnd as [| x l Hout Hrest]; subst.
  destruct (File.sql_eqb k (File.key r)) eqn:E.
  - destruct (g r); simpl; [now rewrite E |].
    apply find_all_false. intros y Hy. apply filter_In in Hy as [Hy _].
    apply sql_eqb_neq. intro Heq. apply Hout.
    apply sql_eqb_eq in E. subst k. rewrite Heq. now apply in_map.
  - destruct (g r); simpl; [rewrite E |]; now apply IH.
Qed.

Lemma filter_filter_implied {A : Type} (f g : A -> bool) (l : list A) :
  (forall x, In x l -> f x = true -> g x = true) ->
  filter f (filter g l) = filter f l.
Proof.
  induction l as [| x l IH]; simpl; intro Himp; [reflexivity |].
  assert (IHl : filter f (filter g l) = filter f l)
    by (apply IH; intros y Hy; apply Himp; now right).
  destruct (g x) eqn:Hg; simpl.
  - now rewrite IHl.
  - destruct (f x) eqn:Hf; [| exact IHl].
    rewrite (Himp x (or_introl eq_refl) Hf) in Hg. discriminate.
Qed.

(** The sweep of the file engine, on a table with one row per key: no read
    and no listing of keys made at the time of the sweep or later can tell
    whether it has run, and it never adds a row. *)
Theorem File_sweep_unobservable :
  forall now t (self : File.FileBackend),
    NoDup (map File.key (File.cache_entries self)) ->
    (now <= t)%Q ->
    (forall k,
        fst (File.get k t (File._cleanup_expired now self)) = fst (File.get k t self)) /\
    (forall fnmatch pattern cursor count max_keys,
        File.keys fnmatch pattern cursor count max_keys t (File._cleanup_expired now self)
        = File.keys fnmatch pattern cursor count max_keys t self) /\
    File.len_ (File._cleanup_expired now self) <= File.len_ self /\
    NoDup (map File.key (File.cache_entries (File._cleanup_expired now self))).
Proof.
  intros now t self Hnd Ht. split; [| split; [| split]].
  - intro k. unfold File.get, File._cleanup_expired. cbv zeta.
    cbn [File.cache_entries File.with_table].
    rewrite (File_select_filter _ (File.bind_str k) _ Hnd).
    destruct (File.select_key (File.bind_str k) (File.cache_entries self)) as [row |];
      [| reflexivity].
    destruct (File.is_expired now (File.expires_at row)) eqn:He; cbn [negb].
    + destruct (File.expires_at row) as [e |]; [| discriminate].
      simpl in He. apply Qgt_bool_true in He.
      assert (File.is_expired t (Some e) = true) as ->
          by (simpl; apply Qgt_bool_true; lra).
      reflexivity.
    + now destruct (File.is_expired t (File.expires_at row)).
  - intros fnmatch pattern cursor count max_keys. unfold File.keys, File._cleanup_expired.
    cbn [File.cache_entries File.with_table].
    rewrite filter_filter_implied; [reflexivity |].
    intros r _ Hlive. apply negb_true_iff.
    destruct (File.expires_at r) as [e |]; [| reflexivity].
    simpl in *. apply Qgt_bool_true in Hlive. apply Qgt_bool_false. lra.
  - unfold File.len_, File._cleanup_expired. cbn [File.cache_entries File.with_table].
    pose proof (filter_length_le
                  (fun r => negb (File.is_expired now (File.expires_at r)))
                  (File.cache_entries self)).
    lia.
  - unfold File._cleanup_expired. cbn [File.cache_entries File.with_table].
    now apply NoDup_map_filter.
Qed.

Lemma File_sweep_unobservable_witness :
  fst (File.get "a" 7
         (File._cleanup_expired 6
            (File.with_table (File.init 4)
               [File.mkRow (File.SqlText "a") (PyInt 1) (Some 5%Q) 3 3])))
  = fst (File.get "a" 7
           (File.with_table (File.init 4)
              [File.mkRow (File.SqlText "a") (PyInt 1) (Some 5%Q) 3 3])).
Proof.
  apply (proj1 (File_sweep_unobservable 6%Q 7%Q
                  (File.with_table (File.init 4)
                     [File.mkRow (File.SqlText "a") (PyInt 1) (Some 5%Q) 3 3])
                  ltac:(repeat constructor; simpl; tauto)
                  ltac:(apply Qle_bool_iff; reflexivity))).
Defined.

(** ** The invalidation log *)

Lemma log_invalidation_bounded now method details count self :
  (length (Invalidator._invalidation_log self) <= 100)%nat ->
  (length (Invalidator._invalidation_log
             (Invalidator._log_invalidation now method details count self)) <= 100)%nat /\
  last (Invalidator._invalidation_log
          (Invalidator._log_invalidation now method details count self))
    (Invalidator.mkLogEntry now method details count)
  = Invalidator.mkLogEntry now method details count.
Proof.
  intro Hlen. unfold Invalidator._log_invalidation.
  cbn [Invalidator._invalidation_log].
  set (entry := Invalidator.mkLogEntry now method details count).
  destruct (Z.of_nat (length (Invalidator._invalidation_log self ++ [entry])) >? 100)
    eqn:Hover.
  - destruct (Invalidator._invalidation_log self) as [| e0 log].
    + simpl in Hover. discriminate.
    + cbn [app tl]. split.
      * rewrite length_app. simpl in *. lia.
      * apply last_last.
  - split.
    + rewrite Z.gtb_ltb in Hover. apply Z.ltb_ge in Hover. lia.
    + apply last_last.
Qed.

Lemma invalidate_batches_log {B : Type} `{Base.BaseBackend B}
  (keys : list CacheKey) (size : Z) (now : Timestamp) (batches : list Z) :
  forall total self (backend : B),
    (length (Invalidator._invalidation_log self) <= 100)%nat ->
    (length (Invalidator._invalidation_log
               (snd (fst (fold_left (Invalidator.invalidate_batch keys size now)
                            batches (total, self, backend))))) <= 100)%nat.
Proof.
  induction batches as [| i batches IH]; intros total self backend Hlen; [exact Hlen |].
  cbn [fold_left]. unfold Invalidator.invalidate_batch at 2.
  destruct (Base.delete_many _ backend) as [count backend1].
  apply IH. now apply log_invalidation_bounded.
Qed.

(** The invalidation log never holds more than 100 entries: whatever the
    number of batches, [invalidate_keys], [invalidate_pattern] and
    [invalidate_all] leave a log of at most 100 entries when they start
    from one. *)
Theorem invalidation_log_bounded :
  forall (B : Type) (E : Base.BaseBackend B) (K : KeySpace B)
         (inv : Invalidator.CacheInvalidator) (backend : B) (now : Timestamp),
    (length (Invalidator._invalidation_log inv) <= 100)%nat ->
    (forall keys size,
        (length (Invalidator._invalidation_log
                   (snd (fst (Invalidator.invalidate_keys keys size now inv backend))))
         <= 100)%nat) /\
    (forall clock pattern max_keys r inv1 backend1,
        Invalidator.invalidate_pattern clock pattern max_keys now inv backend
        = Some (r, inv1, backend1) ->
        (length (Invalidator._invalidation_log inv1) <= 100)%nat) /\
    (forall clock n inv1 backend1,
        Invalidator.invalidate_all clock now inv backend = Some (n, inv1, backend1) ->
        (length (Invalidator._invalidation_log inv1) <= 100)%nat).
Proof.
  intros B E K inv backend now Hlen.
  assert (Hkeys : forall keys size,
             (length (Invalidator._invalidation_log
                        (snd (fst (Invalidator.invalidate_keys keys size now inv backend))))
              <= 100)%nat).
  { intros keys size. unfold Invalidator.invalidate_keys.
    destruct keys as [| k0 ks]; [exact Hlen |].
    destruct (_ =? 0); [exact Hlen |].
    match goal with
    | |- context [fold_left ?f ?l ?a] =>
        pose proof (invalidate_batches_log (k0 :: ks)
                      match size with Some b => b | None => Invalidator.batch_size inv end
                      now l 0 inv backend Hlen) as Hfold;
        destruct (fold_left f l a) as [[total self1] backend1]
    end.
    exact Hfold. }
  split; [exact Hkeys | split].
  - intros clock pattern max_keys r inv1 backend1. unfold Invalidator.invalidate_pattern.
    destruct (Invalidator.scan_pattern _ _ _ _ _ _) as [[scanned | e scanned] |];
      [| intro Hres; injection Hres as _ <- _; exact Hlen | discriminate].
    match goal with
    | |- context [Invalidator.invalidate_keys ?ks None now inv backend] =>
        pose proof (Hkeys ks None) as Hk;
        destruct (Invalidator.invalidate_keys ks None now inv backend)
          as [[res self1] backend2]
    end.
    cbn [fst snd] in Hk. destruct res as [c | e]; intro Hres; injection Hres as _ <- _.
    + now apply log_invalidation_bounded.
    + exact Hk.
  - intros clock n inv1 backend1. unfold Invalidator.invalidate_all.
    destruct (Invalidator.scan_all _ _ _ _) as [[all_keys | e all_keys] |];
      [| intro Hres; injection Hres as _ <- _; now apply log_invalidation_bounded
       | discriminate].
    pose proof (Hkeys all_keys None) as Hk.
    destruct (Invalidator.invalidate_keys all_keys None now inv backend)
      as [[res self1] backend2].
    cbn [fst snd] in Hk. destruct res as [c | e]; intro Hres; injection Hres as _ <- _;
      now apply log_invalidation_bounded.
Qed.

Lemma invalidation_log_bounded_witness :
  (length (Invalidator._invalidation_log
             (snd (fst (Invalidator.invalidate_keys [KStr "a"; KStr "b"; KStr "c"] (Some 1%Z) 5%Q
                          (Invalidator.mkInvalidator 100%Z false [] 0%Q)
                          (Memory.init 4%Z))))) <= 100)%nat.
Proof.
  apply (proj1 (invalidation_log_bounded Memory.MemoryBackend MemoryEngine
                  (MemoryKeySpace (fun _ _ => true))
                  (Invalidator.mkInvalidator 100 false [] 0) (Memory.init 4) 5%Q
                  ltac:(simpl; lia))).
Defined.

(** ** Keys of the file engine that are not text *)

(** [FileBackend.set] binds the key itself and [get] and [delete] bind
    [str(key)].  For a [bytes] key the row is stored under a BLOB, which no
    text equals: after a [set] that returns true on an empty engine of
    positive capacity, [get] of the same key returns [None] and [delete]
    returns false, both leaving the table as it is, while [keys] lists the
    key. *)
Theorem File_bytes_key_not_found :
  forall (fnmatch : string -> string -> bool) (b : string) (v : CacheValue)
         (capacity : positive) (now t : Timestamp),
    let self1 :=
      File.with_table (File.init (Zpos capacity))
        [File.mkRow (File.SqlBlob b) v None now now] in
    File.set (KBytes b) v None false false now (File.init (Zpos capacity))
    = Return (true, self1) /\
    File.get (KBytes b) t self1 = (PyNone, self1) /\
    File.delete (KBytes b) self1 = (false, self1) /\
    File.keys fnmatch "*" 0 100 None t self1
    = Return (mkKeysPage [KBytes b] 0 false 1).
Proof.
  intros fnmatch b v capacity now t self1. subst self1.
  split; [| split; [| split]].
  - unfold File.set, File.set_body. cbn [expiry File.bind_key bind andb].
    unfold File.insert_or_replace, File._evict_if_needed.
    cbn [File.cache_entries File.init File.delete_key filter app length
         File._max_size Z.of_nat Pos.of_succ_nat].
    assert ((1 >? Zpos capacity) = false) as -> by now destruct capacity.
    reflexivity.
  - reflexivity.
  - reflexivity.
  - reflexivity.
Qed.

(** ** A conditional write at the reading of the expiry *)

(** At the reading equal to the stored expiry the two tests of the file
    engine differ: [get] still returns the value (it expires a row when
    [now > expires_at]) while [set(nx=True)] no longer counts the row (it
    counts rows with [expires_at > now]), returns true and replaces the
    value.  The memory engine refuses the same write. *)
Theorem File_nx_at_the_expiry :
  (exists self1 self2,
      File.set "k" (PyStr "v1") (Some 5) false true 1700000000 (File.init 3)
      = Return (true, self1) /\
      File.select_key (File.SqlText "k") (File.cache_entries self1)
      = Some (File.mkRow (File.SqlText "k") (PyStr "v1") (Some 1700000005%Q)
                1700000000 1700000000) /\
      fst (File.get "k" 1700000005 self1) = PyStr "v1" /\
      File.set "k" (PyStr "v2") None false true 1700000005 self1
      = Return (true, self2) /\
      fst (File.get "k" 1700000005 self2) = PyStr "v2") /\
  (exists self1,
      Memory.set "k" (PyStr "v1") (Some 5) false true 1700000000 (Memory.init 3)
      = Return (true, self1) /\
      fst (Memory.get "k" 1700000005 self1) = PyStr "v1" /\
      Memory.set "k" (PyStr "v2") None false true 1700000005 self1
      = Return (false, self1)).
Proof.
  split.
  - eexists. eexists. split; [vm_compute; reflexivity |]. repeat split.
  - eexists. split; [vm_compute; reflexivity |]. repeat split.
Qed.

(** ** A scan of the file engine across an expiry *)

(** Each page of a scan of the file engine is cut from the keys that are
    unexpired at the reading of that page.  When a row expires between two
    pages, the later page is cut from a shorter list at the old cursor:
    with 151 rows of which the first in key order expires between the
    readings of the two pages, the scan collects the expired key and 149
    of the 150 others, and never the key ["1099"], which is unexpired at
    both readings. *)
Theorem File_scan_across_an_expiry :
  let table :=
    File.mkFileBackend 200
      (File.mkRow (File.SqlText "0999") (PyInt 0) (Some (3400000001 # 2)) 0 0
       :: map (fun i => File.mkRow (File.SqlText (decimal (1000 + Z.of_nat i)))
                          (PyInt 1) None 0 0) (seq 0 150))
      false (Some true) in
  exists collected,
    Invalidator.scan_all (H0 := FileKeySpace (fun _ _ => true))
      [1700000000%Q; 1700000001%Q] table 0 []
    = Some (Invalidator.Collected collected) /\
    length collected = 150%nat /\
    existsb (Key.eqb "0999") collected = true /\
    existsb (Key.eqb "1099") collected = false /\
    fst (File.get "1099" 1700000000 table) = PyInt 1 /\
    fst (File.get "1099" 1700000001 table) = PyInt 1.
Proof.
  intro table. eexists. split; [vm_compute; reflexivity |].
  repeat split; vm_compute; reflexivity.
Qed.

(** ** A pattern scan over keys that are not text *)

Lemma fnmatch_filter_not_str fnmatch pattern (all_keys : list CacheKey) :
  forallb Key.is_str all_keys = false ->
  fnmatch_filter fnmatch pattern all_keys = Raise TypeError.
Proof.
  induction all_keys as [| k rest IH]; simpl; [discriminate |].
  destruct k as [s | z | b]; simpl; try reflexivity.
  intro Hrest. now rewrite (IH Hrest).
Qed.

(** On a memory engine that stores a key which is not a [str],
    [invalidate_pattern] with a pattern other than ["*"] raises the
    [TypeError] of [fnmatch] in its first call of [keys]: nothing is
    removed and nothing is logged. *)
Theorem invalidate_pattern_type_error :
  forall (fnmatch : string -> string -> bool) (pattern : string)
         (max_keys : option Z) (now : Timestamp) (later : list Timestamp)
         (t : Timestamp) (inv : Invalidator.CacheInvalidator)
         (self : Memory.MemoryBackend),
    pattern <> "*"%string ->
    forallb Key.is_str (OrderedDict.keys (Memory._cache self)) = false ->
    Invalidator.invalidate_pattern (H0 := MemoryKeySpace fnmatch)
      (now :: later) pattern max_keys t inv self
    = Some (Failure (BackendError TypeError), inv, self).
Proof.
  intros fnmatch pattern max_keys now later t inv self Hpattern Hkeys.
  unfold Invalidator.invalidate_pattern. cbn [Invalidator.scan_pattern].
  simpl keys. unfold Memory.keys.
  assert (String.eqb pattern "*" = false) as -> by now apply String.eqb_neq.
  now rewrite (fnmatch_filter_not_str fnmatch pattern _ Hkeys).
Qed.

Lemma invalidate_pattern_type_error_witness :
  Invalidator.invalidate_pattern
    (H0 := MemoryKeySpace (fun k _ => String.prefix "user:" k)) [10%Q] "user:*" None 10
    (Invalidator.mkInvalidator 100 false [] 0)
    (Memory.mkMemoryBackend 5
       [(KStr "user:1", (PyInt 1, None)); (KInt 7, (PyInt 2, None))] false (Some true))
  = Some (Failure (BackendError TypeError),
          Invalidator.mkInvalidator 100 false [] 0,
          Memory.mkMemoryBackend 5
            [(KStr "user:1", (PyInt 1, None)); (KInt 7, (PyInt 2, None))]
            false (Some true)).
Proof.
  apply invalidate_pattern_type_error; [discriminate | reflexivity].
Defined.
